(** * stress-workload.c: the workload stressor of stress-ng

    A shallow embedding of [src/stress-workload.c] and the properties of
    its quantum sampler, quantum ordering, busy-work dispatch, slice
    executor and start-time histogram.

    Conventions of the embedding.
    - [uint32_t] and [uint64_t] values are integers of [Z]; every C
      operation that can wrap is written with its reduction ([wrap32],
      [wrap64]).
    - A [double] is the rational of [Q] it denotes.  Every sum,
      difference, product and quotient of doubles the code computes is
      rounded to the nearest binary64 value, ties to even ([fl]), one
      operation at a time; the conversions of [uint32_t] values to
      [double] are exact.  The conversion of a double to an integer type
      truncates toward zero ([double_to_int]); it is defined in C for the
      values of the target type only ([in_ssize_t], [in_uint64_t]).
      Infinities are outside the embedding.  The percentages of the
      histogram report are kept as the exact quotients, with the two
      results of a zero divisor ([fp_div]); the report prints them to
      one decimal.
    - The C arrays ([workload], [bucket->bucket], [buffer]) are lists
      updated in place by index.
    - Everything the stressor reads from its environment is read from an
      oracle held in the [world]: the pseudo random number generator, the
      wall clock, the outcome of the two allocations and the
      keep-running predicate. *)

From Stdlib Require Import ZArith QArith Qround Qabs Qpower Lia List.
From Stdlib Require Import Permutation Sorted SpecFloat.
From stdpp Require Import base list strings.

Open Scope Z_scope.

(** ** Machine integers *)

Definition wrap32 (z : Z) : Z := z mod 2 ^ 32.
Definition wrap64 (z : Z) : Z := z mod 2 ^ 64.

(** ** The pseudo random number generator (core-mwc.c, not in src/)

    The generator is a tape of raw words, one consumed by each draw. *)

Record mwc_t : Type := MkMwc {
  mwc_raw : nat -> Z;
  mwc_pos : nat
}.

Definition mwc_next (g : mwc_t) : Z * mwc_t :=
  (mwc_raw g (mwc_pos g), MkMwc (mwc_raw g) (S (mwc_pos g))).

(** Modelled from the spec: [stress_mwc32modn], the uniform draw over
    [[0, max)] of core-mwc.c, which is not part of src/.  The spec asks
    for a value of the stated range and for the constant 0 over a range
    of zero width. *)
Definition stress_mwc32modn (max : Z) (g : mwc_t) : Z * mwc_t :=
  if max =? 0 then (0, g)
  else let (r, g') := mwc_next g in (r mod max, g').

(** Modelled from the spec: [stress_mwc8modn], the 8 bit draw over
    [[0, max)] that selects a busy-work kernel. *)
Definition stress_mwc8modn (max : Z) (g : mwc_t) : Z * mwc_t :=
  if max =? 0 then (0, g)
  else let (r, g') := mwc_next g in (r mod max, g').

(** Modelled from the spec: [stress_mwc8], a pseudo random byte. *)
Definition stress_mwc8 (g : mwc_t) : Z * mwc_t :=
  let (r, g') := mwc_next g in (r mod 2 ^ 8, g').

(** Modelled from the spec: [stress_mwc64], a 64 bit pseudo random
    value. *)
Definition stress_mwc64 (g : mwc_t) : Z * mwc_t :=
  let (r, g') := mwc_next g in (wrap64 r, g').

(** The values a draw over [[0, max)] can return. *)
Definition mwc_range (max x : Z) : Prop :=
  (max = 0 /\ x = 0) \/ 0 <= x < max.

(** ** Data model *)

Definition NUM_BUCKETS : Z := 20.

Definition STRESS_WORKLOAD_DIST_RANDOM1 : Z := 1.
Definition STRESS_WORKLOAD_DIST_RANDOM2 : Z := 2.
Definition STRESS_WORKLOAD_DIST_RANDOM3 : Z := 3.
Definition STRESS_WORKLOAD_DIST_CLUSTER : Z := 4.

Record stress_workload_t : Type := MkWorkload {
  when_us : Z
}.

(** ** The quantum sampler: the [switch (workload_dist)] of
    [stress_workload_exercise] *)

(** One quantum of each distribution: the right-hand side of the
    assignment to [workload[i].when_us]. *)
Definition random1_when (slice_us quanta_us : Z) (g : mwc_t) : Z * mwc_t :=
  stress_mwc32modn (wrap32 (slice_us - quanta_us)) g.

Definition random2_when (slice_us quanta_us : Z) (g : mwc_t) : Z * mwc_t :=
  let (d1, g1) := stress_mwc32modn (wrap32 (slice_us - quanta_us)) g in
  let (d2, g2) := stress_mwc32modn (wrap32 (slice_us - quanta_us)) g1 in
  (wrap32 (d1 + d2) / 2, g2).

Definition random3_when (slice_us quanta_us : Z) (g : mwc_t) : Z * mwc_t :=
  let (d1, g1) := stress_mwc32modn (wrap32 (slice_us - quanta_us)) g in
  let (d2, g2) := stress_mwc32modn (wrap32 (slice_us - quanta_us)) g1 in
  let (d3, g3) := stress_mwc32modn (wrap32 (slice_us - quanta_us)) g2 in
  (wrap32 (wrap32 (d1 + d2) + d3) / 3, g3).

Definition cluster_when (quanta_us offset : Z) (g : mwc_t) : Z * mwc_t :=
  let (d, g1) := stress_mwc32modn quanta_us g in
  (wrap32 (d + offset), g1).

(** [for (; i < bound; i++) workload[i].when_us = draw();] with [count]
    the number of iterations left. *)
Fixpoint fill_loop (draw : mwc_t -> Z * mwc_t) (count i : nat)
    (workload : list stress_workload_t) (g : mwc_t)
    : list stress_workload_t * mwc_t :=
  match count with
  | O => (workload, g)
  | S count' =>
      let (v, g') := draw g in
      fill_loop draw count' (S i) (<[i := MkWorkload v]> workload) g'
  end.

(** The number of iterations of [for (; i < bound; i++)] entered at [i]. *)
Definition trips (i : nat) (bound : Z) : nat := Z.to_nat bound - i.

Definition stress_workload_fill
    (workload_dist slice_us quanta_us max_quanta : Z)
    (workload : list stress_workload_t) (g : mwc_t)
    : list stress_workload_t * mwc_t :=
  if workload_dist =? STRESS_WORKLOAD_DIST_RANDOM1 then
    fill_loop (random1_when slice_us quanta_us) (trips 0 max_quanta) 0
      workload g
  else if workload_dist =? STRESS_WORKLOAD_DIST_RANDOM2 then
    fill_loop (random2_when slice_us quanta_us) (trips 0 max_quanta) 0
      workload g
  else if workload_dist =? STRESS_WORKLOAD_DIST_RANDOM3 then
    fill_loop (random3_when slice_us quanta_us) (trips 0 max_quanta) 0
      workload g
  else if workload_dist =? STRESS_WORKLOAD_DIST_CLUSTER then
    let (offset, g0) := stress_mwc32modn (slice_us / 2) g in
    let burst := wrap32 (max_quanta * 2) / 3 in
    let (workload1, g1) :=
      fill_loop (cluster_when quanta_us offset) (trips 0 burst) 0 workload g0 in
    fill_loop (random1_when slice_us quanta_us)
      (trips (Z.to_nat burst) max_quanta) (Z.to_nat burst) workload1 g1
  else (workload, g).

(** ** Doubles *)

(** The binade of a positive [x]: the [e] with [2 ^ e <= x < 2 ^ (e + 1)]. *)
Definition Qlog2 (x : Q) : Z :=
  let e := Z.log2 (Qnum x) - Z.log2 (Z.pos (Qden x)) in
  if Qle_bool (2 ^ e) x then e else e - 1.

(** The nearest integer, the even one of the two at a tie. *)
Definition round_half_even (x : Q) : Z :=
  let f := Qfloor x in
  match (x - inject_Z f ?= 1 # 2)%Q with
  | Lt => f
  | Gt => f + 1
  | Eq => if Z.even f then f else f + 1
  end.

(** The rounding of IEEE 754 binary64 arithmetic, to nearest with ties to
    even: [x] is rounded to a multiple of the unit in its last place,
    [2 ^ (e - 52)] in the binade [e] and [2 ^ (-1074)] for the
    subnormal numbers.  The overflow to an infinity, from [2 ^ 1024] on,
    is not modelled. *)
Definition fl (x : Q) : Q :=
  if Qeq_bool x 0 then 0%Q
  else
    let e := Z.max (Qlog2 (Qabs x) - 52) (-1074) in
    (inject_Z (round_half_even (x / 2 ^ e)) * 2 ^ e)%Q.

(** A double that is not negative: a mantissa of 53 bits at an exponent
    of the format. *)
Definition is_double (x : Q) : Prop :=
  exists m g : Z,
    0 <= m < 2 ^ 53 /\ -1074 <= g <= 971 /\ (x == inject_Z m * 2 ^ g)%Q.

(** The binary64 arithmetic of the Rocq library, to compare [fl] with:
    the value of a finite float, the float of an integer, and the four
    operations. *)
Definition SF2Q (f : spec_float) : Q :=
  match f with
  | S754_finite s m e =>
      (inject_Z (if s then Z.neg m else Z.pos m) * 2 ^ e)%Q
  | _ => 0%Q
  end.

Definition b64_of_Z (z : Z) : spec_float := binary_normalize 53 1024 z 0 false.
Definition b64_add : spec_float -> spec_float -> spec_float := SFadd 53 1024.
Definition b64_sub : spec_float -> spec_float -> spec_float := SFsub 53 1024.
Definition b64_mul : spec_float -> spec_float -> spec_float := SFmul 53 1024.
Definition b64_div : spec_float -> spec_float -> spec_float := SFdiv 53 1024.

(** The C conversion of a double to an integer type: truncation toward
    zero.  C defines it when the truncated value is one of the target
    type, [ssize_t] or [uint64_t]. *)
Definition double_to_int (x : Q) : Z := Z.quot (Qnum x) (Z.pos (Qden x)).

Definition in_ssize_t (x : Q) : Prop :=
  - 2 ^ 63 <= double_to_int x < 2 ^ 63.

Definition in_uint64_t (x : Q) : Prop :=
  0 <= double_to_int x < 2 ^ 64.

Definition Qlt_bool (x y : Q) : bool := negb (Qle_bool y x).

(** The result of a double division, with the two results IEEE 754 gives
    to a zero divisor. *)
Inductive fp : Type :=
  | FpFinite (q : Q)
  | FpInf
  | FpNaN.

Definition fp_div (x y : Q) : fp :=
  if Qeq_bool y 0 then (if Qeq_bool x 0 then FpNaN else FpInf)
  else FpFinite (x / y).

Definition fp_is_finite (r : fp) : bool :=
  match r with FpFinite _ => true | _ => false end.

(** Modelled from the spec: the unit constants of the stress-ng headers,
    which are not part of src/ (microseconds and nanoseconds per
    second). *)
Definition STRESS_DBL_MICROSECOND : Q := 1000000.
Definition STRESS_DBL_NANOSECOND : Q := 1000000000.

(** ** The start-time histogram *)

Record stress_workload_bucket_t : Type := MkBucket {
  width : Q;
  bucket : list Z;
  overflow : Z
}.

(** [for (i = 0; i < SIZEOF_ARRAY(bucket->bucket); i++)
      bucket->bucket[i] = 0;] *)
Fixpoint zero_loop (count i : nat) (cells : list Z) : list Z :=
  match count with
  | O => cells
  | S count' => zero_loop count' (S i) (<[i := 0]> cells)
  end.

Definition stress_workload_bucket_init (b : stress_workload_bucket_t) (w : Q)
    : stress_workload_bucket_t :=
  MkBucket (fl (w / inject_Z NUM_BUCKETS))
           (zero_loop (trips 0 NUM_BUCKETS) 0 (bucket b))
           0.

Definition stress_workload_bucket_account (b : stress_workload_bucket_t)
    (value : Q) : stress_workload_bucket_t :=
  let i := double_to_int (fl (value / width b)) in
  let i := if i <? 0 then 0 else i in
  if i <? NUM_BUCKETS then
    MkBucket (width b)
             (<[Z.to_nat i := wrap64 (default 0 (bucket b !! Z.to_nat i) + 1)]>
                (bucket b))
             (overflow b)
  else
    MkBucket (width b) (bucket b) (wrap64 (overflow b + 1)).

(** One line of the report: the start of the range, its end (none for the
    overflow line), the count and the percentage. *)
Record report_row : Type := MkRow {
  row_low : Z;
  row_high : option Z;
  row_count : Z;
  row_percent : fp
}.

(** [for (i = 0; i < SIZEOF_ARRAY(bucket->bucket); i++)
      total += bucket->bucket[i];] *)
Fixpoint total_loop (count i : nat) (cells : list Z) (total : Z) : Z :=
  match count with
  | O => total
  | S count' =>
      total_loop count' (S i) cells (wrap64 (total + default 0 (cells !! i)))
  end.

Definition bucket_total (b : stress_workload_bucket_t) : Z :=
  total_loop (trips 0 NUM_BUCKETS) 0 (bucket b) (overflow b).

Definition percent (count total : Z) : fp :=
  fp_div (100 * inject_Z count) (inject_Z total).

(** The [pr_dbg] line of each bucket. *)
Fixpoint rows_loop (count i : nat) (b : stress_workload_bucket_t) (total : Z)
    : list report_row :=
  match count with
  | O => []
  | S count' =>
      let c := default 0 (bucket b !! i) in
      let low := double_to_int (fl (inject_Z (Z.of_nat i) * width b)) in
      let next :=
        double_to_int (fl (inject_Z (Z.of_nat i + 1) * width b)) in
      MkRow (wrap64 low) (Some (wrap64 (wrap64 next - 1))) c (percent c total)
      :: rows_loop count' (S i) b total
  end.

(** The lines [stress_workload_bucket_report] prints: one for each bucket
    and the overflow line.  The column widths of the text are left out. *)
Definition stress_workload_bucket_report (b : stress_workload_bucket_t)
    : list report_row :=
  let total := bucket_total b in
  rows_loop (trips 0 NUM_BUCKETS) 0 b total
  ++ [MkRow (wrap64 (double_to_int (fl (inject_Z NUM_BUCKETS * width b))))
            None (overflow b) (percent (overflow b) total)].

(** ** Ordering the quanta *)

Definition stress_workload_cmp (w1 w2 : stress_workload_t) : Z :=
  let when1 := when_us w1 in
  let when2 := when_us w2 in
  if when1 <? when2 then -1
  else if when1 >? when2 then 1
  else 0.

(** Modelled from the spec: [qsort] of the C library, which sorts the
    first [nmemb] elements into ascending order of the comparison
    function; ties may land in any order.  The model inserts each element
    in front of the first one it does not exceed; the cost of the
    library's algorithm is not part of the model. *)
Fixpoint qsort_insert {A : Type} (compar : A -> A -> Z) (x : A) (l : list A)
    : list A :=
  match l with
  | [] => [x]
  | y :: l' =>
      if compar x y <=? 0 then x :: y :: l' else y :: qsort_insert compar x l'
  end.

Fixpoint qsort_all {A : Type} (compar : A -> A -> Z) (l : list A) : list A :=
  match l with
  | [] => []
  | x :: l' => qsort_insert compar x (qsort_all compar l')
  end.

Definition qsort {A : Type} (base : list A) (nmemb : Z) (compar : A -> A -> Z)
    : list A :=
  qsort_all compar (take (Z.to_nat nmemb) base) ++ drop (Z.to_nat nmemb) base.

(** ** The environment of the stressor *)

Inductive exit_status : Type :=
  | EXIT_SUCCESS
  | EXIT_FAILURE
  | EXIT_NO_RESOURCE.

Inductive proc_state : Type :=
  | STRESS_STATE_RUN
  | STRESS_STATE_DEINIT.

(** What the stressor does to its host: the messages it prints ([pr_err],
    [pr_inf_skip], the report), the memory it asks for and gives back,
    the process states it sets and its sleeps. *)
Inductive event : Type :=
  | EvPrErr (quanta_us slice_us : Z)
  | EvPrInfSkip
  | EvCalloc (nmemb : Z)
  | EvMmap (len : Z)
  | EvFree
  | EvMunmap (len : Z)
  | EvProcState (s : proc_state)
  | EvNanosleep (ns : Z)
  | EvReport (rows : list report_row).

(** Modelled from the spec: the settings store read by
    [stress_get_setting]; a setting is present when its option was given,
    and the variable keeps its default otherwise. *)
Record settings : Type := MkSettings {
  set_workload_load : option Z;
  set_workload_slice_us : option Z;
  set_workload_quanta_us : option Z;
  set_workload_dist : option Z
}.

Record stress_args_t : Type := MkArgs {
  instance : Z
}.

Record world : Type := MkWorld {
  w_clock : nat -> Q;        (* what stress_time_now reads, call by call *)
  w_polls : nat;             (* the calls of stress_time_now so far *)
  w_mwc : mwc_t;
  w_val : Z;                 (* static volatile uint64_t val *)
  w_puts : nat;              (* the calls of stress_double_put so far *)
  w_bogo : Z;                (* the operations signalled by stress_bogo_inc *)
  w_continue : nat -> bool;  (* what stress_continue answers, call by call *)
  w_asked : nat;             (* the calls of stress_continue so far *)
  w_calloc_ok : bool;
  w_mmap_ok : bool;
  w_settings : settings;
  w_log : list event         (* latest event first *)
}.

(** A computation over the world; [None] is a loop that ran out of fuel. *)
Definition M (A : Type) : Type := world -> option A * world.

Definition ret {A : Type} (a : A) : M A := fun w => (Some a, w).

Definition bind {A B : Type} (m : M A) (k : A -> M B) : M B :=
  fun w => match m w with
           | (Some a, w') => k a w'
           | (None, w') => (None, w')
           end.

Definition timeout {A : Type} : M A := fun w => (None, w).

Declare Scope workload_scope.
Delimit Scope workload_scope with workload.
Notation "x <- m ;; k" := (bind m (fun x => k))
  (at level 100, m at next level, right associativity) : workload_scope.
Notation "m ;;; k" := (bind m (fun _ => k))
  (at level 100, right associativity) : workload_scope.
Open Scope workload_scope.

(** Modelled from the spec: [stress_time_now], the wall clock in seconds,
    from the stress-ng core; each call reads the next value of the
    oracle. *)
Definition stress_time_now : M Q := fun w =>
  (Some (w_clock w (w_polls w)),
   MkWorld (w_clock w) (S (w_polls w)) (w_mwc w) (w_val w) (w_puts w)
           (w_bogo w) (w_continue w) (w_asked w) (w_calloc_ok w)
           (w_mmap_ok w) (w_settings w) (w_log w)).

(** A draw of the generator [f] on the generator of the world. *)
Definition mwc {A : Type} (f : mwc_t -> A * mwc_t) : M A := fun w =>
  let (a, g) := f (w_mwc w) in
  (Some a,
   MkWorld (w_clock w) (w_polls w) g (w_val w) (w_puts w)
           (w_bogo w) (w_continue w) (w_asked w) (w_calloc_ok w)
           (w_mmap_ok w) (w_settings w) (w_log w)).

(** [val++] *)
Definition val_inc : M unit := fun w =>
  (Some tt,
   MkWorld (w_clock w) (w_polls w) (w_mwc w) (wrap64 (w_val w + 1)) (w_puts w)
           (w_bogo w) (w_continue w) (w_asked w) (w_calloc_ok w)
           (w_mmap_ok w) (w_settings w) (w_log w)).

(** Modelled from the spec: [stress_double_put], the sink of core-put.h
    that takes the value of the math kernel.  The value is not modelled,
    the call is counted. *)
Definition stress_double_put : M unit := fun w =>
  (Some tt,
   MkWorld (w_clock w) (w_polls w) (w_mwc w) (w_val w) (S (w_puts w))
           (w_bogo w) (w_continue w) (w_asked w) (w_calloc_ok w)
           (w_mmap_ok w) (w_settings w) (w_log w)).

(** Modelled from the spec: [stress_bogo_inc], one increment of the
    external operation counter. *)
Definition stress_bogo_inc : M unit := fun w =>
  (Some tt,
   MkWorld (w_clock w) (w_polls w) (w_mwc w) (w_val w) (w_puts w)
           (w_bogo w + 1) (w_continue w) (w_asked w) (w_calloc_ok w)
           (w_mmap_ok w) (w_settings w) (w_log w)).

(** Modelled from the spec: [stress_continue], the externally owned
    keep-running predicate. *)
Definition stress_continue : M bool := fun w =>
  (Some (w_continue w (w_asked w)),
   MkWorld (w_clock w) (w_polls w) (w_mwc w) (w_val w) (w_puts w)
           (w_bogo w) (w_continue w) (S (w_asked w)) (w_calloc_ok w)
           (w_mmap_ok w) (w_settings w) (w_log w)).

(** One more event in the log of the host. *)
Definition emit (e : event) : M unit := fun w =>
  (Some tt,
   MkWorld (w_clock w) (w_polls w) (w_mwc w) (w_val w) (w_puts w)
           (w_bogo w) (w_continue w) (w_asked w) (w_calloc_ok w)
           (w_mmap_ok w) (w_settings w) (e :: w_log w)).

Definition ask {A : Type} (f : world -> A) : M A := fun w => (Some (f w), w).

(** ** The busy-work kernels *)

(** [stress_workload_nop]: 16 rounds of 16 no-operation instructions. *)
Definition stress_workload_nop : M unit := ret tt.

(** [stress_workload_math]: the square roots and hypotenuses are summed
    and handed to the sink. *)
Definition stress_workload_math (v1 v2 : Q) : M unit := stress_double_put.

(** Modelled from the spec: [shim_memset(buffer, c, len)], which fills the
    first [len] bytes of the buffer with [c]. *)
Definition shim_memset (buffer : list Z) (c len : Z) : list Z :=
  replicate (Z.to_nat len) c ++ drop (Z.to_nat len) buffer.

(** Modelled from the spec: [shim_memmove(buffer, buffer + 1, len)], the
    overlapping copy that shifts [len] bytes of the buffer down by one. *)
Definition shim_memmove_down (buffer : list Z) (len : Z) : list Z :=
  take (Z.to_nat len) (drop 1 buffer) ++ drop (Z.to_nat len) buffer.

(** [while ((t = stress_time_now()) < t_end) body;] over the loop state
    [s]; [fuel] bounds the number of polls of the clock. *)
Fixpoint while_now {St : Type} (fuel : nat) (t_end : Q)
    (body : Q -> St -> M St) (s : St) : M St :=
  match fuel with
  | O => timeout
  | S fuel' =>
      t <- stress_time_now ;;
      if Qlt_bool t t_end then
        s' <- body t s ;; while_now fuel' t_end body s'
      else ret s
  end.

(** One round of the mixed kernel: the inner [switch (stress_mwc8modn(7))]. *)
Definition mixed_step (fuel : nat) (t_end : Q) (buffer_len : Z)
    (t : Q) (buffer : list Z) : M (list Z) :=
  k <- mwc (stress_mwc8modn 7) ;;
  if k =? 0 then ret buffer
  else if k =? 1 then stress_workload_nop ;;; ret buffer
  else if k =? 2 then
    c <- mwc stress_mwc8 ;; ret (shim_memset buffer c buffer_len)
  else if k =? 3 then ret (shim_memmove_down buffer (buffer_len - 1))
  else if k =? 4 then
    while_now fuel t_end (fun _ b => val_inc ;;; ret b) buffer
  else if k =? 5 then mwc stress_mwc64 ;;; ret buffer
  else stress_workload_math t t_end ;;; ret buffer.

Definition stress_workload_waste_time (fuel : nat) (run_duration_sec : Q)
    (buffer : list Z) (buffer_len : Z) : M (list Z) :=
  now <- stress_time_now ;;
  let t_end := fl (now + run_duration_sec) in
  k <- mwc (stress_mwc8modn 8) ;;
  if k =? 0 then
    while_now fuel t_end (fun _ b => ret b) buffer
  else if k =? 1 then
    while_now fuel t_end (fun _ b => stress_workload_nop ;;; ret b) buffer
  else if k =? 2 then
    while_now fuel t_end
      (fun _ b => c <- mwc stress_mwc8 ;; ret (shim_memset b c buffer_len))
      buffer
  else if k =? 3 then
    while_now fuel t_end
      (fun _ b => ret (shim_memmove_down b (buffer_len - 1))) buffer
  else if k =? 4 then
    (* case 4 has no break: the loop of case 5 follows *)
    buffer' <- while_now fuel t_end
                 (fun t b => stress_workload_math t t_end ;;; ret b) buffer ;;
    while_now fuel t_end (fun _ b => val_inc ;;; ret b) buffer'
  else if k =? 5 then
    while_now fuel t_end (fun _ b => val_inc ;;; ret b) buffer
  else if k =? 6 then
    while_now fuel t_end (fun _ b => mwc stress_mwc64 ;;; ret b) buffer
  else
    while_now fuel t_end (mixed_step fuel t_end buffer_len) buffer.

(** ** The slice executor *)

(** Modelled from the spec: [shim_nanosleep_uint64], the sleep until the
    target; the clock being an oracle, the sleep is an event of the log. *)
Definition shim_nanosleep_uint64 (ns : Z) : M unit := emit (EvNanosleep ns).

(** The memory [stress_workload_exercise] works on through its pointer
    arguments. *)
Record memory : Type := MkMemory {
  m_workload : list stress_workload_t;
  m_bucket : stress_workload_bucket_t;
  m_buffer : list Z
}.

(** [for (; i < max_quanta; i++)] over the sorted quanta, with [count] the
    number of iterations left. *)
Fixpoint quanta_loop (fuel count i : nat) (t_begin run_duration_sec : Q)
    (workload : list stress_workload_t)
    (slice_offset_bucket : stress_workload_bucket_t)
    (buffer : list Z) (buffer_len : Z)
    : M (stress_workload_bucket_t * list Z) :=
  match count with
  | O => ret (slice_offset_bucket, buffer)
  | S count' =>
      let scale_us_to_sec := fl (1 / STRESS_DBL_MICROSECOND) in
      let run_when :=
        fl (t_begin
            + fl (inject_Z (when_us (default (MkWorkload 0) (workload !! i)))
                  * scale_us_to_sec)) in
      now <- stress_time_now ;;
      let sleep_duration_ns :=
        fl (fl (run_when - now) * STRESS_DBL_NANOSECOND) in
      (if Qlt_bool 10000 sleep_duration_ns
       then shim_nanosleep_uint64 (double_to_int sleep_duration_ns)
       else ret tt) ;;;
      now <- stress_time_now ;;
      let slice_offset_bucket' :=
        stress_workload_bucket_account slice_offset_bucket
          (fl (STRESS_DBL_MICROSECOND * fl (now - t_begin))) in
      buffer' <- (if Qlt_bool 0 run_duration_sec
                  then stress_workload_waste_time fuel run_duration_sec
                         buffer buffer_len
                  else ret buffer) ;;
      stress_bogo_inc ;;;
      quanta_loop fuel count' (S i) t_begin run_duration_sec workload
        slice_offset_bucket' buffer' buffer_len
  end.

Definition stress_workload_exercise (fuel : nat) (args : stress_args_t)
    (workload_load workload_slice_us workload_quanta_us max_quanta
       workload_dist : Z)
    (mem : memory) (buffer_len : Z) : M (exit_status * memory) :=
  let scale_us_to_sec := fl (1 / STRESS_DBL_MICROSECOND) in
  t_begin <- stress_time_now ;;
  let t_end :=
    fl (t_begin + fl (inject_Z workload_slice_us * scale_us_to_sec)) in
  let run_duration_sec :=
    fl (fl (inject_Z workload_quanta_us * scale_us_to_sec)
        * fl (inject_Z workload_load / 100)) in
  workload <- mwc (stress_workload_fill workload_dist workload_slice_us
                     workload_quanta_us max_quanta (m_workload mem)) ;;
  let workload := qsort workload max_quanta stress_workload_cmp in
  t_begin <- stress_time_now ;;
  let t_end :=
    fl (t_begin + fl (inject_Z workload_slice_us * scale_us_to_sec)) in
  r <- quanta_loop fuel (trips 0 max_quanta) 0 t_begin run_duration_sec
         workload (m_bucket mem) (m_buffer mem) buffer_len ;;
  now <- stress_time_now ;;
  let sleep_duration_ns := fl (fl (t_end - now) * STRESS_DBL_NANOSECOND) in
  (if Qlt_bool 100 sleep_duration_ns
   then shim_nanosleep_uint64 (double_to_int sleep_duration_ns)
   else ret tt) ;;;
  ret (EXIT_SUCCESS, MkMemory workload (fst r) (snd r)).

(** ** The stressor *)

(** Modelled from the spec: [MB], the size of the scratch buffer, from
    the stress-ng headers (1 MiB). *)
Definition MB : Z := 2 ^ 20.

(** [do { stress_workload_exercise(...); } while (stress_continue(args));]
    with [rounds] bounding the number of slices. *)
Fixpoint exercise_loop (fuel rounds : nat) (args : stress_args_t)
    (workload_load workload_slice_us workload_quanta_us max_quanta
       workload_dist : Z)
    (mem : memory) (buffer_len : Z) : M memory :=
  match rounds with
  | O => timeout
  | S rounds' =>
      r <- stress_workload_exercise fuel args workload_load workload_slice_us
             workload_quanta_us max_quanta workload_dist mem buffer_len ;;
      c <- stress_continue ;;
      if c : bool then
        exercise_loop fuel rounds' args workload_load workload_slice_us
          workload_quanta_us max_quanta workload_dist (snd r) buffer_len
      else ret (snd r)
  end.

Definition stress_workload (fuel : nat) (args : stress_args_t)
    : M exit_status :=
  s <- ask w_settings ;;
  let workload_load := default 30 (set_workload_load s) in
  let workload_slice_us := default 100000 (set_workload_slice_us s) in
  let workload_quanta_us := default 1000 (set_workload_quanta_us s) in
  let workload_dist :=
    default STRESS_WORKLOAD_DIST_CLUSTER (set_workload_dist s) in
  let buffer_len := MB in
  if workload_quanta_us >? workload_slice_us then
    emit (EvPrErr workload_quanta_us workload_slice_us) ;;;
    ret EXIT_FAILURE
  else
    let max_quanta := workload_slice_us / workload_quanta_us in
    let max_quanta := if max_quanta <? 1 then 1 else max_quanta in
    emit (EvCalloc max_quanta) ;;;
    calloc_ok <- ask w_calloc_ok ;;
    if negb calloc_ok then
      emit EvPrInfSkip ;;; ret EXIT_NO_RESOURCE
    else
      let workload := replicate (Z.to_nat max_quanta) (MkWorkload 0) in
      emit (EvMmap buffer_len) ;;;
      mmap_ok <- ask w_mmap_ok ;;
      if negb mmap_ok then
        emit EvPrInfSkip ;;; emit EvFree ;;; ret EXIT_NO_RESOURCE
      else
        let buffer := replicate (Z.to_nat buffer_len) 0 in
        (* the automatic variable slice_offset_bucket: every field is
           written by stress_workload_bucket_init *)
        let slice_offset_bucket :=
          stress_workload_bucket_init
            (MkBucket 0 (replicate (Z.to_nat NUM_BUCKETS) 0) 0)
            (inject_Z workload_slice_us) in
        emit (EvProcState STRESS_STATE_RUN) ;;;
        mem <- exercise_loop fuel fuel args workload_load workload_slice_us
                 workload_quanta_us max_quanta workload_dist
                 (MkMemory workload slice_offset_bucket buffer) buffer_len ;;
        emit (EvProcState STRESS_STATE_DEINIT) ;;;
        (if instance args =? 0
         then emit (EvReport (stress_workload_bucket_report (m_bucket mem)))
         else ret tt) ;;;
        emit (EvMunmap buffer_len) ;;;
        emit EvFree ;;;
        ret EXIT_SUCCESS.

(** ** Configurations and the statements of the sampler *)

(** The validated configuration: [1 <= quanta_us <= slice_us <= 10000000]. *)
Definition valid_config (slice_us quanta_us : Z) : Prop :=
  1 <= quanta_us /\ quanta_us <= slice_us /\ slice_us <= 10000000.

(** [max_quanta] as [stress_workload] derives it. *)
Definition quanta_count (slice_us quanta_us : Z) : Z :=
  let max_quanta := slice_us / quanta_us in
  if max_quanta <? 1 then 1 else max_quanta.

(** An offset of [[0, slice_us - quanta_us)], or 0 when the range is
    empty. *)
Definition offset_in_range (slice_us quanta_us : Z) (q : stress_workload_t)
    : Prop :=
  mwc_range (slice_us - quanta_us) (when_us q).

(** The mean of two and of three draws in exact arithmetic. *)
Definition random2_exact (slice_us quanta_us : Z) (g : mwc_t) : Z * mwc_t :=
  let (d1, g1) := stress_mwc32modn (slice_us - quanta_us) g in
  let (d2, g2) := stress_mwc32modn (slice_us - quanta_us) g1 in
  ((d1 + d2) / 2, g2).

Definition random3_exact (slice_us quanta_us : Z) (g : mwc_t) : Z * mwc_t :=
  let (d1, g1) := stress_mwc32modn (slice_us - quanta_us) g in
  let (d2, g2) := stress_mwc32modn (slice_us - quanta_us) g1 in
  let (d3, g3) := stress_mwc32modn (slice_us - quanta_us) g2 in
  ((d1 + d2 + d3) / 3, g3).

(** The sum of the first two, and of all three, draws of a quantum. *)
Definition draw_sums (slice_us quanta_us : Z) (g : mwc_t) : Z * Z :=
  let (d1, g1) := stress_mwc32modn (slice_us - quanta_us) g in
  let (d2, g2) := stress_mwc32modn (slice_us - quanta_us) g1 in
  let (d3, g3) := stress_mwc32modn (slice_us - quanta_us) g2 in
  (d1 + d2, d1 + d2 + d3).

(** The quanta [count] iterations of a fill loop draw, in order. *)
Fixpoint draws (draw : mwc_t -> Z * mwc_t) (count : nat) (g : mwc_t)
    : list stress_workload_t * mwc_t :=
  match count with
  | O => ([], g)
  | S count' =>
      let (v, g') := draw g in
      let (vs, g'') := draws draw count' g' in
      (MkWorkload v :: vs, g'')
  end.

(** One quantum of the burst of Cluster in the words of the spec: the
    burst offset plus a draw over [[0, quanta_us)]. *)
Definition burst_draw (quanta_us offset0 : Z) (g : mwc_t) : Z * mwc_t :=
  let (d, g') := stress_mwc32modn quanta_us g in (offset0 + d, g').

(** The offset of the quantum is in the burst interval
    [[offset0, offset0 + quanta_us)]. *)
Definition in_burst (offset0 quanta_us : Z) (q : stress_workload_t) : bool :=
  (offset0 <=? when_us q) && (when_us q <? offset0 + quanta_us).

(** ** The statements of the histogram and the examples *)

(** A tape of raw words for the examples. *)
Definition example_tape : mwc_t :=
  MkMwc (fun n => 2654435761 * Z.of_nat (S n)) 0.

(** [account] in the words of the spec: the index is the floor of
    [value_us / bucket_width_us], clamped to 0 from below; index 20 and
    above counts as overflow. *)
Definition account_spec (b : stress_workload_bucket_t) (value : Q)
    : stress_workload_bucket_t :=
  let i := Qfloor (value / width b) in
  let i := if i <? 0 then 0 else i in
  if i >=? 20 then
    MkBucket (width b) (bucket b) (wrap64 (overflow b + 1))
  else
    MkBucket (width b)
             (<[Z.to_nat i := wrap64 (default 0 (bucket b !! Z.to_nat i) + 1)]>
                (bucket b))
             (overflow b).

(** The histogram with the counter of bucket [k] incremented, and with
    the overflow counter incremented. *)
Definition bump_bucket (b : stress_workload_bucket_t) (k : Z)
    : stress_workload_bucket_t :=
  MkBucket (width b)
           (<[Z.to_nat k := wrap64 (default 0 (bucket b !! Z.to_nat k) + 1)]>
              (bucket b))
           (overflow b).

Definition bump_overflow (b : stress_workload_bucket_t)
    : stress_workload_bucket_t :=
  MkBucket (width b) (bucket b) (wrap64 (overflow b + 1)).

(** The samples a histogram holds. *)
Definition bucket_samples (b : stress_workload_bucket_t) : Z :=
  foldr Z.add 0 (bucket b) + overflow b.

(** The cells of a histogram are counters: 20 of them, none negative. *)
Definition cells_ok (b : stress_workload_bucket_t) : Prop :=
  length (bucket b) = 20%nat
  /\ Forall (fun c => 0 <= c) (bucket b)
  /\ 0 <= overflow b.

(** The report guards a zero total when no line it prints for a histogram
    without samples carries the result of a division by zero. *)
Definition report_guards_zero_total (b : stress_workload_bucket_t) : Prop :=
  bucket_total b = 0 ->
  Forall (fun r => fp_is_finite (row_percent r) = true)
         (stress_workload_bucket_report b).

(** ** The statements of the kernels, the executor and the stressor *)

(** A world with nothing done yet, for the examples. *)
Definition example_world (clock : nat -> Q) (g : mwc_t) (s : settings)
    : world :=
  MkWorld clock 0 g 0 0 0 (fun _ => false) 0 true true s [].

(** Option 4 of the kernel draw in the words of the spec: the math kernel,
    and it alone, until the deadline. *)
Definition waste_time_math_only (fuel : nat) (run_duration_sec : Q)
    (buffer : list Z) : M (list Z) :=
  now <- stress_time_now ;;
  let t_end := fl (now + run_duration_sec) in
  _ <- mwc (stress_mwc8modn 8) ;;
  while_now fuel t_end
    (fun t b => stress_workload_math t t_end ;;; ret b) buffer.

(** The clock reaches every deadline and stays past it. *)
Definition clock_passes (clock : nat -> Q) : Prop :=
  forall T : Q, exists q : nat,
    forall r : nat, (q <= r)%nat -> (T <= clock r)%Q.

(** [m] keeps the relation [R] between the world it starts in and the
    world it leaves. *)
Definition preserves (R : world -> world -> Prop) {A : Type} (m : M A)
    : Prop :=
  forall w : world, R w (snd (m w)).

(** [m'] does what [m] does wherever [m] returns. *)
Definition extends {A : Type} (m m' : M A) : Prop :=
  forall (w : world) (a : A), fst (m w) = Some a -> m' w = m w.

(** The clock is the same and no poll of it is undone. *)
Definition same_clock (w w' : world) : Prop :=
  w_clock w' = w_clock w /\ (w_polls w <= w_polls w')%nat.

(** The operations signalled are the same. *)
Definition same_bogo (w w' : world) : Prop := w_bogo w' = w_bogo w.

Definition is_pr_err (e : event) : bool :=
  match e with EvPrErr _ _ => true | _ => false end.

(** Since [w], no configuration error was reported. *)
Definition no_config_error (w w' : world) : Prop :=
  exists evs : list event,
    w_log w' = evs ++ w_log w /\ Forall (fun e => is_pr_err e = false) evs.

(** [m] returns in every world whose clock is [c] and was polled [p0]
    times or more. *)
Definition returns_past (c : nat -> Q) (p0 : nat) {A : Type} (m : M A)
    : Prop :=
  forall w : world,
    w_clock w = c -> (p0 <= w_polls w)%nat ->
    exists a : A, fst (m w) = Some a.

(** A clock that advances by one microsecond at each poll. *)
Definition example_clock (n : nat) : Q :=
  (inject_Z (Z.of_nat n) / 1000000)%Q.

(** [x] is not after [y] in the order of the comparison function. *)
Definition compar_le {A : Type} (compar : A -> A -> Z) (x y : A) : Prop :=
  compar x y <= 0.

(** ** The option setter of the distribution *)

(** The table [workload_dist[]]: the names of the distributions and their
    types. *)
Definition workload_dist : list (string * Z) :=
  [ ("random1", STRESS_WORKLOAD_DIST_RANDOM1);
    ("random2", STRESS_WORKLOAD_DIST_RANDOM2);
    ("random3", STRESS_WORKLOAD_DIST_RANDOM3);
    ("cluster", STRESS_WORKLOAD_DIST_CLUSTER) ].

(** Modelled from the spec: [stress_set_setting("workload-dist", TYPE_ID_INT,
    &type)] of the stress-ng core, which stores the value in the settings
    and returns 0. *)
Definition stress_set_setting_dist (type : Z) (s : settings) : Z * settings :=
  (0, MkSettings (set_workload_load s) (set_workload_slice_us s)
        (set_workload_quanta_us s) (Some type)).

(** The first loop of [stress_set_workload_dist]: the type of the first
    entry of the table whose name [strcmp] finds equal to [opt]. *)
Fixpoint dist_search (opt : string) (table : list (string * Z)) : option Z :=
  match table with
  | [] => None
  | (name, type) :: table' =>
      if String.eqb opt name then Some type else dist_search opt table'
  end.

(** The second loop: [fprintf(stderr, " %s", workload_dist[i].name)]. *)
Fixpoint dist_names (table : list (string * Z)) : list string :=
  match table with
  | [] => []
  | (name, _) :: table' => String.append " " name :: dist_names table'
  end.

Definition newline : string := String (Ascii.ascii_of_nat 10) EmptyString.

(** [stress_set_workload_dist]: the value it returns, the settings it
    leaves and what it prints on [stderr]. *)
Definition stress_set_workload_dist (opt : string) (s : settings)
    : Z * settings * list string :=
  match dist_search opt workload_dist with
  | Some type => (stress_set_setting_dist type s, [])
  | None =>
      ((-1, s),
       "workload-dist must be one of:" :: dist_names workload_dist
       ++ [newline])
  end.

(** ** The statements of the further properties *)

(** The log is the same. *)
Definition same_log (w w' : world) : Prop := w_log w' = w_log w.

(** The keep-running oracle is the same and was not asked. *)
Definition same_asked (w w' : world) : Prop :=
  w_continue w' = w_continue w /\ w_asked w' = w_asked w.

Definition is_nanosleep (e : event) : bool :=
  match e with EvNanosleep _ => true | _ => false end.

(** Since [w], the log got sleeps and nothing else. *)
Definition only_sleeps (w w' : world) : Prop :=
  exists evs : list event,
    w_log w' = evs ++ w_log w /\ Forall (fun e => is_nanosleep e = true) evs.

(** The value of a finite quotient. *)
Definition fp_value (r : fp) : Q :=
  match r with FpFinite q => q | _ => 0%Q end.

Definition Qsum (l : list Q) : Q := foldr Qplus 0%Q l.

(** The line the report prints for bucket [i]. *)
Definition bucket_row (b : stress_workload_bucket_t) (total : Z) (i : nat)
    : report_row :=
  let c := default 0 (bucket b !! i) in
  let low := double_to_int (fl (inject_Z (Z.of_nat i) * width b)) in
  let next := double_to_int (fl (inject_Z (Z.of_nat i + 1) * width b)) in
  MkRow (wrap64 low) (Some (wrap64 (wrap64 next - 1))) c (percent c total).

(** The start of the range the report prints for bucket [i]:
    [(uint64_t)(i * bucket->width)] before its reduction to 64 bits. *)
Definition line_start (b : stress_workload_bucket_t) (i : Z) : Z :=
  double_to_int (fl (inject_Z i * width b)).

(** * Properties *)

(** ** Machine integers *)

Lemma wrap32_small (z : Z) : 0 <= z < 2 ^ 32 -> wrap32 z = z.
Proof. intros H. unfold wrap32. now apply Z.mod_small. Qed.

Lemma wrap64_small (z : Z) : 0 <= z < 2 ^ 64 -> wrap64 z = z.
Proof. intros H. unfold wrap64. now apply Z.mod_small. Qed.

Lemma wrap64_range (z : Z) : 0 <= wrap64 z < 2 ^ 64.
Proof. unfold wrap64. apply Z.mod_pos_bound. lia. Qed.

(** ** Doubles: the rounding of binary64 *)

Lemma Qpow2_pos (e : Z) : (0 < 2 ^ e)%Q.
Proof. apply Qpower_0_lt. reflexivity. Qed.

Lemma Qpow2_add (a b : Z) : (2 ^ (a + b) == 2 ^ a * 2 ^ b)%Q.
Proof. apply Qpower_plus. discriminate. Qed.

Lemma Qpow2_le (a b : Z) : a <= b -> (2 ^ a <= 2 ^ b)%Q.
Proof. intros H. apply Qpower_le_compat_l; [exact H|discriminate]. Qed.

Lemma Qpow2_lt (a b : Z) : a < b -> (2 ^ a < 2 ^ b)%Q.
Proof. intros H. apply Qpower_lt_compat_l; [exact H|reflexivity]. Qed.

Lemma Qpow2_Z (n : Z) : 0 <= n -> (2 ^ n == inject_Z (2 ^ n))%Q.
Proof. intros H. symmetry. exact (Zpower_Qpower 2 n H). Qed.

(** [x / 2 ^ e] and [x * 2 ^ (- e)] *)
Lemma Qdiv_pow2 (x : Q) (e : Z) : (x / 2 ^ e == x * 2 ^ (- e))%Q.
Proof. unfold Qdiv. now rewrite Qpower_opp. Qed.

Lemma Qpow2_cancel (e : Z) : (2 ^ (- e) * 2 ^ e == 1)%Q.
Proof. rewrite <- Qpow2_add. now replace (- e + e) with 0 by lia. Qed.

Lemma Qlog2_spec (x : Q) :
  (0 < x)%Q -> (2 ^ Qlog2 x <= x)%Q /\ (x < 2 ^ (Qlog2 x + 1))%Q.
Proof.
  intros Hx. destruct x as [n d]. unfold Qlog2. cbn [Qnum Qden].
  assert (Hn : 0 < n) by (unfold Qlt in Hx; simpl in Hx; lia).
  set (a := Z.log2 n). set (b := Z.log2 (Z.pos d)).
  destruct (Z.log2_spec n Hn) as [Ha1 Ha2]. fold a in Ha1, Ha2.
  destruct (Z.log2_spec (Z.pos d) ltac:(lia)) as [Hb1 Hb2].
  fold b in Hb1, Hb2.
  assert (Ha0 : 0 <= a) by apply Z.log2_nonneg.
  assert (Hb0 : 0 <= b) by apply Z.log2_nonneg.
  assert (Hlo : (2 ^ (a - b - 1) < n # d)%Q).
  { replace (a - b - 1) with (a + - (b + 1)) by lia.
    rewrite Qpow2_add, Qpower_opp, !Qpow2_Z by lia.
    apply Qlt_shift_div_r.
    - rewrite <- Qpow2_Z by lia. apply Qpow2_pos.
    - unfold Qlt, Qmult, inject_Z. simpl.
      replace (Z.succ b) with (b + 1) in Hb2 by lia.
      replace (Z.succ a) with (a + 1) in Ha2 by lia.
      nia. }
  assert (Hhi : (n # d < 2 ^ (a - b + 1))%Q).
  { replace (a - b + 1) with ((a + 1) + - b) by lia.
    rewrite Qpow2_add, Qpower_opp, !Qpow2_Z by lia.
    apply Qlt_shift_div_l.
    - rewrite <- Qpow2_Z by lia. apply Qpow2_pos.
    - unfold Qlt, Qmult, inject_Z. simpl.
      replace (Z.succ a) with (a + 1) in Ha2 by lia.
      nia. }
  destruct (Qle_bool (2 ^ (a - b)) (n # d)) eqn:E.
  - apply Qle_bool_iff in E. split; [exact E|exact Hhi].
  - assert (Hlt : (n # d < 2 ^ (a - b))%Q).
    { apply Qnot_le_lt. intros H. apply Qle_bool_iff in H. congruence. }
    split.
    + apply Qlt_le_weak. exact Hlo.
    + now replace (a - b - 1 + 1) with (a - b) by lia.
Qed.

Lemma round_half_even_bounds (x : Q) :
  Qfloor x <= round_half_even x <= Qfloor x + 1.
Proof.
  unfold round_half_even.
  destruct (x - inject_Z (Qfloor x) ?= 1 # 2)%Q; [|lia..].
  destruct (Z.even (Qfloor x)); lia.
Qed.

Lemma round_half_even_Z (z : Z) : round_half_even (inject_Z z) = z.
Proof.
  unfold round_half_even. rewrite Qfloor_Z.
  assert (H : (inject_Z z - inject_Z z < 1 # 2)%Q).
  { setoid_replace (inject_Z z - inject_Z z)%Q with 0%Q
      using relation Qeq by ring.
    reflexivity. }
  destruct (inject_Z z - inject_Z z ?= 1 # 2)%Q eqn:C; [|reflexivity|].
  - apply Qeq_alt in C. rewrite C in H. discriminate.
  - apply Qgt_alt in C. exfalso. exact (Qlt_irrefl _ (Qlt_trans _ _ _ H C)).
Qed.

Lemma round_half_even_mono (x y : Q) :
  (x <= y)%Q -> round_half_even x <= round_half_even y.
Proof.
  intros Hxy. pose proof (Qfloor_resp_le x y Hxy) as Hf.
  pose proof (round_half_even_bounds x) as Bx.
  pose proof (round_half_even_bounds y) as By.
  destruct (Z.eq_dec (Qfloor x) (Qfloor y)) as [E|E]; [|lia].
  unfold round_half_even. rewrite <- E.
  assert (Hr : (x - inject_Z (Qfloor x) <= y - inject_Z (Qfloor x))%Q).
  { apply Qplus_le_l with (z := inject_Z (Qfloor x)). ring_simplify.
    exact Hxy. }
  destruct (x - inject_Z (Qfloor x) ?= 1 # 2)%Q eqn:Cx;
    destruct (y - inject_Z (Qfloor x) ?= 1 # 2)%Q eqn:Cy;
    try (destruct (Z.even (Qfloor x)); lia); try lia.
  - apply Qeq_alt in Cx. apply Qlt_alt in Cy. rewrite Cx in Hr.
    exfalso. exact (Qlt_not_le _ _ Cy Hr).
  - apply Qgt_alt in Cx. apply Qeq_alt in Cy. rewrite Cy in Hr.
    exfalso. exact (Qlt_not_le _ _ Cx Hr).
  - apply Qgt_alt in Cx. apply Qlt_alt in Cy.
    exfalso. apply (Qlt_not_le _ _ Cx). eapply Qle_trans; [exact Hr|].
    now apply Qlt_le_weak.
Qed.

Lemma round_half_even_comp (x y : Q) :
  (x == y)%Q -> round_half_even x = round_half_even y.
Proof.
  intros H. apply Z.le_antisymm; apply round_half_even_mono; rewrite H;
    apply Qle_refl.
Qed.

(** The scale of the last place of [x]. *)
Lemma fl_unfold (x : Q) :
  ~ (x == 0)%Q ->
  fl x = (inject_Z (round_half_even
                      (x / 2 ^ Z.max (Qlog2 (Qabs x) - 52) (-1074)))
          * 2 ^ Z.max (Qlog2 (Qabs x) - 52) (-1074))%Q.
Proof.
  intros H. unfold fl. destruct (Qeq_bool x 0) eqn:E; [|reflexivity].
  apply Qeq_bool_iff in E. contradiction.
Qed.

Lemma fl_zero (x : Q) : (x == 0)%Q -> fl x = 0%Q.
Proof.
  intros H. unfold fl. destruct (Qeq_bool x 0) eqn:E; [reflexivity|].
  apply Qeq_bool_iff in H. congruence.
Qed.

Lemma fl_nonneg (x : Q) : (0 <= x)%Q -> (0 <= fl x)%Q.
Proof.
  intros Hx. unfold fl. destruct (Qeq_bool x 0); [apply Qle_refl|].
  cbv zeta. set (e := Z.max _ _).
  assert (H : 0 <= round_half_even (x / 2 ^ e)).
  { rewrite <- (round_half_even_Z 0).
    apply round_half_even_mono. apply Qle_shift_div_l; [apply Qpow2_pos|].
    now rewrite Qmult_0_l. }
  rewrite Zle_Qle in H.
  apply Qmult_le_0_compat; [exact H|apply Qlt_le_weak, Qpow2_pos].
Qed.

Lemma fl_nonpos (x : Q) : (x <= 0)%Q -> (fl x <= 0)%Q.
Proof.
  intros Hx. unfold fl. destruct (Qeq_bool x 0); [apply Qle_refl|].
  cbv zeta. set (e := Z.max _ _).
  assert (H : round_half_even (x / 2 ^ e) <= 0).
  { rewrite <- (round_half_even_Z 0).
    apply round_half_even_mono. apply Qle_shift_div_r; [apply Qpow2_pos|].
    now rewrite Qmult_0_l. }
  rewrite Zle_Qle in H.
  setoid_replace 0%Q with (0 * 2 ^ e)%Q using relation Qeq by ring.
  apply Qmult_le_compat_r; [exact H|apply Qlt_le_weak, Qpow2_pos].
Qed.

Lemma Qabs_nonneg_eq (x : Q) : (0 <= x)%Q -> Qabs x = x.
Proof.
  destruct x as [n d]. unfold Qle, Qabs. simpl. intros H.
  f_equal. apply Z.abs_eq. lia.
Qed.

(** A double that is not negative: [m * 2 ^ g] with a mantissa of 53 bits
    and an exponent the format has. *)
Lemma scaled_is_Z (m g e : Z) :
  e <= g -> (inject_Z m * 2 ^ g / 2 ^ e == inject_Z (m * 2 ^ (g - e)))%Q.
Proof.
  intros H. rewrite Qdiv_pow2, <- Qmult_assoc, <- Qpow2_add.
  replace (g + - e) with (g - e) by lia.
  rewrite Qpow2_Z by lia. now rewrite inject_Z_mult.
Qed.

Lemma fl_le_double (x : Q) (m g : Z) :
  0 <= m < 2 ^ 53 -> -1074 <= g ->
  (x <= inject_Z m * 2 ^ g)%Q -> (fl x <= inject_Z m * 2 ^ g)%Q.
Proof.
  intros Hm Hg Hx.
  destruct (Qlt_le_dec 0 x) as [Hpos|Hneg].
  2:{ eapply Qle_trans; [now apply fl_nonpos|].
      apply Qmult_le_0_compat; [|apply Qlt_le_weak, Qpow2_pos].
      change 0%Q with (inject_Z 0). rewrite <- Zle_Qle. lia. }
  rewrite fl_unfold by (intros E; rewrite E in Hpos; discriminate).
  rewrite (Qabs_nonneg_eq x) by now apply Qlt_le_weak.
  destruct (Qlog2_spec x Hpos) as [Hlo _].
  set (E := Qlog2 x) in *. set (e := Z.max (E - 52) (-1074)).
  assert (He : e <= g).
  { assert (HE : E < 53 + g).
    { apply (Qpower_lt_compat_l_inv 2); [|reflexivity].
      eapply Qle_lt_trans; [exact Hlo|]. eapply Qle_lt_trans; [exact Hx|].
      rewrite Qpow2_add. apply Qmult_lt_compat_r; [apply Qpow2_pos|].
      rewrite Qpow2_Z by lia. rewrite <- Zlt_Qlt. lia. }
    unfold e. lia. }
  assert (H : round_half_even (x / 2 ^ e) <= m * 2 ^ (g - e)).
  { rewrite <- (round_half_even_Z (m * 2 ^ (g - e))).
    apply round_half_even_mono. rewrite <- scaled_is_Z by exact He.
    apply Qmult_le_compat_r; [exact Hx|].
    apply Qlt_le_weak, Qinv_lt_0_compat, Qpow2_pos. }
  rewrite Zle_Qle in H.
  apply Qmult_le_compat_r with (z := (2 ^ e)%Q) in H;
    [|apply Qlt_le_weak, Qpow2_pos].
  eapply Qle_trans; [exact H|]. apply Qle_lteq. right.
  rewrite <- scaled_is_Z by exact He. field.
  intros E0. pose proof (Qpow2_pos e) as P. rewrite E0 in P. discriminate.
Qed.

Lemma fl_ge_double (x : Q) (m g : Z) :
  0 <= m < 2 ^ 53 -> -1074 <= g ->
  (inject_Z m * 2 ^ g <= x)%Q -> (inject_Z m * 2 ^ g <= fl x)%Q.
Proof.
  intros Hm Hg Hx.
  destruct (Z.eq_dec m 0) as [->|Hm0].
  { rewrite Qmult_0_l in *. now apply fl_nonneg. }
  assert (Hr : (0 < inject_Z m * 2 ^ g)%Q).
  { apply Qmult_lt_0_compat; [|apply Qpow2_pos].
    change 0%Q with (inject_Z 0). rewrite <- Zlt_Qlt. lia. }
  assert (Hpos : (0 < x)%Q) by (eapply Qlt_le_trans; eassumption).
  rewrite fl_unfold by (intros E; rewrite E in Hpos; discriminate).
  rewrite (Qabs_nonneg_eq x) by now apply Qlt_le_weak.
  destruct (Qlog2_spec x Hpos) as [Hlo Hhi].
  set (E := Qlog2 x) in *. set (e := Z.max (E - 52) (-1074)).
  assert (Hpow : forall a : Z,
             e <= a -> (2 ^ a <= x)%Q ->
             (2 ^ a <= inject_Z (round_half_even (x / 2 ^ e)) * 2 ^ e)%Q).
  { intros a Ha Hax.
    assert (H : 1 * 2 ^ (a - e) <= round_half_even (x / 2 ^ e)).
    { rewrite <- (round_half_even_Z (1 * 2 ^ (a - e))).
      apply round_half_even_mono. rewrite <- scaled_is_Z by exact Ha.
      apply Qmult_le_compat_r;
        [now rewrite Qmult_1_l
        |apply Qlt_le_weak, Qinv_lt_0_compat, Qpow2_pos]. }
    rewrite Zle_Qle in H.
    apply Qmult_le_compat_r with (z := (2 ^ e)%Q) in H;
      [|apply Qlt_le_weak, Qpow2_pos].
    eapply Qle_trans; [|exact H]. apply Qle_lteq. right.
    rewrite <- scaled_is_Z by exact Ha. field.
    intros E0. pose proof (Qpow2_pos e) as P. rewrite E0 in P.
    discriminate. }
  destruct (Z_le_gt_dec e g) as [He|He].
  - assert (H : m * 2 ^ (g - e) <= round_half_even (x / 2 ^ e)).
    { rewrite <- (round_half_even_Z (m * 2 ^ (g - e))).
      apply round_half_even_mono. rewrite <- scaled_is_Z by exact He.
      apply Qmult_le_compat_r; [exact Hx|].
      apply Qlt_le_weak, Qinv_lt_0_compat, Qpow2_pos. }
    rewrite Zle_Qle in H.
    apply Qmult_le_compat_r with (z := (2 ^ e)%Q) in H;
      [|apply Qlt_le_weak, Qpow2_pos].
    eapply Qle_trans; [|exact H]. apply Qle_lteq. right.
    rewrite <- scaled_is_Z by exact He. field.
    intros E0. pose proof (Qpow2_pos e) as P. rewrite E0 in P. discriminate.
  - assert (HeE : e = E - 52) by (unfold e in *; lia).
    eapply Qle_trans; [|apply (Hpow E); [lia|exact Hlo]].
    apply Qlt_le_weak.
    apply Qlt_le_trans with (y := (2 ^ (53 + g))%Q).
    + rewrite Qpow2_add. apply Qmult_lt_compat_r; [apply Qpow2_pos|].
      rewrite Qpow2_Z by lia. rewrite <- Zlt_Qlt. lia.
    + apply Qpow2_le. lia.
Qed.

Lemma fl_double (m g : Z) :
  0 <= m < 2 ^ 53 -> -1074 <= g ->
  (fl (inject_Z m * 2 ^ g) == inject_Z m * 2 ^ g)%Q.
Proof.
  intros Hm Hg. apply Qle_antisym.
  - apply fl_le_double; [exact Hm|exact Hg|apply Qle_refl].
  - apply fl_ge_double; [exact Hm|exact Hg|apply Qle_refl].
Qed.


Lemma fl_mono (x y : Q) : (0 <= x)%Q -> (x <= y)%Q -> (fl x <= fl y)%Q.
Proof.
  intros Hx0 Hxy.
  destruct (Qlt_le_dec 0 x) as [Hx|Hx].
  2:{ rewrite (fl_zero x) by (apply Qle_antisym; assumption).
      apply fl_nonneg. now apply Qle_trans with x. }
  assert (Hy : (0 < y)%Q) by (eapply Qlt_le_trans; eassumption).
  destruct (Qlog2_spec x Hx) as [Hxlo Hxhi].
  destruct (Qlog2_spec y Hy) as [Hylo Hyhi].
  assert (HE : Qlog2 x <= Qlog2 y).
  { assert (Qlog2 x < Qlog2 y + 1); [|lia].
    apply (Qpower_lt_compat_l_inv 2); [|reflexivity].
    eapply Qle_lt_trans; [exact Hxlo|].
    eapply Qle_lt_trans; [exact Hxy|exact Hyhi]. }
  destruct (Z.eq_dec (Z.max (Qlog2 x - 52) (-1074))
              (Z.max (Qlog2 y - 52) (-1074))) as [He|He].
  - rewrite !fl_unfold
      by (intros E; first [rewrite E in Hx|rewrite E in Hy]; discriminate).
    rewrite !Qabs_nonneg_eq by now apply Qlt_le_weak.
    rewrite He. set (e := Z.max (Qlog2 y - 52) (-1074)).
    apply Qmult_le_compat_r; [|apply Qlt_le_weak, Qpow2_pos].
    rewrite <- Zle_Qle. apply round_half_even_mono.
    apply Qmult_le_compat_r; [exact Hxy|].
    apply Qlt_le_weak, Qinv_lt_0_compat, Qpow2_pos.
  - set (a := Z.max (Qlog2 x + 1) (-1074)).
    apply Qle_trans with (y := (inject_Z 1 * 2 ^ a)%Q).
    + apply fl_le_double; [lia|unfold a; lia|].
      rewrite Qmult_1_l. apply Qlt_le_weak.
      eapply Qlt_le_trans; [exact Hxhi|]. apply Qpow2_le. unfold a. lia.
    + apply Qle_trans with (y := (inject_Z 1 * 2 ^ Qlog2 y)%Q).
      * rewrite !Qmult_1_l. apply Qpow2_le. unfold a. lia.
      * apply fl_ge_double; [lia|lia|]. now rewrite Qmult_1_l.
Qed.

Lemma Qlog2_unique (x : Q) (E : Z) :
  (2 ^ E <= x)%Q -> (x < 2 ^ (E + 1))%Q -> Qlog2 x = E.
Proof.
  intros Hlo Hhi.
  assert (Hx : (0 < x)%Q) by (eapply Qlt_le_trans; [apply Qpow2_pos|exact Hlo]).
  destruct (Qlog2_spec x Hx) as [Hlo' Hhi'].
  assert (Qlog2 x < E + 1).
  { apply (Qpower_lt_compat_l_inv 2); [|reflexivity].
    eapply Qle_lt_trans; [exact Hlo'|exact Hhi]. }
  assert (E < Qlog2 x + 1).
  { apply (Qpower_lt_compat_l_inv 2); [|reflexivity].
    eapply Qle_lt_trans; [exact Hlo|exact Hhi']. }
  lia.
Qed.

Lemma fl_comp (x y : Q) : (x == y)%Q -> fl x = fl y.
Proof.
  intros H. unfold fl.
  assert (E0 : Qeq_bool x 0 = Qeq_bool y 0).
  { destruct (Qeq_bool x 0) eqn:Ex; destruct (Qeq_bool y 0) eqn:Ey;
      try reflexivity.
    - apply Qeq_bool_iff in Ex. rewrite H in Ex. apply Qeq_bool_iff in Ex.
      congruence.
    - apply Qeq_bool_iff in Ey. rewrite <- H in Ey. apply Qeq_bool_iff in Ey.
      congruence. }
  rewrite <- E0. destruct (Qeq_bool x 0) eqn:Ex; [reflexivity|].
  assert (Hx : ~ (x == 0)%Q) by (intros C; apply Qeq_bool_iff in C; congruence).
  assert (Ha : (0 < Qabs x)%Q).
  { apply Qabs_case; intros Hc.
    - destruct (Qle_lt_or_eq _ _ Hc) as [P|P]; [exact P|].
      exfalso. apply Hx. now symmetry.
    - destruct (Qle_lt_or_eq _ _ Hc) as [P|P]; [|contradiction].
      apply Qopp_lt_compat in P. exact P. }
  destruct (Qlog2_spec (Qabs x) Ha) as [Hlo Hhi].
  assert (El : Qlog2 (Qabs y) = Qlog2 (Qabs x)).
  { apply Qlog2_unique; rewrite <- H; assumption. }
  cbv zeta. rewrite El. set (e := Z.max _ _).
  f_equal. f_equal. apply round_half_even_comp. now rewrite H.
Qed.

#[global] Instance fl_Proper : Proper (Qeq ==> Qeq) fl.
Proof. intros x y H. now rewrite (fl_comp x y H). Qed.

(** Integers of 53 bits are doubles. *)
Lemma fl_Z (z : Z) : 0 <= z < 2 ^ 53 -> (fl (inject_Z z) == inject_Z z)%Q.
Proof.
  intros Hz. pose proof (fl_double z 0 Hz ltac:(lia)) as H.
  change (2 ^ 0)%Q with 1%Q in H. now rewrite !Qmult_1_r in H.
Qed.

(** [fl] against the binary64 arithmetic of the Rocq library: the two
    agree on quotients, products, sums and differences of the examples
    of this file and on a subnormal quotient, and on the conversion of
    integers that are not doubles (a tie to the even neighbour
    included). *)
Lemma fl_agrees_with_binary64 :
  let third := b64_div (b64_of_Z 1) (b64_of_Z 3) in
  let tenth := b64_div (b64_of_Z 1) (b64_of_Z 10) in
  let tiny := b64_div (b64_of_Z 1) (b64_of_Z (2 ^ 1000)) in
  let width1002 := b64_div (b64_of_Z 1002) (b64_of_Z 20) in
  let width164 := b64_div (b64_of_Z 164) (b64_of_Z 20) in
  (SF2Q third == fl (1 / 3))%Q
  /\ (SF2Q (b64_mul third tenth) == fl (fl (1 / 3) * fl (1 / 10)))%Q
  /\ (SF2Q (b64_add third tenth) == fl (fl (1 / 3) + fl (1 / 10)))%Q
  /\ (SF2Q (b64_sub tenth third) == fl (fl (1 / 10) - fl (1 / 3)))%Q
  /\ (SF2Q (b64_div tiny (b64_of_Z (3 * 2 ^ 70)))
      == fl (fl (1 / inject_Z (2 ^ 1000)) / inject_Z (3 * 2 ^ 70)))%Q
  /\ (SF2Q (b64_of_Z (2 ^ 53 + 1)) == fl (inject_Z (2 ^ 53 + 1)))%Q
  /\ (SF2Q (b64_of_Z (2 ^ 53 + 3)) == fl (inject_Z (2 ^ 53 + 3)))%Q
  /\ (SF2Q width1002 == fl (1002 / 20))%Q
  /\ (SF2Q (b64_div (b64_of_Z 1002) width1002)
      == fl (1002 / fl (1002 / 20)))%Q
  /\ (SF2Q (b64_mul (b64_of_Z 15) width164) == fl (15 * fl (164 / 20)))%Q
  /\ (SF2Q (b64_add (b64_of_Z 1761840000)
              (b64_div (b64_of_Z 1) (b64_of_Z 100000000)))
      == fl (1761840000 + fl (1 / 100000000)))%Q.
Proof.
  intros third tenth tiny width1002 width164.
  repeat split; vm_compute; reflexivity.
Qed.

Lemma fl_le_Z (x : Q) (z : Z) :
  0 <= z < 2 ^ 53 -> (x <= inject_Z z)%Q -> (fl x <= inject_Z z)%Q.
Proof.
  intros Hz Hx. pose proof (fl_le_double x z 0 Hz ltac:(lia)) as H.
  change (2 ^ 0)%Q with 1%Q in H. rewrite !Qmult_1_r in H. now apply H.
Qed.

Lemma fl_ge_Z (x : Q) (z : Z) :
  0 <= z < 2 ^ 53 -> (inject_Z z <= x)%Q -> (inject_Z z <= fl x)%Q.
Proof.
  intros Hz Hx. pose proof (fl_ge_double x z 0 Hz ltac:(lia)) as H.
  change (2 ^ 0)%Q with 1%Q in H. rewrite !Qmult_1_r in H. now apply H.
Qed.

(** ** The generator *)

Lemma stress_mwc32modn_range (max : Z) (g : mwc_t) :
  0 <= max -> mwc_range max (fst (stress_mwc32modn max g)).
Proof.
  intros Hmax. unfold stress_mwc32modn, mwc_range.
  destruct (Z.eqb_spec max 0) as [->|Hne]; simpl.
  - left. split; reflexivity.
  - right. apply Z.mod_pos_bound. lia.
Qed.

Lemma mwc_range_bounds (max x : Z) :
  0 <= max -> mwc_range max x -> 0 <= x <= max.
Proof. unfold mwc_range. lia. Qed.

(** ** The sampler *)

Lemma valid_config_range (slice_us quanta_us : Z) :
  valid_config slice_us quanta_us ->
  wrap32 (slice_us - quanta_us) = slice_us - quanta_us
  /\ 0 <= slice_us - quanta_us < 10000000.
Proof.
  unfold valid_config. intros (H1 & H2 & H3).
  split; [apply wrap32_small|]; lia.
Qed.

Lemma random1_when_range (slice_us quanta_us : Z) (g : mwc_t) :
  valid_config slice_us quanta_us ->
  mwc_range (slice_us - quanta_us) (fst (random1_when slice_us quanta_us g)).
Proof.
  intros Hv. destruct (valid_config_range _ _ Hv) as [Hw Hr].
  unfold random1_when. rewrite Hw. apply stress_mwc32modn_range. lia.
Qed.

Lemma random2_when_exact (slice_us quanta_us : Z) (g : mwc_t) :
  valid_config slice_us quanta_us ->
  random2_when slice_us quanta_us g = random2_exact slice_us quanta_us g.
Proof.
  intros Hv. destruct (valid_config_range _ _ Hv) as [Hw Hr].
  unfold random2_when, random2_exact. rewrite Hw.
  pose proof (stress_mwc32modn_range (slice_us - quanta_us) g) as R1.
  destruct (stress_mwc32modn (slice_us - quanta_us) g) as [d1 g1].
  pose proof (stress_mwc32modn_range (slice_us - quanta_us) g1) as R2.
  destruct (stress_mwc32modn (slice_us - quanta_us) g1) as [d2 g2].
  simpl in R1, R2. unfold mwc_range in R1, R2.
  rewrite wrap32_small; [reflexivity|lia].
Qed.

Lemma random3_when_exact (slice_us quanta_us : Z) (g : mwc_t) :
  valid_config slice_us quanta_us ->
  random3_when slice_us quanta_us g = random3_exact slice_us quanta_us g.
Proof.
  intros Hv. destruct (valid_config_range _ _ Hv) as [Hw Hr].
  unfold random3_when, random3_exact. rewrite Hw.
  pose proof (stress_mwc32modn_range (slice_us - quanta_us) g) as R1.
  destruct (stress_mwc32modn (slice_us - quanta_us) g) as [d1 g1].
  pose proof (stress_mwc32modn_range (slice_us - quanta_us) g1) as R2.
  destruct (stress_mwc32modn (slice_us - quanta_us) g1) as [d2 g2].
  pose proof (stress_mwc32modn_range (slice_us - quanta_us) g2) as R3.
  destruct (stress_mwc32modn (slice_us - quanta_us) g2) as [d3 g3].
  simpl in R1, R2, R3. unfold mwc_range in R1, R2, R3.
  rewrite (wrap32_small (d1 + d2)) by lia.
  rewrite wrap32_small; [reflexivity|lia].
Qed.

Lemma draw_sums_bound (slice_us quanta_us : Z) (g : mwc_t) :
  valid_config slice_us quanta_us ->
  0 <= fst (draw_sums slice_us quanta_us g) < 2 ^ 32
  /\ 0 <= snd (draw_sums slice_us quanta_us g) < 2 ^ 32.
Proof.
  intros Hv. destruct (valid_config_range _ _ Hv) as [Hw Hr].
  unfold draw_sums.
  pose proof (stress_mwc32modn_range (slice_us - quanta_us) g) as R1.
  destruct (stress_mwc32modn (slice_us - quanta_us) g) as [d1 g1].
  pose proof (stress_mwc32modn_range (slice_us - quanta_us) g1) as R2.
  destruct (stress_mwc32modn (slice_us - quanta_us) g1) as [d2 g2].
  pose proof (stress_mwc32modn_range (slice_us - quanta_us) g2) as R3.
  destruct (stress_mwc32modn (slice_us - quanta_us) g2) as [d3 g3].
  simpl in *. unfold mwc_range in R1, R2, R3. lia.
Qed.

Lemma random2_when_range (slice_us quanta_us : Z) (g : mwc_t) :
  valid_config slice_us quanta_us ->
  mwc_range (slice_us - quanta_us) (fst (random2_when slice_us quanta_us g)).
Proof.
  intros Hv. rewrite random2_when_exact by assumption.
  destruct (valid_config_range _ _ Hv) as [Hw Hr].
  unfold random2_exact.
  pose proof (stress_mwc32modn_range (slice_us - quanta_us) g ltac:(lia)) as R1.
  destruct (stress_mwc32modn (slice_us - quanta_us) g) as [d1 g1].
  pose proof (stress_mwc32modn_range (slice_us - quanta_us) g1 ltac:(lia))
    as R2.
  destruct (stress_mwc32modn (slice_us - quanta_us) g1) as [d2 g2].
  simpl in *. unfold mwc_range in *.
  destruct (Z.eq_dec (slice_us - quanta_us) 0) as [E|NE].
  - left. split; [assumption|].
    replace d1 with 0 by lia. replace d2 with 0 by lia. reflexivity.
  - right. split.
    + apply Z.div_pos; lia.
    + apply Z.div_lt_upper_bound; lia.
Qed.

Lemma random3_when_range (slice_us quanta_us : Z) (g : mwc_t) :
  valid_config slice_us quanta_us ->
  mwc_range (slice_us - quanta_us) (fst (random3_when slice_us quanta_us g)).
Proof.
  intros Hv. rewrite random3_when_exact by assumption.
  destruct (valid_config_range _ _ Hv) as [Hw Hr].
  unfold random3_exact.
  pose proof (stress_mwc32modn_range (slice_us - quanta_us) g ltac:(lia)) as R1.
  destruct (stress_mwc32modn (slice_us - quanta_us) g) as [d1 g1].
  pose proof (stress_mwc32modn_range (slice_us - quanta_us) g1 ltac:(lia))
    as R2.
  destruct (stress_mwc32modn (slice_us - quanta_us) g1) as [d2 g2].
  pose proof (stress_mwc32modn_range (slice_us - quanta_us) g2 ltac:(lia))
    as R3.
  destruct (stress_mwc32modn (slice_us - quanta_us) g2) as [d3 g3].
  simpl in *. unfold mwc_range in *.
  destruct (Z.eq_dec (slice_us - quanta_us) 0) as [E|NE].
  - left. split; [assumption|].
    replace d1 with 0 by lia. replace d2 with 0 by lia.
    replace d3 with 0 by lia. reflexivity.
  - right. split.
    + apply Z.div_pos; lia.
    + apply Z.div_lt_upper_bound; lia.
Qed.

(** Every cell a fill loop writes holds a draw; the cells before and
    after the ones it writes are left as they were. *)
Lemma fill_loop_spec (draw : mwc_t -> Z * mwc_t) (count : nat) :
  forall (pre suf : list stress_workload_t) (g : mwc_t),
    (count <= length suf)%nat ->
    exists vs : list stress_workload_t,
      fst (fill_loop draw count (length pre) (pre ++ suf) g)
      = pre ++ vs ++ drop count suf
      /\ length vs = count
      /\ Forall (fun q => exists g0, when_us q = fst (draw g0)) vs.
Proof.
  induction count as [|count IH]; intros pre suf g Hlen; simpl.
  - exists []. rewrite drop_0.
    split; [reflexivity|split; [reflexivity|constructor]].
  - destruct suf as [|x suf]; [simpl in Hlen; lia|].
    destruct (draw g) as [v g'] eqn:Ed.
    assert (Hins : <[length pre := MkWorkload v]> (pre ++ x :: suf)
                   = (pre ++ [MkWorkload v]) ++ suf).
    { rewrite insert_app_r_alt by lia. rewrite Nat.sub_diag. simpl.
      rewrite <- app_assoc. reflexivity. }
    rewrite Hins.
    replace (S (length pre)) with (length (pre ++ [MkWorkload v]))
      by (rewrite length_app; simpl; lia).
    destruct (IH (pre ++ [MkWorkload v]) suf g') as (vs & E1 & E2 & E3).
    { simpl in Hlen. lia. }
    exists (MkWorkload v :: vs). rewrite E1. split; [|split].
    + rewrite <- app_assoc. reflexivity.
    + simpl. now rewrite E2.
    + constructor; [|assumption]. exists g. now rewrite Ed.
Qed.

Lemma fill_loop_ext (draw1 draw2 : mwc_t -> Z * mwc_t) :
  (forall g, draw1 g = draw2 g) ->
  forall (count i : nat) (workload : list stress_workload_t) (g : mwc_t),
    fill_loop draw1 count i workload g = fill_loop draw2 count i workload g.
Proof.
  intros Heq. induction count as [|count IH]; intros i workload g; simpl.
  - reflexivity.
  - rewrite Heq. destruct (draw2 g) as [v g']. apply IH.
Qed.

(** A loop over the whole array overwrites every cell. *)
Lemma fill_loop_whole (draw : mwc_t -> Z * mwc_t)
    (workload : list stress_workload_t) (g : mwc_t) :
  Forall (fun q => exists g0, when_us q = fst (draw g0))
         (fst (fill_loop draw (length workload) 0 workload g))
  /\ length (fst (fill_loop draw (length workload) 0 workload g))
     = length workload.
Proof.
  destruct (fill_loop_spec draw (length workload) [] workload g)
    as (vs & E1 & E2 & E3); [lia|].
  simpl in E1. rewrite E1, drop_all, app_nil_r. now split.
Qed.

Lemma burst_count_bound (n : Z) :
  0 <= n <= 10000000 ->
  wrap32 (n * 2) / 3 = n * 2 / 3 /\ 0 <= n * 2 / 3 <= n.
Proof.
  intros Hn. rewrite wrap32_small by lia. split; [reflexivity|].
  split.
  - apply Z.div_pos; lia.
  - apply Z.div_le_upper_bound; lia.
Qed.

Lemma fill_loop_draws (draw : mwc_t -> Z * mwc_t) (count : nat) :
  forall (pre suf : list stress_workload_t) (g : mwc_t),
    (count <= length suf)%nat ->
    fill_loop draw count (length pre) (pre ++ suf) g
    = (pre ++ fst (draws draw count g) ++ drop count suf,
       snd (draws draw count g)).
Proof.
  induction count as [|count IH]; intros pre suf g Hlen; simpl.
  - now rewrite drop_0.
  - destruct suf as [|x suf]; [simpl in Hlen; lia|].
    destruct (draw g) as [v g'] eqn:Ed.
    rewrite insert_app_r_alt by lia. rewrite Nat.sub_diag. simpl.
    replace (pre ++ MkWorkload v :: suf) with ((pre ++ [MkWorkload v]) ++ suf)
      by (rewrite <- app_assoc; reflexivity).
    replace (S (length pre)) with (length (pre ++ [MkWorkload v]))
      by (rewrite length_app; simpl; lia).
    rewrite IH by (simpl in Hlen; lia).
    destruct (draws draw count g') as [vs g'']. simpl.
    now rewrite <- app_assoc.
Qed.

Lemma draws_length (draw : mwc_t -> Z * mwc_t) (count : nat) :
  forall g : mwc_t, length (fst (draws draw count g)) = count.
Proof.
  induction count as [|count IH]; intros g; simpl; [reflexivity|].
  destruct (draw g) as [v g']. specialize (IH g').
  destruct (draws draw count g') as [vs g'']. simpl in *. now rewrite IH.
Qed.

Lemma fill_loop_draws_0 (draw : mwc_t -> Z * mwc_t) (count : nat)
    (workload : list stress_workload_t) (g : mwc_t) :
  (count <= length workload)%nat ->
  fill_loop draw count 0 workload g
  = (fst (draws draw count g) ++ drop count workload,
     snd (draws draw count g)).
Proof. intros H. exact (fill_loop_draws draw count [] workload g H). Qed.

Lemma fill_loop_whole_draws (draw : mwc_t -> Z * mwc_t)
    (workload : list stress_workload_t) (g : mwc_t) :
  fill_loop draw (length workload) 0 workload g
  = draws draw (length workload) g.
Proof.
  rewrite fill_loop_draws_0 by lia.
  rewrite drop_all, app_nil_r. now destruct (draws _ _ _).
Qed.

(** The Cluster sampler: a burst of [n * 2 / 3] quanta placed after one
    draw [offset0], then single draws for the rest. *)
Lemma stress_workload_fill_cluster (slice_us quanta_us n : Z)
    (workload : list stress_workload_t) (g : mwc_t) :
  0 <= n <= 10000000 ->
  length workload = Z.to_nat n ->
  exists burst noise : list stress_workload_t,
    fst (stress_workload_fill STRESS_WORKLOAD_DIST_CLUSTER slice_us quanta_us
           n workload g) = burst ++ noise
    /\ length burst = Z.to_nat (n * 2 / 3)
    /\ length noise = (Z.to_nat n - Z.to_nat (n * 2 / 3))%nat
    /\ Forall (fun q => exists g0,
                 when_us q
                 = fst (cluster_when quanta_us
                          (fst (stress_mwc32modn (slice_us / 2) g)) g0)) burst
    /\ Forall (fun q => exists g0,
                 when_us q = fst (random1_when slice_us quanta_us g0)) noise.
Proof.
  intros Hn Hlen. destruct (burst_count_bound n Hn) as [Hb Hb'].
  unfold stress_workload_fill. simpl.
  destruct (stress_mwc32modn (slice_us / 2) g) as [offset g0]. simpl.
  rewrite Hb. unfold trips. rewrite Nat.sub_0_r.
  destruct (fill_loop_spec (cluster_when quanta_us offset)
              (Z.to_nat (n * 2 / 3)) [] workload g0)
    as (burst & E1 & E2 & E3); [lia|].
  simpl in E1.
  destruct (fill_loop (cluster_when quanta_us offset) (Z.to_nat (n * 2 / 3))
              0 workload g0) as [workload1 g1].
  simpl in E1. subst workload1.
  destruct (fill_loop_spec (random1_when slice_us quanta_us)
              (Z.to_nat n - Z.to_nat (n * 2 / 3)) burst
              (drop (Z.to_nat (n * 2 / 3)) workload) g1)
    as (noise & F1 & F2 & F3).
  { rewrite length_drop. lia. }
  rewrite E2 in F1.
  exists burst, noise. rewrite F1.
  split; [|split; [|split; [|split]]]; try assumption.
  rewrite (drop_ge (drop _ workload)), app_nil_r; [reflexivity|].
  rewrite length_drop. lia.
Qed.

Lemma cluster_when_range (slice_us quanta_us : Z) (g g0 : mwc_t) :
  valid_config slice_us quanta_us ->
  let offset0 := fst (stress_mwc32modn (slice_us / 2) g) in
  offset0 <= fst (cluster_when quanta_us offset0 g0) < offset0 + quanta_us.
Proof.
  intros (H1 & H2 & H3) offset0.
  assert (Hhalf : 0 <= slice_us / 2 <= 5000000).
  { split; [apply Z.div_pos; lia|apply Z.div_le_upper_bound; lia]. }
  pose proof (stress_mwc32modn_range (slice_us / 2) g ltac:(lia)) as R0.
  apply mwc_range_bounds in R0; [|lia]. fold offset0 in R0.
  unfold cluster_when.
  pose proof (stress_mwc32modn_range quanta_us g0 ltac:(lia)) as R1.
  destruct (stress_mwc32modn quanta_us g0) as [d g1]. simpl in *.
  unfold mwc_range in R1. rewrite wrap32_small; lia.
Qed.

(** C10: under the validated ranges the sum of the two draws of Random2
    and of the three draws of Random3 stays below [2 ^ 32], so the offset
    stored in the array is the floored mean of the draws in exact
    arithmetic: the 32 bit addition never wraps. *)
Theorem sampler_mean_no_wraparound (slice_us quanta_us n : Z)
    (workload : list stress_workload_t) (g : mwc_t) :
  valid_config slice_us quanta_us ->
  (0 <= fst (draw_sums slice_us quanta_us g) < 2 ^ 32
   /\ 0 <= snd (draw_sums slice_us quanta_us g) < 2 ^ 32)
  /\ random2_when slice_us quanta_us g = random2_exact slice_us quanta_us g
  /\ random3_when slice_us quanta_us g = random3_exact slice_us quanta_us g
  /\ stress_workload_fill STRESS_WORKLOAD_DIST_RANDOM2 slice_us quanta_us n
       workload g
     = fill_loop (random2_exact slice_us quanta_us) (trips 0 n) 0 workload g
  /\ stress_workload_fill STRESS_WORKLOAD_DIST_RANDOM3 slice_us quanta_us n
       workload g
     = fill_loop (random3_exact slice_us quanta_us) (trips 0 n) 0 workload g.
Proof.
  intros Hv. split; [now apply draw_sums_bound|].
  split; [now apply random2_when_exact|].
  split; [now apply random3_when_exact|].
  split; unfold stress_workload_fill; simpl; apply fill_loop_ext; intros g0.
  - now apply random2_when_exact.
  - now apply random3_when_exact.
Qed.

Lemma sampler_mean_no_wraparound_witness :
  valid_config 100000 1000
  /\ random3_when 100000 1000 example_tape
     = random3_exact 100000 1000 example_tape.
Proof.
  assert (Hv : valid_config 100000 1000) by (unfold valid_config; lia).
  split; [exact Hv|].
  exact (proj1 (proj2 (proj2
           (sampler_mean_no_wraparound 100000 1000 100
              (replicate 100 (MkWorkload 0)) example_tape Hv)))).
Defined.

(** C1, as stated, fails for Cluster: with [slice_us = 100],
    [quanta_us = 50] (two quanta, one of them in the burst) and draws of
    49, the first offset is 98, outside [[0, 50)]. *)
Lemma sampler_offsets_range_counterexample :
  valid_config 100 50
  /\ quanta_count 100 50 = 2
  /\ fst (stress_workload_fill STRESS_WORKLOAD_DIST_CLUSTER 100 50 2
            (replicate 2 (MkWorkload 0)) (MkMwc (fun _ => 49) 0))
     = [MkWorkload 98; MkWorkload 49]
  /\ ~ Forall (offset_in_range 100 50)
         (fst (stress_workload_fill STRESS_WORKLOAD_DIST_CLUSTER 100 50 2
                 (replicate 2 (MkWorkload 0)) (MkMwc (fun _ => 49) 0))).
Proof.
  split; [unfold valid_config; lia|].
  split; [reflexivity|].
  split; [reflexivity|].
  intros H.
  change (Forall (offset_in_range 100 50) [MkWorkload 98; MkWorkload 49]) in H.
  apply Forall_inv in H.
  unfold offset_in_range, mwc_range in H. simpl in H. lia.
Qed.

(** C1, amended: for a valid configuration every offset of Random1,
    Random2 and Random3, and every offset of Cluster after its first
    [n * 2 / 3], lies in [[0, slice_us - quanta_us)] or is 0 when that
    range is empty; the first [n * 2 / 3] offsets of Cluster lie in
    [[0, slice_us / 2 + quanta_us)]. *)
Theorem sampler_offsets_range (workload_dist slice_us quanta_us n : Z)
    (workload : list stress_workload_t) (g : mwc_t) :
  valid_config slice_us quanta_us ->
  0 <= n <= 10000000 ->
  length workload = Z.to_nat n ->
  let offsets :=
    fst (stress_workload_fill workload_dist slice_us quanta_us n workload g) in
  (workload_dist = STRESS_WORKLOAD_DIST_RANDOM1
   \/ workload_dist = STRESS_WORKLOAD_DIST_RANDOM2
   \/ workload_dist = STRESS_WORKLOAD_DIST_RANDOM3 ->
   Forall (offset_in_range slice_us quanta_us) offsets)
  /\ (workload_dist = STRESS_WORKLOAD_DIST_CLUSTER ->
      Forall (fun q => 0 <= when_us q < slice_us / 2 + quanta_us)
             (take (Z.to_nat (n * 2 / 3)) offsets)
      /\ Forall (offset_in_range slice_us quanta_us)
                (drop (Z.to_nat (n * 2 / 3)) offsets)).
Proof.
  intros Hv Hn Hlen offsets. subst offsets. split.
  - intros Hd.
    assert (Ht : trips 0 n = length workload)
      by (unfold trips; lia).
    unfold stress_workload_fill.
    destruct Hd as [->|[->| ->]]; simpl; rewrite Ht;
      (eapply Forall_impl; [apply fill_loop_whole|]);
      intros q [g0 Hq]; unfold offset_in_range; rewrite Hq.
    + now apply random1_when_range.
    + now apply random2_when_range.
    + now apply random3_when_range.
  - intros ->.
    destruct (stress_workload_fill_cluster slice_us quanta_us n workload g
                Hn Hlen) as (burst & noise & E & Lb & Ln & Fb & Fn).
    rewrite E, <- Lb, take_app_length, drop_app_length. split.
    + eapply Forall_impl; [exact Fb|]. intros q [g0 Hq]. rewrite Hq.
      pose proof (cluster_when_range slice_us quanta_us g g0 Hv) as Hr.
      simpl in Hr. destruct Hv as (H1 & H2 & H3).
      assert (Hhalf : 0 <= slice_us / 2) by (apply Z.div_pos; lia).
      pose proof (stress_mwc32modn_range (slice_us / 2) g Hhalf) as R0.
      apply mwc_range_bounds in R0; lia.
    + eapply Forall_impl; [exact Fn|]. intros q [g0 Hq].
      unfold offset_in_range. rewrite Hq. now apply random1_when_range.
Qed.

Lemma sampler_offsets_range_witness :
  valid_config 100 50
  /\ Forall (fun q => 0 <= when_us q < 100 / 2 + 50)
       (take (Z.to_nat (2 * 2 / 3))
          (fst (stress_workload_fill STRESS_WORKLOAD_DIST_CLUSTER 100 50 2
                  (replicate 2 (MkWorkload 0)) (MkMwc (fun _ => 49) 0)))).
Proof.
  assert (Hv : valid_config 100 50) by (unfold valid_config; lia).
  split; [exact Hv|].
  refine (proj1 (proj2
            (sampler_offsets_range STRESS_WORKLOAD_DIST_CLUSTER 100 50 2
               (replicate 2 (MkWorkload 0)) (MkMwc (fun _ => 49) 0)
               Hv _ _) _)).
  - lia.
  - reflexivity.
  - reflexivity.
Defined.

Lemma draws_ext (draw1 draw2 : mwc_t -> Z * mwc_t) :
  (forall g, draw1 g = draw2 g) ->
  forall (count : nat) (g : mwc_t), draws draw1 count g = draws draw2 count g.
Proof.
  intros Heq. induction count as [|count IH]; intros g; simpl.
  - reflexivity.
  - rewrite Heq. destruct (draw2 g) as [v g']. now rewrite IH.
Qed.

Lemma draws_Forall (draw : mwc_t -> Z * mwc_t) (P : Z -> Prop) :
  (forall g, P (fst (draw g))) ->
  forall (count : nat) (g : mwc_t),
    Forall (fun q => P (when_us q)) (fst (draws draw count g)).
Proof.
  intros HP. induction count as [|count IH]; intros g; simpl.
  - constructor.
  - pose proof (HP g) as Hg. destruct (draw g) as [v g'].
    specialize (IH g'). destruct (draws draw count g') as [vs g''].
    simpl in *. now constructor.
Qed.

(** The array Cluster fills, draw by draw: the burst after [offset0],
    then the single draws. *)
Lemma stress_workload_fill_cluster_draws (slice_us quanta_us n : Z)
    (workload : list stress_workload_t) (g : mwc_t) :
  valid_config slice_us quanta_us ->
  0 <= n <= 10000000 ->
  length workload = Z.to_nat n ->
  let offset0 := fst (stress_mwc32modn (slice_us / 2) g) in
  let g0 := snd (stress_mwc32modn (slice_us / 2) g) in
  let burst := draws (burst_draw quanta_us offset0)
                 (Z.to_nat (n * 2 / 3)) g0 in
  let noise := draws (stress_mwc32modn (slice_us - quanta_us))
                 (Z.to_nat n - Z.to_nat (n * 2 / 3)) (snd burst) in
  stress_workload_fill STRESS_WORKLOAD_DIST_CLUSTER slice_us quanta_us n
    workload g
  = (fst burst ++ fst noise, snd noise).
Proof.
  intros Hv Hn Hlen offset0 g0 burst noise.
  destruct (burst_count_bound n Hn) as [Hb Hb'].
  destruct (valid_config_range _ _ Hv) as [Hw Hr].
  assert (Hhalf : 0 <= slice_us / 2 <= 5000000).
  { destruct Hv as (H1 & H2 & H3).
    split; [apply Z.div_pos; lia|apply Z.div_le_upper_bound; lia]. }
  pose proof (stress_mwc32modn_range (slice_us / 2) g ltac:(lia)) as R0.
  apply mwc_range_bounds in R0; [|lia]. fold offset0 in R0.
  assert (Eb : forall g1, cluster_when quanta_us offset0 g1
                          = burst_draw quanta_us offset0 g1).
  { intros g1. unfold cluster_when, burst_draw.
    pose proof (stress_mwc32modn_range quanta_us g1
                  ltac:(destruct Hv; lia)) as R1.
    destruct (stress_mwc32modn quanta_us g1) as [d g2]. simpl in R1.
    apply mwc_range_bounds in R1; [|destruct Hv; lia].
    destruct Hv as (H1 & H2 & H3).
    rewrite wrap32_small by lia. f_equal. lia. }
  assert (En : forall g1, random1_when slice_us quanta_us g1
                          = stress_mwc32modn (slice_us - quanta_us) g1).
  { intros g1. unfold random1_when. now rewrite Hw. }
  unfold stress_workload_fill. simpl.
  subst burst noise. subst offset0 g0.
  destruct (stress_mwc32modn (slice_us / 2) g) as [offset g0].
  cbn [fst snd] in *.
  rewrite Hb. unfold trips. rewrite Nat.sub_0_r.
  rewrite fill_loop_draws_0 by lia.
  rewrite (draws_ext _ _ Eb (Z.to_nat (n * 2 / 3)) g0).
  pose proof (draws_length (burst_draw quanta_us offset)
                (Z.to_nat (n * 2 / 3)) g0) as Hlb.
  destruct (draws (burst_draw quanta_us offset) (Z.to_nat (n * 2 / 3)) g0)
    as [burst g1]. simpl in Hlb |- *.
  pose proof (fill_loop_draws (random1_when slice_us quanta_us)
                (Z.to_nat n - Z.to_nat (n * 2 / 3)) burst
                (drop (Z.to_nat (n * 2 / 3)) workload) g1) as E.
  rewrite Hlb in E. rewrite E by (rewrite length_drop; lia).
  rewrite (drop_ge (drop _ workload)) by (rewrite length_drop; lia).
  rewrite app_nil_r, (draws_ext _ _ En). reflexivity.
Qed.

Lemma filter_all {A : Type} (f : A -> bool) (l : list A) :
  Forall (fun x => f x = true) l -> List.filter f l = l.
Proof.
  induction 1 as [|x l Hx _ IH]; simpl; [reflexivity|].
  now rewrite Hx, IH.
Qed.

Lemma filter_length_le {A : Type} (f : A -> bool) (l : list A) :
  (length (List.filter f l) <= length l)%nat.
Proof.
  induction l as [|x l IH]; simpl; [lia|]. destruct (f x); simpl; lia.
Qed.

(** C6, as stated, fails: the offsets after the burst are draws over
    [[0, slice_us - quanta_us)] and can fall in the burst interval too.
    With [slice_us = 3000], [quanta_us = 100] (30 quanta) and a generator
    whose words are 0, 1, 2, ... the burst offset is 0, the 20 offsets of
    the burst are 1 to 20 and the 10 others 21 to 30: all 30 offsets are
    in [[offset0, offset0 + quanta_us)], the 21st included, not 20 of
    them. *)
Lemma cluster_exactly_counterexample :
  let g := MkMwc (fun n => Z.of_nat n) 0 in
  let offsets :=
    fst (stress_workload_fill STRESS_WORKLOAD_DIST_CLUSTER 3000 100 30
           (replicate 30 (MkWorkload 0)) g) in
  valid_config 3000 100
  /\ quanta_count 3000 100 = 30
  /\ fst (stress_mwc32modn (3000 / 2) g) = 0
  /\ offsets = map (fun i => MkWorkload (Z.of_nat i)) (seq 1 30)
  /\ offsets !! 20%nat = Some (MkWorkload 21)
  /\ in_burst 0 100 (MkWorkload 21) = true
  /\ length (List.filter (in_burst 0 100) offsets) = 30%nat
  /\ length (List.filter (in_burst 0 100) offsets) <> 20%nat.
Proof.
  intros g offsets.
  split; [unfold valid_config; lia|].
  split; [reflexivity|]. split; [reflexivity|].
  assert (E : offsets = map (fun i => MkWorkload (Z.of_nat i)) (seq 1 30))
    by (vm_compute; reflexivity).
  split; [exact E|]. rewrite E.
  split; [reflexivity|]. split; [reflexivity|].
  split; [vm_compute; reflexivity|]. vm_compute. discriminate.
Qed.

(** C6, amended: the Cluster sampler draws one [offset0] over
    [[0, slice_us / 2)]; the first [n * 2 / 3] offsets of the array are
    [offset0] plus a draw over [[0, quanta_us)], each its own draw from
    the generator, so they lie in [[offset0, offset0 + quanta_us)]; the
    other [n - n * 2 / 3] offsets are single draws over
    [[0, slice_us - quanta_us)], each its own draw, and may lie in that
    interval as well.  So [n * 2 / 3] offsets or more are in the burst
    interval: for [n = 30], 20 offsets are generated for the burst, 10
    outside it, and between 20 and 30 lie in the interval.  (A draw over
    an empty range is the constant 0.) *)
Theorem cluster_burst_and_noise (slice_us quanta_us n : Z)
    (workload : list stress_workload_t) (g : mwc_t) :
  valid_config slice_us quanta_us ->
  0 <= n <= 10000000 ->
  length workload = Z.to_nat n ->
  let offset0 := fst (stress_mwc32modn (slice_us / 2) g) in
  let g0 := snd (stress_mwc32modn (slice_us / 2) g) in
  let burst := draws (burst_draw quanta_us offset0)
                 (Z.to_nat (n * 2 / 3)) g0 in
  let noise := draws (stress_mwc32modn (slice_us - quanta_us))
                 (Z.to_nat n - Z.to_nat (n * 2 / 3)) (snd burst) in
  let offsets :=
    fst (stress_workload_fill STRESS_WORKLOAD_DIST_CLUSTER slice_us
           quanta_us n workload g) in
  mwc_range (slice_us / 2) offset0
  /\ stress_workload_fill STRESS_WORKLOAD_DIST_CLUSTER slice_us quanta_us n
       workload g
     = (fst burst ++ fst noise, snd noise)
  /\ Z.of_nat (length (fst burst)) = n * 2 / 3
  /\ Z.of_nat (length (fst noise)) = n - n * 2 / 3
  /\ Forall (fun q => offset0 <= when_us q < offset0 + quanta_us) (fst burst)
  /\ Forall (offset_in_range slice_us quanta_us) (fst noise)
  /\ n * 2 / 3
     <= Z.of_nat (length (List.filter (in_burst offset0 quanta_us) offsets))
     <= n
  /\ (n = 30 ->
      length (fst burst) = 20%nat /\ length (fst noise) = 10%nat
      /\ (20 <= length (List.filter (in_burst offset0 quanta_us) offsets)
          <= 30)%nat).
Proof.
  intros Hv Hn Hlen offset0 g0 burst noise offsets.
  destruct (burst_count_bound n Hn) as [_ Hb].
  destruct (valid_config_range _ _ Hv) as [Hw Hr].
  pose proof (stress_workload_fill_cluster_draws slice_us quanta_us n
                workload g Hv Hn Hlen) as Hfill.
  cbv zeta in Hfill. fold offset0 g0 in Hfill. fold burst in Hfill.
  fold noise in Hfill.
  assert (Lb : length (fst burst) = Z.to_nat (n * 2 / 3))
    by apply draws_length.
  assert (Ln : length (fst noise)
               = (Z.to_nat n - Z.to_nat (n * 2 / 3))%nat)
    by apply draws_length.
  assert (Fb : Forall (fun q => offset0 <= when_us q < offset0 + quanta_us)
                 (fst burst)).
  { apply (draws_Forall (burst_draw quanta_us offset0)
             (fun x => offset0 <= x < offset0 + quanta_us)).
    intros g1. unfold burst_draw.
    pose proof (stress_mwc32modn_range quanta_us g1
                  ltac:(destruct Hv; lia)) as R1.
    destruct (stress_mwc32modn quanta_us g1) as [d g2].
    cbn [fst] in R1 |- *.
    unfold mwc_range in R1. destruct Hv as (H1 & H2 & H3). lia. }
  assert (Fn : Forall (offset_in_range slice_us quanta_us) (fst noise)).
  { apply (draws_Forall (stress_mwc32modn (slice_us - quanta_us))
             (fun x => mwc_range (slice_us - quanta_us) x)).
    intros g1. apply stress_mwc32modn_range. lia. }
  assert (Hcount : (length (fst burst)
                    <= length (List.filter (in_burst offset0 quanta_us)
                                 offsets)
                    <= length (fst burst) + length (fst noise))%nat).
  { unfold offsets. rewrite Hfill. cbn [fst].
    rewrite List.filter_app, length_app, filter_all.
    - pose proof (filter_length_le (in_burst offset0 quanta_us) (fst noise)).
      lia.
    - eapply Forall_impl; [exact Fb|]. intros q Hq. cbv beta in Hq.
      unfold in_burst.
      apply andb_true_intro. split; [apply Z.leb_le|apply Z.ltb_lt]; lia. }
  split.
  { apply stress_mwc32modn_range. destruct Hv as (H1 & H2 & H3).
    apply Z.div_pos; lia. }
  split; [exact Hfill|]. split; [lia|]. split; [lia|].
  split; [exact Fb|]. split; [exact Fn|]. split; [lia|].
  intros ->. rewrite Lb, Ln in *. change (Z.to_nat (30 * 2 / 3)) with 20%nat
    in *. change (Z.to_nat 30) with 30%nat in *.
  split; [reflexivity|]. split; [reflexivity|]. lia.
Qed.

Lemma cluster_burst_and_noise_witness :
  let offsets :=
    fst (stress_workload_fill STRESS_WORKLOAD_DIST_CLUSTER 3000 100 30
           (replicate 30 (MkWorkload 0)) example_tape) in
  let offset0 := fst (stress_mwc32modn (3000 / 2) example_tape) in
  valid_config 3000 100
  /\ quanta_count 3000 100 = 30
  /\ (20 <= length (List.filter (in_burst offset0 100) offsets) <= 30)%nat.
Proof.
  intros offsets offset0.
  assert (Hv : valid_config 3000 100) by (unfold valid_config; lia).
  split; [exact Hv|]. split; [reflexivity|].
  destruct (cluster_burst_and_noise 3000 100 30
              (replicate 30 (MkWorkload 0)) example_tape Hv
              ltac:(lia) eq_refl)
    as (_ & _ & _ & _ & _ & _ & _ & H30).
  exact (proj2 (proj2 (H30 eq_refl))).
Defined.

(** ** Ordering the quanta *)

Section Qsort.
Context {A : Type} (compar : A -> A -> Z).
Hypothesis compar_total : forall x y, compar x y <= 0 \/ compar y x <= 0.

Lemma qsort_insert_perm (x : A) (l : list A) :
  Permutation (x :: l) (qsort_insert compar x l).
Proof.
  induction l as [|y l IH]; simpl.
  - apply Permutation_refl.
  - destruct (compar x y <=? 0).
    + apply Permutation_refl.
    + eapply perm_trans; [apply perm_swap|]. now apply perm_skip.
Qed.

Lemma qsort_all_perm (l : list A) : Permutation l (qsort_all compar l).
Proof.
  induction l as [|x l IH]; simpl.
  - apply perm_nil.
  - eapply perm_trans; [apply perm_skip, IH|]. apply qsort_insert_perm.
Qed.

Lemma qsort_insert_hd (a x : A) (l : list A) :
  compar_le compar a x -> HdRel (compar_le compar) a l ->
  HdRel (compar_le compar) a (qsort_insert compar x l).
Proof.
  intros Hax Hl. destruct l as [|y l]; simpl.
  - now constructor.
  - destruct (compar x y <=? 0); constructor; [assumption|].
    now inversion Hl.
Qed.

Lemma qsort_insert_sorted (x : A) (l : list A) :
  Sorted (compar_le compar) l ->
  Sorted (compar_le compar) (qsort_insert compar x l).
Proof.
  induction l as [|y l IH]; intros Hs; simpl.
  - repeat constructor.
  - destruct (Z.leb_spec (compar x y) 0) as [Hxy|Hxy].
    + constructor; [assumption|]. now constructor.
    + inversion Hs as [|? ? Hs' Hhd]; subst.
      constructor; [now apply IH|].
      apply qsort_insert_hd; [|assumption].
      unfold compar_le. destruct (compar_total x y); lia.
Qed.

Lemma qsort_all_sorted (l : list A) :
  Sorted (compar_le compar) (qsort_all compar l).
Proof.
  induction l as [|x l IH]; simpl.
  - constructor.
  - now apply qsort_insert_sorted.
Qed.
End Qsort.

Lemma stress_workload_cmp_sign (w1 w2 : stress_workload_t) :
  (stress_workload_cmp w1 w2 = -1 <-> when_us w1 < when_us w2)
  /\ (stress_workload_cmp w1 w2 = 0 <-> when_us w1 = when_us w2)
  /\ (stress_workload_cmp w1 w2 = 1 <-> when_us w1 > when_us w2).
Proof.
  unfold stress_workload_cmp.
  destruct (Z.ltb_spec (when_us w1) (when_us w2));
    destruct (Z.gtb_spec (when_us w1) (when_us w2)); lia.
Qed.

Lemma stress_workload_cmp_le (w1 w2 : stress_workload_t) :
  stress_workload_cmp w1 w2 <= 0 <-> when_us w1 <= when_us w2.
Proof.
  unfold stress_workload_cmp.
  destruct (Z.ltb_spec (when_us w1) (when_us w2));
    destruct (Z.gtb_spec (when_us w1) (when_us w2)); lia.
Qed.

Lemma Sorted_adjacent {A : Type} (R : A -> A -> Prop) (l : list A) :
  Sorted R l ->
  forall (i : nat) (x y : A),
    l !! i = Some x -> l !! S i = Some y -> R x y.
Proof.
  induction 1 as [|a l Hs IH Hhd]; intros i x y Hx Hy.
  - discriminate.
  - destruct i as [|i]; simpl in Hx, Hy.
    + injection Hx as <-. destruct l as [|b l]; [discriminate|].
      injection Hy as <-. now inversion Hhd.
    + eapply IH; eassumption.
Qed.

(** C8: after [qsort] with [stress_workload_cmp] the array is ascending
    by offset, each element being no larger than its successor, and it
    holds the same offsets as before, each as many times.  The comparison
    function returns the sign of the comparison of the two offsets. *)
Theorem qsort_offsets_ascending (workload : list stress_workload_t)
    (max_quanta : Z) :
  length workload = Z.to_nat max_quanta ->
  let sorted := qsort workload max_quanta stress_workload_cmp in
  (forall (i : nat) (q1 q2 : stress_workload_t),
      sorted !! i = Some q1 -> sorted !! S i = Some q2 ->
      when_us q1 <= when_us q2)
  /\ Permutation (map when_us workload) (map when_us sorted)
  /\ (forall w1 w2 : stress_workload_t,
        (stress_workload_cmp w1 w2 = -1 <-> when_us w1 < when_us w2)
        /\ (stress_workload_cmp w1 w2 = 0 <-> when_us w1 = when_us w2)
        /\ (stress_workload_cmp w1 w2 = 1 <-> when_us w1 > when_us w2)).
Proof.
  intros Hlen sorted. subst sorted. unfold qsort.
  rewrite take_ge, drop_ge, app_nil_r by lia.
  split; [|split].
  - intros i q1 q2 H1 H2. apply stress_workload_cmp_le.
    revert i q1 q2 H1 H2.
    apply (Sorted_adjacent (compar_le stress_workload_cmp)).
    apply qsort_all_sorted. intros x y.
    rewrite !stress_workload_cmp_le. lia.
  - apply Permutation_map, qsort_all_perm.
  - apply stress_workload_cmp_sign.
Qed.

Lemma qsort_offsets_ascending_witness :
  qsort [MkWorkload 70; MkWorkload 3; MkWorkload 70; MkWorkload 12] 4
        stress_workload_cmp
  = [MkWorkload 3; MkWorkload 12; MkWorkload 70; MkWorkload 70]
  /\ Permutation
       (map when_us [MkWorkload 70; MkWorkload 3; MkWorkload 70; MkWorkload 12])
       (map when_us
          (qsort [MkWorkload 70; MkWorkload 3; MkWorkload 70; MkWorkload 12] 4
                 stress_workload_cmp)).
Proof.
  split; [reflexivity|].
  exact (proj1 (proj2
           (qsort_offsets_ascending
              [MkWorkload 70; MkWorkload 3; MkWorkload 70; MkWorkload 12] 4
              eq_refl))).
Defined.

(** ** The start-time histogram *)

Lemma double_to_int_nonneg (x : Q) :
  (0 <= x)%Q -> double_to_int x = Qfloor x.
Proof.
  destruct x as [n d]. unfold Qle, double_to_int, Qfloor. simpl.
  intros H. apply Z.quot_div_nonneg; lia.
Qed.

Lemma double_to_int_neg (x : Q) :
  (x < 0)%Q -> double_to_int x <= 0 /\ Qfloor x < 0.
Proof.
  destruct x as [n d]. unfold Qlt, double_to_int, Qfloor. simpl.
  intros H. split.
  - replace n with (- (- n)) by lia.
    rewrite Z.quot_opp_l by lia.
    assert (0 <= (- n) ÷ Z.pos d) by (apply Z.quot_pos; lia). lia.
  - apply Z.div_lt_upper_bound; lia.
Qed.

Lemma account_index_clamp (x : Q) :
  (if double_to_int x <? 0 then 0 else double_to_int x)
  = (if Qfloor x <? 0 then 0 else Qfloor x).
Proof.
  destruct (Qlt_le_dec x 0) as [Hneg|Hpos].
  - destruct (double_to_int_neg x Hneg) as [H1 H2].
    destruct (Z.ltb_spec (double_to_int x) 0);
      destruct (Z.ltb_spec (Qfloor x) 0); lia.
  - now rewrite double_to_int_nonneg.
Qed.

(** [account] selects the cell of the floor of the double quotient. *)
Lemma account_at_floor (b : stress_workload_bucket_t) (value : Q) :
  stress_workload_bucket_account b value
  = (let i := Qfloor (fl (value / width b)) in
     let i := if i <? 0 then 0 else i in
     if i <? 20 then bump_bucket b i else bump_overflow b).
Proof.
  unfold stress_workload_bucket_account. rewrite account_index_clamp.
  reflexivity.
Qed.

Lemma Qfloor_between (x : Q) (k : Z) :
  (inject_Z k <= x)%Q -> (x < inject_Z (k + 1))%Q -> Qfloor x = k.
Proof.
  intros Hlo Hhi.
  assert (H1 : k <= Qfloor x).
  { rewrite <- (Qfloor_Z k). now apply Qfloor_resp_le. }
  assert (H2 : Qfloor x < k + 1).
  { rewrite Zlt_Qlt. eapply Qle_lt_trans; [apply Qfloor_le|exact Hhi]. }
  lia.
Qed.

Lemma account_quotient_nonpos (b : stress_workload_bucket_t) (value : Q) :
  (fl (value / width b) <= 0)%Q ->
  stress_workload_bucket_account b value = bump_bucket b 0.
Proof.
  intros Hq. rewrite account_at_floor. cbv zeta.
  assert (H : Qfloor (fl (value / width b)) <= 0).
  { rewrite <- (Qfloor_Z 0). now apply Qfloor_resp_le. }
  destruct (Z.ltb_spec (Qfloor (fl (value / width b))) 0); [reflexivity|].
  replace (Qfloor (fl (value / width b))) with 0 by lia. reflexivity.
Qed.

Lemma account_quotient_in (b : stress_workload_bucket_t) (value : Q) (k : Z) :
  0 <= k < 20 ->
  (inject_Z k <= fl (value / width b))%Q ->
  (fl (value / width b) < inject_Z (k + 1))%Q ->
  stress_workload_bucket_account b value = bump_bucket b k.
Proof.
  intros Hk Hlo Hhi. rewrite account_at_floor. cbv zeta.
  rewrite (Qfloor_between _ k Hlo Hhi).
  destruct (Z.ltb_spec k 0); [lia|].
  destruct (Z.ltb_spec k 20); [reflexivity|lia].
Qed.

Lemma account_quotient_over (b : stress_workload_bucket_t) (value : Q) :
  (20 <= fl (value / width b))%Q ->
  stress_workload_bucket_account b value = bump_overflow b.
Proof.
  intros Hq. rewrite account_at_floor. cbv zeta.
  assert (H : 20 <= Qfloor (fl (value / width b))).
  { rewrite <- (Qfloor_Z 20). now apply Qfloor_resp_le. }
  destruct (Z.ltb_spec (Qfloor (fl (value / width b))) 0); [lia|].
  destruct (Z.ltb_spec (Qfloor (fl (value / width b))) 20); [lia|].
  reflexivity.
Qed.

(** The double quotient of a value of [[k * width, (k + 1) * width]] is a
    double of [[k, k + 1]]: the rounding does not cross an integer. *)
Lemma quotient_ge (b : stress_workload_bucket_t) (value : Q) (k : Z) :
  (0 < width b)%Q -> 0 <= k < 2 ^ 53 ->
  (inject_Z k * width b <= value)%Q ->
  (inject_Z k <= fl (value / width b))%Q.
Proof.
  intros Hw Hk Hlo. apply fl_ge_Z; [exact Hk|].
  now apply Qle_shift_div_l.
Qed.

Lemma quotient_le (b : stress_workload_bucket_t) (value : Q) (k : Z) :
  (0 < width b)%Q -> 0 <= k < 2 ^ 53 ->
  (value <= inject_Z k * width b)%Q ->
  (fl (value / width b) <= inject_Z k)%Q.
Proof.
  intros Hw Hk Hhi. apply fl_le_Z; [exact Hk|].
  now apply Qle_shift_div_r.
Qed.

Lemma account_in_overflow (b : stress_workload_bucket_t) (value : Q) :
  (0 < width b)%Q ->
  (20 * width b <= value)%Q ->
  stress_workload_bucket_account b value = bump_overflow b.
Proof.
  intros Hw Hlo. apply account_quotient_over.
  apply (quotient_ge b value 20 Hw); [lia|exact Hlo].
Qed.

Lemma account_negative (b : stress_workload_bucket_t) (v : Q) :
  (0 < width b)%Q -> (v < 0)%Q ->
  stress_workload_bucket_account b v = bump_bucket b 0.
Proof.
  intros Hw Hneg. apply account_quotient_nonpos.
  apply (quotient_le b v 0 Hw); [lia|].
  rewrite Qmult_0_l. now apply Qlt_le_weak.
Qed.

(** A value of [[k * width, (k + 1) * width)] is counted in bucket [k],
    or in the cell after it when its quotient rounds to [k + 1]. *)
Lemma account_in_bucket (b : stress_workload_bucket_t) (value : Q) (k : Z) :
  (0 < width b)%Q -> 0 <= k < 20 ->
  (inject_Z k * width b <= value)%Q ->
  (value < inject_Z (k + 1) * width b)%Q ->
  (inject_Z k <= fl (value / width b))%Q
  /\ (fl (value / width b) <= inject_Z (k + 1))%Q
  /\ ((fl (value / width b) < inject_Z (k + 1))%Q ->
      stress_workload_bucket_account b value = bump_bucket b k)
  /\ ((fl (value / width b) == inject_Z (k + 1))%Q ->
      stress_workload_bucket_account b value
      = if k + 1 <? 20 then bump_bucket b (k + 1) else bump_overflow b).
Proof.
  intros Hw Hk Hlo Hhi.
  assert (Hq1 : (inject_Z k <= fl (value / width b))%Q)
    by (apply quotient_ge; [assumption|lia|assumption]).
  assert (Hq2 : (fl (value / width b) <= inject_Z (k + 1))%Q)
    by (apply quotient_le; [assumption|lia|now apply Qlt_le_weak]).
  split; [exact Hq1|]. split; [exact Hq2|]. split.
  - intros Hlt. now apply account_quotient_in.
  - intros Heq. destruct (Z.ltb_spec (k + 1) 20).
    + apply account_quotient_in; [lia|rewrite Heq; apply Qle_refl|].
      rewrite Heq, <- Zlt_Qlt. lia.
    + apply account_quotient_over. rewrite Heq.
      change 20%Q with (inject_Z 20). rewrite <- Zle_Qle. lia.
Qed.

(** Whatever the value, one cell is incremented. *)
Lemma account_one_cell (b : stress_workload_bucket_t) (value : Q) :
  (exists k : Z, 0 <= k < 20
                 /\ stress_workload_bucket_account b value = bump_bucket b k)
  \/ stress_workload_bucket_account b value = bump_overflow b.
Proof.
  unfold stress_workload_bucket_account, bump_bucket, bump_overflow.
  set (i := if double_to_int (fl (value / width b)) <? 0 then 0
            else double_to_int (fl (value / width b))).
  assert (Hi : 0 <= i).
  { subst i.
    destruct (Z.ltb_spec (double_to_int (fl (value / width b))) 0); lia. }
  unfold NUM_BUCKETS. destruct (Z.ltb_spec i 20).
  - left. exists i. split; [lia|reflexivity].
  - now right.
Qed.

Lemma bump_bucket_not_overflow (b : stress_workload_bucket_t) (k : Z) :
  bump_bucket b k <> bump_overflow b.
Proof.
  unfold bump_bucket, bump_overflow. intros H. injection H as _ Ho.
  unfold wrap64 in Ho.
  pose proof (Z.mod_pos_bound (overflow b + 1) (2 ^ 64) ltac:(lia)) as Hr.
  rewrite <- Ho in Hr.
  destruct (Z.eq_dec (overflow b + 1) (2 ^ 64)) as [E|E].
  - rewrite E, Z_mod_same_full in Ho. lia.
  - rewrite Z.mod_small in Ho by lia. lia.
Qed.

(** C4, as stated, fails: the index is the floor of the quotient the
    double division returns, not of the exact one.  With the width that
    [stress_workload_bucket_init] stores for a slice of 1002 microseconds,
    the nearest double above [50.1], the value [1002.0] is below
    [20 * width] and the floor of [1002 / width] is 19; the double
    division rounds the quotient to [20.0] and the overflow counter is
    incremented. *)
Lemma account_floor_counterexample :
  let b := stress_workload_bucket_init (MkBucket 0 (replicate 20 0) 0) 1002 in
  (width b == 7050948166601933 # 2 ^ 47)%Q
  /\ (inject_Z 19 * width b <= 1002)%Q
  /\ (1002 < inject_Z 20 * width b)%Q
  /\ Qfloor (1002 / width b) = 19
  /\ account_spec b 1002 = bump_bucket b 19
  /\ (fl (1002 / width b) == 20)%Q
  /\ stress_workload_bucket_account b 1002 = bump_overflow b
  /\ stress_workload_bucket_account b 1002 <> account_spec b 1002.
Proof.
  intros b.
  assert (Hspec : account_spec b 1002 = bump_bucket b 19)
    by (vm_compute; reflexivity).
  assert (Hcode : stress_workload_bucket_account b 1002 = bump_overflow b)
    by (vm_compute; reflexivity).
  split; [vm_compute; reflexivity|].
  split; [vm_compute; discriminate|].
  split; [vm_compute; reflexivity|].
  split; [vm_compute; reflexivity|].
  split; [exact Hspec|].
  split; [vm_compute; reflexivity|].
  split; [exact Hcode|].
  rewrite Hspec, Hcode. intros H. symmetry in H. revert H.
  apply bump_bucket_not_overflow.
Qed.

(** C4, amended: [account] increments the cell selected by the quotient
    [q] that the double division [v / width] returns, rounded to the
    nearest double: bucket 0 when [q < 0], bucket [k] when
    [k <= q < k + 1] with [k < 20], the overflow counter when [20 <= q],
    and nothing else.  A negative value is counted in bucket 0 and a
    value of [20 * width] or more as overflow; a value of
    [[k * width, (k + 1) * width)] has [k <= q <= k + 1] and is counted
    in bucket [k], unless the division rounds its quotient up to
    [k + 1]: then it is counted in the next cell, bucket [k + 1] or,
    after bucket 19, the overflow counter. *)
Theorem account_selects_cell (b : stress_workload_bucket_t) (v : Q) :
  (0 < width b)%Q ->
  length (bucket b) = 20%nat ->
  in_ssize_t (fl (v / width b)) ->
  ((fl (v / width b) < 0)%Q ->
   stress_workload_bucket_account b v = bump_bucket b 0)
  /\ (forall k : Z, 0 <= k < 20 ->
        (inject_Z k <= fl (v / width b))%Q ->
        (fl (v / width b) < inject_Z (k + 1))%Q ->
        stress_workload_bucket_account b v = bump_bucket b k
        /\ bucket (bump_bucket b k) !! Z.to_nat k
           = Some (wrap64 (default 0 (bucket b !! Z.to_nat k) + 1))
        /\ (forall j : nat, j <> Z.to_nat k ->
              bucket (bump_bucket b k) !! j = bucket b !! j)
        /\ overflow (bump_bucket b k) = overflow b)
  /\ ((20 <= fl (v / width b))%Q ->
      stress_workload_bucket_account b v = bump_overflow b
      /\ bucket (bump_overflow b) = bucket b
      /\ overflow (bump_overflow b) = wrap64 (overflow b + 1))
  /\ ((v < 0)%Q -> stress_workload_bucket_account b v = bump_bucket b 0)
  /\ (forall k : Z, 0 <= k < 20 ->
        (inject_Z k * width b <= v)%Q ->
        (v < inject_Z (k + 1) * width b)%Q ->
        (inject_Z k <= fl (v / width b))%Q
        /\ (fl (v / width b) <= inject_Z (k + 1))%Q
        /\ ((fl (v / width b) < inject_Z (k + 1))%Q ->
            stress_workload_bucket_account b v = bump_bucket b k)
        /\ ((fl (v / width b) == inject_Z (k + 1))%Q ->
            stress_workload_bucket_account b v
            = if k + 1 <? 20 then bump_bucket b (k + 1)
              else bump_overflow b))
  /\ ((20 * width b <= v)%Q ->
      stress_workload_bucket_account b v = bump_overflow b).
Proof.
  intros Hw Hlen _.
  split; [|split; [|split; [|split; [|split]]]].
  - intros Hq. apply account_quotient_nonpos. now apply Qlt_le_weak.
  - intros k Hk Hlo Hhi. split; [now apply account_quotient_in|].
    unfold bump_bucket; simpl. split; [|split; [|reflexivity]].
    + apply list_lookup_insert_eq. lia.
    + intros j Hj. now apply list_lookup_insert_ne.
  - intros Hq. split; [now apply account_quotient_over|]. now split.
  - now apply account_negative.
  - intros k Hk Hlo Hhi. now apply account_in_bucket.
  - now apply account_in_overflow.
Qed.

Lemma account_selects_cell_witness :
  let b := stress_workload_bucket_init (MkBucket 0 (replicate 20 0) 0) 100000 in
  (0 < width b)%Q
  /\ length (bucket b) = 20%nat
  /\ in_ssize_t (fl (12345 / width b))
  /\ (fl (12345 / width b) < inject_Z (2 + 1))%Q
  /\ stress_workload_bucket_account b 12345 = bump_bucket b 2.
Proof.
  intros b.
  assert (Hw : (0 < width b)%Q) by (vm_compute; reflexivity).
  assert (Hlen : length (bucket b) = 20%nat) by reflexivity.
  assert (Hr : in_ssize_t (fl (12345 / width b))).
  { assert (E : double_to_int (fl (12345 / width b)) = 2)
      by (vm_compute; reflexivity).
    unfold in_ssize_t. rewrite E. lia. }
  assert (Hq : (fl (12345 / width b) < inject_Z (2 + 1))%Q)
    by (vm_compute; reflexivity).
  split; [exact Hw|]. split; [exact Hlen|]. split; [exact Hr|].
  split; [exact Hq|].
  destruct (account_selects_cell b 12345 Hw Hlen Hr)
    as (_ & _ & _ & _ & H & _).
  destruct (H 2) as (_ & _ & H2 & _).
  - lia.
  - vm_compute. discriminate.
  - vm_compute. reflexivity.
  - exact (H2 Hq).
Defined.

Lemma zero_loop_spec (count : nat) :
  forall pre suf : list Z,
    (count <= length suf)%nat ->
    zero_loop count (length pre) (pre ++ suf)
    = pre ++ replicate count 0 ++ drop count suf.
Proof.
  induction count as [|count IH]; intros pre suf Hlen; simpl.
  - now rewrite drop_0.
  - destruct suf as [|x suf]; [simpl in Hlen; lia|].
    rewrite insert_app_r_alt by lia. rewrite Nat.sub_diag. simpl.
    replace (pre ++ 0 :: suf) with ((pre ++ [0]) ++ suf)
      by (rewrite <- app_assoc; reflexivity).
    replace (S (length pre)) with (length (pre ++ [0]))
      by (rewrite length_app; simpl; lia).
    rewrite IH by (simpl in Hlen; lia).
    rewrite <- app_assoc. reflexivity.
Qed.

Lemma bucket_init_cells (b : stress_workload_bucket_t) (w : Q) :
  length (bucket b) = 20%nat ->
  bucket (stress_workload_bucket_init b w) = replicate 20 0
  /\ overflow (stress_workload_bucket_init b w) = 0
  /\ width (stress_workload_bucket_init b w) = fl (w / 20).
Proof.
  intros Hlen. split; [|split; reflexivity].
  pose proof (zero_loop_spec 20 [] (bucket b) ltac:(lia)) as H.
  rewrite drop_ge in H by lia.
  unfold stress_workload_bucket_init. cbn [bucket]. exact H.
Qed.

Lemma sum_insert (l : list Z) (i : nat) (x : Z) :
  (i < length l)%nat ->
  foldr Z.add 0 (<[i := x]> l) = foldr Z.add 0 l - default 0 (l !! i) + x.
Proof.
  revert i. induction l as [|a l IH]; intros i Hi; simpl in *; [lia|].
  destruct i as [|i]; simpl.
  - lia.
  - rewrite IH by lia. lia.
Qed.

Lemma sum_lookup_le (l : list Z) (i : nat) :
  Forall (fun c => 0 <= c) l ->
  0 <= default 0 (l !! i) <= foldr Z.add 0 l.
Proof.
  intros Hl. revert i. induction Hl as [|a l Ha Hl IH]; intros i; simpl.
  - destruct i; simpl; lia.
  - destruct i as [|i]; simpl.
    + specialize (IH 0%nat). lia.
    + specialize (IH i). lia.
Qed.

Lemma Forall_insert_nonneg (l : list Z) (i : nat) (x : Z) :
  Forall (fun c => 0 <= c) l -> 0 <= x ->
  Forall (fun c => 0 <= c) (<[i := x]> l).
Proof.
  intros Hl Hx. revert i. induction Hl as [|a l Ha Hl IH]; intros i.
  - constructor.
  - destruct i as [|i]; simpl; constructor; auto.
Qed.

(** One call of [account] adds one sample. *)
Lemma account_adds_one (b : stress_workload_bucket_t) (value : Q) :
  cells_ok b ->
  bucket_samples b < 2 ^ 64 - 1 ->
  cells_ok (stress_workload_bucket_account b value)
  /\ bucket_samples (stress_workload_bucket_account b value)
     = bucket_samples b + 1.
Proof.
  intros (Hlen & Hcells & Hov) Hsum. unfold bucket_samples in *.
  pose proof (sum_lookup_le (bucket b) 0 Hcells) as H0.
  destruct (account_one_cell b value) as [(k & Hk & ->)| ->].
  - unfold bump_bucket, cells_ok; simpl.
    pose proof (sum_lookup_le (bucket b) (Z.to_nat k) Hcells) as Hc.
    rewrite wrap64_small by lia.
    rewrite sum_insert by lia. rewrite length_insert.
    split; [|lia]. split; [assumption|]. split; [|assumption].
    apply Forall_insert_nonneg; [assumption|lia].
  - unfold bump_overflow, cells_ok; simpl.
    rewrite wrap64_small by lia. split; [|lia].
    split; [assumption|]. split; [assumption|lia].
Qed.

Lemma account_all_samples (values : list Q) :
  forall b : stress_workload_bucket_t,
    cells_ok b ->
    bucket_samples b + Z.of_nat (length values) < 2 ^ 64 ->
    cells_ok (fold_left stress_workload_bucket_account values b)
    /\ bucket_samples (fold_left stress_workload_bucket_account values b)
       = bucket_samples b + Z.of_nat (length values).
Proof.
  induction values as [|v values IH]; intros b Hok Hsum; simpl.
  - split; [assumption|lia].
  - simpl length in Hsum.
    destruct (account_adds_one b v Hok) as [Hok' Hs']; [lia|].
    destruct (IH (stress_workload_bucket_account b v) Hok') as [Hok'' Hs''];
      [lia|].
    split; [assumption|]. rewrite Hs'', Hs'. lia.
Qed.

Lemma total_loop_sum (cells : list Z) (count : nat) :
  forall (i : nat) (total : Z),
    wrap64 (total_loop count i cells total)
    = wrap64 (total + foldr Z.add 0 (take count (drop i cells))).
Proof.
  induction count as [|count IH]; intros i total; simpl.
  - now rewrite Z.add_0_r.
  - rewrite IH. destruct (cells !! i) as [x|] eqn:Hx; simpl.
    + rewrite (drop_S cells x i Hx). simpl. unfold wrap64.
      rewrite Zplus_mod_idemp_l. f_equal. lia.
    + apply lookup_ge_None in Hx.
      rewrite !drop_ge by lia. rewrite take_nil. simpl. unfold wrap64.
      rewrite Zplus_mod_idemp_l. f_equal. lia.
Qed.

Lemma total_loop_range (cells : list Z) (count : nat) :
  forall (i : nat) (total : Z),
    0 <= total < 2 ^ 64 -> 0 <= total_loop count i cells total < 2 ^ 64.
Proof.
  induction count as [|count IH]; intros i total Ht; simpl.
  - assumption.
  - apply IH, wrap64_range.
Qed.

Lemma bucket_total_samples (b : stress_workload_bucket_t) :
  cells_ok b -> bucket_samples b < 2 ^ 64 ->
  bucket_total b = bucket_samples b.
Proof.
  intros (Hlen & Hcells & Hov) Hsum. unfold bucket_samples in *.
  pose proof (sum_lookup_le (bucket b) 0 Hcells) as H0.
  unfold bucket_total.
  rewrite <- (wrap64_small (total_loop _ _ _ _))
    by (apply total_loop_range; lia).
  rewrite total_loop_sum, drop_0.
  change (trips 0 NUM_BUCKETS) with 20%nat.
  rewrite take_ge by lia. rewrite wrap64_small by lia. lia.
Qed.

(** C5: every call of [account] increments one of the 20 bucket counters
    or the overflow counter and nothing else, so after [N] calls on an
    initialized histogram the counters add up to [N], as does the total
    the report computes. *)
Theorem account_conserves_samples (b0 : stress_workload_bucket_t) (w : Q)
    (values : list Q) :
  length (bucket b0) = 20%nat ->
  Z.of_nat (length values) < 2 ^ 64 ->
  let b := fold_left stress_workload_bucket_account values
             (stress_workload_bucket_init b0 w) in
  bucket_samples b = Z.of_nat (length values)
  /\ bucket_total b = Z.of_nat (length values)
  /\ (forall (b' : stress_workload_bucket_t) (v : Q),
        (exists k : Z, 0 <= k < 20
           /\ stress_workload_bucket_account b' v = bump_bucket b' k)
        \/ stress_workload_bucket_account b' v = bump_overflow b').
Proof.
  intros Hlen HN b.
  destruct (bucket_init_cells b0 w Hlen) as (Hc & Ho & _).
  assert (Hok : cells_ok (stress_workload_bucket_init b0 w)).
  { unfold cells_ok. rewrite Hc, Ho. split; [reflexivity|].
    split; [|lia]. apply Forall_forall. intros c Hin.
    apply elem_of_replicate in Hin. lia. }
  assert (Hz : bucket_samples (stress_workload_bucket_init b0 w) = 0).
  { unfold bucket_samples. rewrite Hc, Ho. reflexivity. }
  destruct (account_all_samples values _ Hok) as [Hok' Hs]; [lia|].
  fold b in Hok', Hs. rewrite Hz in Hs. simpl in Hs.
  split; [exact Hs|]. split.
  - rewrite bucket_total_samples; [exact Hs|exact Hok'|lia].
  - apply account_one_cell.
Qed.

Lemma account_conserves_samples_witness :
  bucket_samples
    (fold_left stress_workload_bucket_account
       [12345%Q; 99999%Q; (-3)%Q; 100000%Q; 2500000%Q]
       (stress_workload_bucket_init (MkBucket 7 (replicate 20 9) 4) 100000))
  = 5.
Proof.
  refine (proj1 (account_conserves_samples
                   (MkBucket 7 (replicate 20 9) 4) 100000
                   [12345%Q; 99999%Q; (-3)%Q; 100000%Q; 2500000%Q] _ _)).
  - reflexivity.
  - simpl. lia.
Defined.

(** ** The report *)

Lemma percent_finite (count total : Z) :
  total <> 0 ->
  percent count total = FpFinite (100 * inject_Z count / inject_Z total).
Proof.
  intros Ht. unfold percent, fp_div.
  destruct (Qeq_bool (inject_Z total) 0) eqn:E; [|reflexivity].
  apply Qeq_bool_iff in E. unfold Qeq in E. simpl in E. lia.
Qed.

Lemma percent_zero_total (count : Z) :
  fp_is_finite (percent count 0) = false.
Proof.
  unfold percent, fp_div. simpl.
  destruct (Qeq_bool (100 * inject_Z count) 0); reflexivity.
Qed.

Lemma rows_loop_percent (b : stress_workload_bucket_t) (total : Z)
    (count : nat) :
  forall i : nat,
    length (rows_loop count i b total) = count
    /\ Forall (fun r => row_percent r = percent (row_count r) total)
              (rows_loop count i b total).
Proof.
  induction count as [|count IH]; intros i; simpl.
  - split; [reflexivity|constructor].
  - destruct (IH (S i)) as [Hl Hf]. split; [now rewrite Hl|].
    constructor; [reflexivity|assumption].
Qed.

Lemma report_rows (b : stress_workload_bucket_t) :
  length (stress_workload_bucket_report b) = 21%nat
  /\ Forall (fun r => row_percent r = percent (row_count r) (bucket_total b))
            (stress_workload_bucket_report b).
Proof.
  unfold stress_workload_bucket_report.
  destruct (rows_loop_percent b (bucket_total b) (trips 0 NUM_BUCKETS) 0)
    as [Hl Hf].
  split.
  - rewrite length_app, Hl. reflexivity.
  - apply Forall_app. split; [assumption|].
    constructor; [reflexivity|constructor].
Qed.

(** ** Computations over the world *)

Lemma bind_eq {A B : Type} (m : M A) (k : A -> M B) (w w1 : world) (a : A) :
  m w = (Some a, w1) -> bind m k w = k a w1.
Proof. intros H. unfold bind. now rewrite H. Qed.

Lemma bind_returns {A B : Type} (m : M A) (k : A -> M B) (w w' : world)
    (b : B) :
  bind m k w = (Some b, w') ->
  exists (a : A) (w1 : world), m w = (Some a, w1) /\ k a w1 = (Some b, w').
Proof.
  unfold bind. destruct (m w) as [[a|] w1]; intros H; [|discriminate].
  now exists a, w1.
Qed.

(** Taking apart a sequence that returned. *)
Tactic Notation "bind_inv" hyp(H) "as" ident(a) ident(w1) ident(E) :=
  apply bind_returns in H; destruct H as (a & w1 & E & H).

(** The world a primitive leaves, read off its equation. *)
Ltac world_of E := apply (f_equal snd) in E; simpl in E.

Section Preserves.
Variable R : world -> world -> Prop.
Hypothesis R_refl : forall w, R w w.
Hypothesis R_trans : forall a b c, R a b -> R b c -> R a c.

Lemma preserves_ret {A : Type} (a : A) : preserves R (ret a).
Proof. intros w. apply R_refl. Qed.

Lemma preserves_timeout {A : Type} : preserves R (@timeout A).
Proof. intros w. apply R_refl. Qed.

Lemma preserves_ask {A : Type} (f : world -> A) : preserves R (ask f).
Proof. intros w. apply R_refl. Qed.

Lemma preserves_bind {A B : Type} (m : M A) (k : A -> M B) :
  preserves R m -> (forall a, preserves R (k a)) -> preserves R (bind m k).
Proof.
  intros Hm Hk w. unfold bind. specialize (Hm w).
  destruct (m w) as [[a|] w1]; simpl in *.
  - eapply R_trans; [exact Hm|apply Hk].
  - exact Hm.
Qed.

Lemma preserves_if {A : Type} (c : bool) (m1 m2 : M A) :
  preserves R m1 -> preserves R m2 -> preserves R (if c then m1 else m2).
Proof. now destruct c. Qed.

Hypothesis R_now : preserves R stress_time_now.
Hypothesis R_mwc :
  forall (A : Type) (f : mwc_t -> A * mwc_t), preserves R (mwc f).
Hypothesis R_val : preserves R val_inc.
Hypothesis R_put : preserves R stress_double_put.

Lemma preserves_while_now {St : Type} (t_end : Q) (body : Q -> St -> M St) :
  (forall t s, preserves R (body t s)) ->
  forall (fuel : nat) (s : St), preserves R (while_now fuel t_end body s).
Proof.
  intros Hb. induction fuel as [|fuel IH]; intros s; simpl.
  - apply preserves_timeout.
  - apply preserves_bind; [exact R_now|]. intros t.
    apply preserves_if; [|apply preserves_ret].
    apply preserves_bind; [apply Hb|]. intros s'. apply IH.
Qed.

Lemma preserves_val_loop (fuel : nat) (t_end : Q) (buffer : list Z) :
  preserves R
    (while_now fuel t_end (fun _ b => val_inc ;;; ret b) buffer).
Proof.
  apply preserves_while_now. intros t s.
  apply preserves_bind; [exact R_val|]. intros _. apply preserves_ret.
Qed.

Lemma preserves_mixed_step (fuel : nat) (t_end : Q) (buffer_len : Z)
    (t : Q) (buffer : list Z) :
  preserves R (mixed_step fuel t_end buffer_len t buffer).
Proof.
  unfold mixed_step. apply preserves_bind; [apply R_mwc|]. intros k.
  repeat (apply preserves_if);
    repeat first
      [ apply preserves_ret
      | apply preserves_val_loop
      | apply R_mwc
      | exact R_put
      | apply preserves_bind; [|intros ?] ].
Qed.

Lemma preserves_waste_time (fuel : nat) (run_duration_sec : Q)
    (buffer : list Z) (buffer_len : Z) :
  preserves R
    (stress_workload_waste_time fuel run_duration_sec buffer buffer_len).
Proof.
  unfold stress_workload_waste_time.
  apply preserves_bind; [exact R_now|]. intros now.
  apply preserves_bind; [apply R_mwc|]. intros k.
  repeat (apply preserves_if);
    repeat first
      [ apply preserves_val_loop
      | apply preserves_while_now; intros ? ?
      | apply preserves_mixed_step
      | apply preserves_ret
      | apply R_mwc
      | exact R_put
      | apply preserves_bind; [|intros ?] ].
Qed.

Hypothesis R_sleep : forall ns, preserves R (emit (EvNanosleep ns)).
Hypothesis R_bogo : preserves R stress_bogo_inc.

Lemma preserves_quanta_loop (fuel : nat) (t_begin run_duration_sec : Q)
    (workload : list stress_workload_t) (buffer_len : Z) (count : nat) :
  forall (i : nat) (b : stress_workload_bucket_t) (buffer : list Z),
    preserves R
      (quanta_loop fuel count i t_begin run_duration_sec workload b buffer
         buffer_len).
Proof.
  induction count as [|count IH]; intros i b buffer; simpl.
  - apply preserves_ret.
  - apply preserves_bind; [exact R_now|]. intros now.
    apply preserves_bind.
    { apply preserves_if; [apply R_sleep|apply preserves_ret]. }
    intros _. apply preserves_bind; [exact R_now|]. intros now'.
    apply preserves_bind.
    { apply preserves_if; [apply preserves_waste_time|apply preserves_ret]. }
    intros buffer'. apply preserves_bind; [exact R_bogo|]. intros _.
    apply IH.
Qed.

Lemma preserves_exercise (fuel : nat) (args : stress_args_t)
    (workload_load workload_slice_us workload_quanta_us max_quanta
       workload_dist : Z) (mem : memory) (buffer_len : Z) :
  preserves R
    (stress_workload_exercise fuel args workload_load workload_slice_us
       workload_quanta_us max_quanta workload_dist mem buffer_len).
Proof.
  unfold stress_workload_exercise.
  apply preserves_bind; [exact R_now|]. intros t0.
  apply preserves_bind; [apply R_mwc|]. intros workload.
  apply preserves_bind; [exact R_now|]. intros t_begin.
  apply preserves_bind; [apply preserves_quanta_loop|]. intros r.
  apply preserves_bind; [exact R_now|]. intros now.
  apply preserves_bind.
  { apply preserves_if; [apply R_sleep|apply preserves_ret]. }
  intros _. apply preserves_ret.
Qed.

Hypothesis R_continue : preserves R stress_continue.

Lemma preserves_exercise_loop (fuel : nat) (args : stress_args_t)
    (workload_load workload_slice_us workload_quanta_us max_quanta
       workload_dist : Z) (buffer_len : Z) (rounds : nat) :
  forall mem : memory,
    preserves R
      (exercise_loop fuel rounds args workload_load workload_slice_us
         workload_quanta_us max_quanta workload_dist mem buffer_len).
Proof.
  induction rounds as [|rounds IH]; intros mem; simpl.
  - apply preserves_timeout.
  - apply preserves_bind; [apply preserves_exercise|]. intros r.
    apply preserves_bind; [exact R_continue|]. intros c.
    apply preserves_if; [apply IH|apply preserves_ret].
Qed.
End Preserves.

(** ** The busy-work kernels *)

(** With option 4 drawn, the loop of the math kernel is followed by the
    loop of the counter-increment kernel. *)
Lemma waste_time_option4 (fuel : nat) (run_duration_sec : Q)
    (buffer : list Z) (buffer_len : Z) (w : world) :
  fst (stress_mwc8modn 8 (w_mwc w)) = 4 ->
  stress_workload_waste_time fuel run_duration_sec buffer buffer_len w
  = (now <- stress_time_now ;;
     let t_end := fl (now + run_duration_sec) in
     _ <- mwc (stress_mwc8modn 8) ;;
     buffer' <- while_now fuel t_end
                  (fun t b => stress_workload_math t t_end ;;; ret b) buffer ;;
     while_now fuel t_end (fun _ b => val_inc ;;; ret b) buffer') w.
Proof.
  intros Hk. unfold stress_workload_waste_time.
  unfold bind, mwc, stress_time_now. cbn [w_mwc].
  destruct (stress_mwc8modn 8 (w_mwc w)) as [k g]. simpl in Hk. subst k.
  reflexivity.
Qed.

(** C3 fails on the code: [case 4] of the outer switch has no [break].
    With option 4 drawn and a deadline half a second away, on a clock
    that reads 0, 1/4, 1/2, 3/4, ... the math kernel runs once and the
    loop of the counter-increment kernel then polls the clock once more
    (4 polls, where the math kernel alone takes 3); on a clock that is
    set back after the deadline (0, 1, 0, 1, ...) the counter-increment
    kernel increments [val]. *)
Theorem waste_time_option4_falls_through :
  let steady :=
    example_world (fun n => inject_Z (Z.of_nat n) / 4)%Q
                  (MkMwc (fun _ => 4) 0) (MkSettings None None None None) in
  let set_back :=
    example_world (fun n => if Nat.even n then 0%Q else 1%Q)
                  (MkMwc (fun _ => 4) 0) (MkSettings None None None None) in
  let code w := snd (stress_workload_waste_time 8 (1 # 2) [0; 0] 2 w) in
  let math w := snd (waste_time_math_only 8 (1 # 2) [0; 0] w) in
  fst (stress_mwc8modn 8 (w_mwc steady)) = 4
  /\ (w_puts (code steady), w_polls (code steady), w_val (code steady))
     = (1%nat, 4%nat, 0)
  /\ (w_puts (math steady), w_polls (math steady), w_val (math steady))
     = (1%nat, 3%nat, 0)
  /\ (w_puts (code set_back), w_polls (code set_back), w_val (code set_back))
     = (0%nat, 4%nat, 1)
  /\ (w_puts (math set_back), w_polls (math set_back), w_val (math set_back))
     = (0%nat, 2%nat, 0).
Proof.
  intros steady set_back code math.
  split; [reflexivity|]. split; [vm_compute; reflexivity|].
  split; [vm_compute; reflexivity|].
  split; vm_compute; reflexivity.
Qed.

(** ** The stressor *)

Lemma no_config_error_refl (w : world) : no_config_error w w.
Proof. exists []. split; [reflexivity|constructor]. Qed.

Lemma no_config_error_trans (a b c : world) :
  no_config_error a b -> no_config_error b c -> no_config_error a c.
Proof.
  intros (e1 & H1 & F1) (e2 & H2 & F2). exists (e2 ++ e1). split.
  - rewrite H2, H1. now rewrite app_assoc.
  - apply Forall_app. now split.
Qed.

Lemma no_config_error_silent {A : Type} (m : M A) :
  (forall w, w_log (snd (m w)) = w_log w) -> preserves no_config_error m.
Proof.
  intros H w. exists []. split; [now rewrite H|constructor].
Qed.

Lemma no_config_error_emit (e : event) :
  is_pr_err e = false -> preserves no_config_error (emit e).
Proof.
  intros He w. exists [e]. split; [reflexivity|].
  constructor; [assumption|constructor].
Qed.

Lemma no_config_error_mwc {A : Type} (f : mwc_t -> A * mwc_t) :
  preserves no_config_error (mwc f).
Proof.
  apply no_config_error_silent. intros w. unfold mwc.
  now destruct (f (w_mwc w)).
Qed.

Lemma no_config_error_exercise_loop (fuel rounds : nat) (args : stress_args_t)
    (workload_load workload_slice_us workload_quanta_us max_quanta
       workload_dist : Z) (mem : memory) (buffer_len : Z) :
  preserves no_config_error
    (exercise_loop fuel rounds args workload_load workload_slice_us
       workload_quanta_us max_quanta workload_dist mem buffer_len).
Proof.
  apply preserves_exercise_loop.
  - exact no_config_error_refl.
  - exact no_config_error_trans.
  - now apply no_config_error_silent.
  - intros A f. apply no_config_error_mwc.
  - now apply no_config_error_silent.
  - now apply no_config_error_silent.
  - intros ns. now apply no_config_error_emit.
  - now apply no_config_error_silent.
  - now apply no_config_error_silent.
Qed.

Lemma stress_workload_status (fuel : nat) (args : stress_args_t)
    (w w' : world) (st : exit_status) :
  default 1000 (set_workload_quanta_us (w_settings w))
  <= default 100000 (set_workload_slice_us (w_settings w)) ->
  stress_workload fuel args w = (Some st, w') ->
  st = EXIT_SUCCESS \/ st = EXIT_NO_RESOURCE.
Proof.
  intros Hle H. unfold stress_workload in H.
  bind_inv H as s w0 E0. unfold ask in E0. injection E0 as <- <-.
  destruct (Z.gtb_spec (default 1000 (set_workload_quanta_us (w_settings w)))
              (default 100000 (set_workload_slice_us (w_settings w))));
    [lia|].
  bind_inv H as u1 w1 E1. bind_inv H as calloc_ok w2 E2.
  destruct (negb calloc_ok).
  { bind_inv H as u3 w3 E3. injection H as <- _. now right. }
  bind_inv H as u3 w3 E3. bind_inv H as mmap_ok w4 E4.
  destruct (negb mmap_ok).
  { bind_inv H as u5 w5 E5. bind_inv H as u6 w6 E6.
    injection H as <- _. now right. }
  bind_inv H as u5 w5 E5. bind_inv H as mem w6 E6.
  bind_inv H as u7 w7 E7. bind_inv H as u8 w8 E8.
  bind_inv H as u9 w9 E9. bind_inv H as u10 w10 E10.
  injection H as <- _. now left.
Qed.

Lemma stress_workload_no_config_error (fuel : nat) (args : stress_args_t)
    (w : world) :
  default 1000 (set_workload_quanta_us (w_settings w))
  <= default 100000 (set_workload_slice_us (w_settings w)) ->
  no_config_error w (snd (stress_workload fuel args w)).
Proof.
  intros Hle. unfold stress_workload.
  unfold bind at 1. unfold ask at 1.
  destruct (Z.gtb_spec (default 1000 (set_workload_quanta_us (w_settings w)))
              (default 100000 (set_workload_slice_us (w_settings w))));
    [lia|].
  set (s := w_settings w). clearbody s. clear. revert w.
  match goal with
  | |- forall w, no_config_error w (snd (?m w)) =>
      change (preserves no_config_error m)
  end.
  repeat first
    [ apply preserves_ret; exact no_config_error_refl
    | apply no_config_error_emit; reflexivity
    | apply no_config_error_exercise_loop
    | apply preserves_ask; exact no_config_error_refl
    | apply preserves_if
    | apply (preserves_bind _ no_config_error_trans); [|intros ?] ].
Qed.

(** C7: with [quanta_us > slice_us] the stressor reports the
    configuration error and returns the failure status, and that report
    is all it does: neither the quantum array nor the scratch buffer is
    asked for.  With [quanta_us <= slice_us] it reports no configuration
    error and does not return the failure status. *)
Theorem config_error_before_resources (fuel : nat) (args : stress_args_t)
    (w : world) :
  let slice_us := default 100000 (set_workload_slice_us (w_settings w)) in
  let quanta_us := default 1000 (set_workload_quanta_us (w_settings w)) in
  (quanta_us > slice_us ->
   fst (stress_workload fuel args w) = Some EXIT_FAILURE
   /\ w_log (snd (stress_workload fuel args w))
      = EvPrErr quanta_us slice_us :: w_log w)
  /\ (quanta_us <= slice_us ->
      fst (stress_workload fuel args w) <> Some EXIT_FAILURE
      /\ no_config_error w (snd (stress_workload fuel args w))).
Proof.
  intros slice_us quanta_us. split.
  - intros Hgt.
    assert (E : stress_workload fuel args w
                = (Some EXIT_FAILURE,
                   snd (emit (EvPrErr quanta_us slice_us) w))).
    { unfold stress_workload. unfold bind at 1. unfold ask at 1.
      fold slice_us quanta_us.
      destruct (Z.gtb_spec quanta_us slice_us); [|lia]. reflexivity. }
    rewrite E. split; reflexivity.
  - intros Hle. split.
    + destruct (stress_workload fuel args w) as [[st|] w'] eqn:E;
        [|discriminate].
      destruct (stress_workload_status fuel args w w' st Hle E) as [->| ->];
        discriminate.
    + now apply stress_workload_no_config_error.
Qed.

Lemma config_error_before_resources_witness :
  let w := example_world example_clock example_tape
             (MkSettings None (Some 100) (Some 200) None) in
  let w2 := example_world example_clock example_tape
              (MkSettings None (Some 100000) (Some 1000) None) in
  (200 > 100
   /\ fst (stress_workload 1 (MkArgs 0) w) = Some EXIT_FAILURE
   /\ w_log (snd (stress_workload 1 (MkArgs 0) w)) = [EvPrErr 200 100])
  /\ (1000 <= 100000
      /\ fst (stress_workload 1 (MkArgs 0) w2) <> Some EXIT_FAILURE
      /\ no_config_error w2 (snd (stress_workload 1 (MkArgs 0) w2))).
Proof.
  intros w w2.
  assert (Hgt : 200 > 100) by reflexivity.
  assert (Hle : 1000 <= 100000) by lia.
  split.
  - split; [exact Hgt|].
    exact (proj1 (config_error_before_resources 1 (MkArgs 0) w) Hgt).
  - split; [exact Hle|].
    exact (proj2 (config_error_before_resources 1 (MkArgs 0) w2) Hle).
Defined.

(** ** The slice executor *)

Lemma same_clock_refl (w : world) : same_clock w w.
Proof. split; [reflexivity|lia]. Qed.

Lemma same_clock_trans (a b c : world) :
  same_clock a b -> same_clock b c -> same_clock a c.
Proof. intros [H1 H2] [H3 H4]. split; [congruence|lia]. Qed.

Lemma same_clock_mwc {A : Type} (f : mwc_t -> A * mwc_t) :
  preserves same_clock (mwc f).
Proof.
  intros w. unfold mwc. destruct (f (w_mwc w)).
  split; simpl; [reflexivity|lia].
Qed.

Lemma same_clock_now : preserves same_clock stress_time_now.
Proof. intros w. split; simpl; [reflexivity|lia]. Qed.

Lemma same_clock_while_now {St : Type} (t_end : Q)
    (body : Q -> St -> M St) :
  (forall t s, preserves same_clock (body t s)) ->
  forall (fuel : nat) (s : St),
    preserves same_clock (while_now fuel t_end body s).
Proof.
  apply preserves_while_now.
  - exact same_clock_refl.
  - exact same_clock_trans.
  - exact same_clock_now.
Qed.

Lemma same_clock_mixed_step (fuel : nat) (t_end : Q) (buffer_len : Z) (t : Q)
    (buffer : list Z) :
  preserves same_clock (mixed_step fuel t_end buffer_len t buffer).
Proof.
  apply preserves_mixed_step.
  - exact same_clock_refl.
  - exact same_clock_trans.
  - exact same_clock_now.
  - intros A f. apply same_clock_mwc.
  - intros w. split; simpl; [reflexivity|lia].
  - intros w. split; simpl; [reflexivity|lia].
Qed.

Lemma same_clock_waste_time (fuel : nat) (run_duration_sec : Q)
    (buffer : list Z) (buffer_len : Z) :
  preserves same_clock
    (stress_workload_waste_time fuel run_duration_sec buffer buffer_len).
Proof.
  apply preserves_waste_time.
  - exact same_clock_refl.
  - exact same_clock_trans.
  - exact same_clock_now.
  - intros A f. apply same_clock_mwc.
  - intros w. split; simpl; [reflexivity|lia].
  - intros w. split; simpl; [reflexivity|lia].
Qed.

Lemma same_bogo_waste_time (fuel : nat) (run_duration_sec : Q)
    (buffer : list Z) (buffer_len : Z) :
  preserves same_bogo
    (stress_workload_waste_time fuel run_duration_sec buffer buffer_len).
Proof.
  apply preserves_waste_time; unfold same_bogo.
  - intros w. reflexivity.
  - intros a b c H1 H2. congruence.
  - intros w. reflexivity.
  - intros A f w. unfold mwc. now destruct (f (w_mwc w)).
  - intros w. reflexivity.
  - intros w. reflexivity.
Qed.

(** *** More fuel does not change a computation that returns *)

Lemma extends_refl {A : Type} (m : M A) : extends m m.
Proof. intros w a _. reflexivity. Qed.

Lemma extends_bind {A B : Type} (m m' : M A) (k k' : A -> M B) :
  extends m m' -> (forall a, extends (k a) (k' a)) ->
  extends (bind m k) (bind m' k').
Proof.
  intros Hm Hk w b H. unfold bind in *.
  destruct (m w) as [[a|] w1] eqn:E; [|discriminate].
  rewrite (Hm w a) by (now rewrite E). rewrite E.
  now apply (Hk a w1 b).
Qed.

Lemma extends_if {A : Type} (c : bool) (m1 m1' m2 m2' : M A) :
  extends m1 m1' -> extends m2 m2' ->
  extends (if c then m1 else m2) (if c then m1' else m2').
Proof. now destruct c. Qed.

Lemma extends_while_now {St : Type} (t_end : Q)
    (body body' : Q -> St -> M St) :
  (forall t s, extends (body t s) (body' t s)) ->
  forall (fuel fuel' : nat) (s : St),
    (fuel <= fuel')%nat ->
    extends (while_now fuel t_end body s) (while_now fuel' t_end body' s).
Proof.
  intros Hb. induction fuel as [|fuel IH]; intros fuel' s Hle.
  - intros w a H. discriminate.
  - destruct fuel' as [|fuel']; [lia|]. simpl.
    apply extends_bind; [apply extends_refl|]. intros t.
    apply extends_if; [|apply extends_refl].
    apply extends_bind; [apply Hb|]. intros s'. apply IH. lia.
Qed.

Lemma extends_mixed_step (fuel fuel' : nat) (t_end : Q) (buffer_len : Z)
    (t : Q) (buffer : list Z) :
  (fuel <= fuel')%nat ->
  extends (mixed_step fuel t_end buffer_len t buffer)
          (mixed_step fuel' t_end buffer_len t buffer).
Proof.
  intros Hle. unfold mixed_step.
  apply extends_bind; [apply extends_refl|]. intros k.
  repeat (apply extends_if; [apply extends_refl|]).
  apply extends_if; [|apply extends_if; apply extends_refl].
  apply extends_while_now; [|exact Hle]. intros t0 s. apply extends_refl.
Qed.

Lemma extends_waste_time (fuel fuel' : nat) (run_duration_sec : Q)
    (buffer : list Z) (buffer_len : Z) :
  (fuel <= fuel')%nat ->
  extends (stress_workload_waste_time fuel run_duration_sec buffer buffer_len)
          (stress_workload_waste_time fuel' run_duration_sec buffer
             buffer_len).
Proof.
  intros Hle. unfold stress_workload_waste_time.
  apply extends_bind; [apply extends_refl|]. intros now.
  apply extends_bind; [apply extends_refl|]. intros k.
  repeat first
    [ apply extends_if
    | apply extends_bind; [|intros ?]
    | apply extends_while_now; [intros ? ?|exact Hle]
    | apply extends_mixed_step; exact Hle
    | apply extends_refl ].
Qed.

Lemma extends_quanta_loop (fuel fuel' : nat) (t_begin run_duration_sec : Q)
    (workload : list stress_workload_t) (buffer_len : Z) (count : nat) :
  (fuel <= fuel')%nat ->
  forall (i : nat) (b : stress_workload_bucket_t) (buffer : list Z),
    extends
      (quanta_loop fuel count i t_begin run_duration_sec workload b buffer
         buffer_len)
      (quanta_loop fuel' count i t_begin run_duration_sec workload b buffer
         buffer_len).
Proof.
  intros Hle. induction count as [|count IH]; intros i b buffer; simpl.
  - apply extends_refl.
  - apply extends_bind; [apply extends_refl|]. intros now.
    apply extends_bind; [apply extends_refl|]. intros _.
    apply extends_bind; [apply extends_refl|]. intros now'.
    apply extends_bind.
    { apply extends_if; [now apply extends_waste_time|apply extends_refl]. }
    intros buffer'.
    apply extends_bind; [apply extends_refl|]. intros _. apply IH.
Qed.

Lemma extends_exercise (fuel fuel' : nat) (args : stress_args_t)
    (workload_load workload_slice_us workload_quanta_us max_quanta
       workload_dist : Z) (mem : memory) (buffer_len : Z) :
  (fuel <= fuel')%nat ->
  extends
    (stress_workload_exercise fuel args workload_load workload_slice_us
       workload_quanta_us max_quanta workload_dist mem buffer_len)
    (stress_workload_exercise fuel' args workload_load workload_slice_us
       workload_quanta_us max_quanta workload_dist mem buffer_len).
Proof.
  intros Hle. unfold stress_workload_exercise.
  apply extends_bind; [apply extends_refl|]. intros t0.
  apply extends_bind; [apply extends_refl|]. intros workload.
  apply extends_bind; [apply extends_refl|]. intros t_begin.
  apply extends_bind; [now apply extends_quanta_loop|]. intros r.
  apply extends_refl.
Qed.

(** *** The loops return once the clock is past their deadline *)

Lemma Qlt_bool_past (t t_end : Q) : (t_end <= t)%Q -> Qlt_bool t t_end = false.
Proof.
  intros H. unfold Qlt_bool. apply Qle_bool_iff in H. now rewrite H.
Qed.

Lemma while_now_S {St : Type} (fuel : nat) (t_end : Q)
    (body : Q -> St -> M St) (s : St) :
  while_now (S fuel) t_end body s
  = (t <- stress_time_now ;;
     if Qlt_bool t t_end then
       s' <- body t s ;; while_now fuel t_end body s'
     else ret s).
Proof. reflexivity. Qed.

Lemma returns_past_total (c : nat -> Q) (p0 : nat) {A : Type} (m : M A) :
  (forall w, exists a, fst (m w) = Some a) -> returns_past c p0 m.
Proof. intros H w _ _. apply H. Qed.

Lemma returns_past_ret (c : nat -> Q) (p0 : nat) {A : Type} (a : A) :
  returns_past c p0 (ret a).
Proof. intros w _ _. now exists a. Qed.

Lemma returns_past_mwc (c : nat -> Q) (p0 : nat) {A : Type}
    (f : mwc_t -> A * mwc_t) :
  returns_past c p0 (mwc f).
Proof.
  intros w _ _. unfold mwc. destruct (f (w_mwc w)) as [a g]. now exists a.
Qed.

Lemma returns_past_bind (c : nat -> Q) (p0 : nat) {A B : Type} (m : M A)
    (k : A -> M B) :
  returns_past c p0 m -> preserves same_clock m ->
  (forall a, returns_past c p0 (k a)) ->
  returns_past c p0 (bind m k).
Proof.
  intros Hm Hp Hk w Hc Hp0. destruct (Hm w Hc Hp0) as [a Ha].
  destruct (Hp w) as [Hc1 Hp1]. unfold bind.
  destruct (m w) as [[a'|] w1]; simpl in *; [|discriminate].
  apply Hk; [congruence|lia].
Qed.

Lemma returns_past_if (c : nat -> Q) (p0 : nat) {A : Type} (b : bool)
    (m1 m2 : M A) :
  returns_past c p0 m1 -> returns_past c p0 m2 ->
  returns_past c p0 (if b then m1 else m2).
Proof. now destruct b. Qed.

Lemma while_now_returns {St : Type} (c : nat -> Q) (p0 q : nat) (t_end : Q)
    (body : Q -> St -> M St) :
  (forall r, (q <= r)%nat -> (t_end <= c r)%Q) ->
  (forall t s, returns_past c p0 (body t s)) ->
  (forall t s, preserves same_clock (body t s)) ->
  forall (f : nat) (s : St) (w : world),
    w_clock w = c -> (p0 <= w_polls w)%nat -> (q <= w_polls w + f)%nat ->
    exists s', fst (while_now (S f) t_end body s w) = Some s'.
Proof.
  intros Hq Hb Hp. induction f as [|f IH]; intros s w Hc Hp0 Hf;
    rewrite while_now_S; unfold bind at 1; unfold stress_time_now at 1;
    cbv beta iota.
  - rewrite Hc, Qlt_bool_past by (apply Hq; lia). now exists s.
  - destruct (Qlt_bool (w_clock w (w_polls w)) t_end) eqn:E;
      [|now exists s].
    assert (Hlt : (w_polls w < q)%nat).
    { destruct (le_lt_dec q (w_polls w)) as [Hle|Hlt]; [|exact Hlt].
      rewrite Hc, Qlt_bool_past in E by (now apply Hq). discriminate. }
    unfold bind at 1.
    match goal with
    | |- context [body ?t s ?w1] =>
        destruct (Hb t s w1) as [s' Hs']; [exact Hc|simpl; lia|];
        destruct (Hp t s w1) as [Hc1 Hp1];
        destruct (body t s w1) as [[s''|] w2]; simpl in Hs', Hc1, Hp1;
        [|discriminate]
    end.
    apply IH; [congruence|lia|lia].
Qed.

Lemma while_now_returns_past {St : Type} (c : nat -> Q) (p0 q : nat)
    (t_end : Q) (body : Q -> St -> M St) (s : St) :
  (forall r, (q <= r)%nat -> (t_end <= c r)%Q) ->
  (forall t s, returns_past c p0 (body t s)) ->
  (forall t s, preserves same_clock (body t s)) ->
  returns_past c p0 (while_now (S q) t_end body s).
Proof.
  intros Hq Hb Hp w Hc Hp0.
  apply (while_now_returns c p0 q); try assumption. lia.
Qed.

Lemma same_clock_silent {A : Type} (m : M A) :
  (forall w, w_clock (snd (m w)) = w_clock w
             /\ w_polls (snd (m w)) = w_polls w) ->
  preserves same_clock m.
Proof. intros H w. destruct (H w) as [H1 H2]. split; [exact H1|lia]. Qed.

Lemma mixed_step_returns_past (c : nat -> Q) (p0 q : nat) (t_end : Q)
    (buffer_len : Z) (t : Q) (buffer : list Z) :
  (forall r, (q <= r)%nat -> (t_end <= c r)%Q) ->
  returns_past c p0 (mixed_step (S q) t_end buffer_len t buffer).
Proof.
  intros Hq. unfold mixed_step.
  apply returns_past_bind;
    [apply returns_past_mwc|apply same_clock_mwc|]. intros k.
  repeat apply returns_past_if.
  - apply returns_past_ret.
  - apply returns_past_total. intros w. now eexists.
  - apply returns_past_bind;
      [apply returns_past_mwc|apply same_clock_mwc|].
    intros a. apply returns_past_ret.
  - apply returns_past_ret.
  - apply while_now_returns_past; [exact Hq| |].
    + intros t0 s. apply returns_past_total. intros w. now eexists.
    + intros t0 s. now apply same_clock_silent.
  - apply returns_past_bind;
      [apply returns_past_mwc|apply same_clock_mwc|].
    intros a. apply returns_past_ret.
  - apply returns_past_total. intros w. now eexists.
Qed.

Lemma waste_time_returns (run_duration_sec : Q) (buffer : list Z)
    (buffer_len : Z) (w : world) :
  clock_passes (w_clock w) ->
  exists (fuel : nat) (buffer' : list Z),
    fst (stress_workload_waste_time fuel run_duration_sec buffer buffer_len w)
    = Some buffer'.
Proof.
  intros Hpass.
  destruct (Hpass (fl (w_clock w (w_polls w) + run_duration_sec))) as [q Hq].
  exists (S q). unfold stress_workload_waste_time.
  unfold bind at 1. unfold stress_time_now at 1. cbv beta iota.
  set (t_end := fl (w_clock w (w_polls w) + run_duration_sec)) in *.
  match goal with
  | |- exists b, fst (?m ?w1) = Some b =>
      cut (returns_past (w_clock w) (w_polls w) m);
        [intros H; apply H; simpl; [reflexivity|lia]|]
  end.
  apply returns_past_bind;
    [apply returns_past_mwc|apply same_clock_mwc|]. intros k.
  assert (Hsilent : forall (b : list Z) (t : Q),
             returns_past (w_clock w) (w_polls w)
               (stress_workload_math t t_end ;;; ret b)).
  { intros b t. apply returns_past_total. intros w0. now eexists. }
  repeat apply returns_past_if.
  - apply while_now_returns_past; [exact Hq| |]; intros t s.
    + apply returns_past_ret.
    + now apply same_clock_silent.
  - apply while_now_returns_past; [exact Hq| |]; intros t s.
    + apply returns_past_total. intros w0. now eexists.
    + now apply same_clock_silent.
  - apply while_now_returns_past; [exact Hq| |]; intros t s.
    + apply returns_past_bind;
        [apply returns_past_mwc|apply same_clock_mwc|].
      intros a. apply returns_past_ret.
    + apply (preserves_bind _ same_clock_trans); [apply same_clock_mwc|].
      intros a. now apply same_clock_silent.
  - apply while_now_returns_past; [exact Hq| |]; intros t s.
    + apply returns_past_ret.
    + now apply same_clock_silent.
  - apply returns_past_bind.
    + apply while_now_returns_past; [exact Hq| |]; intros t s.
      * apply Hsilent.
      * now apply same_clock_silent.
    + apply same_clock_while_now. intros t s. now apply same_clock_silent.
    + intros buffer'.
      apply while_now_returns_past; [exact Hq| |]; intros t s.
      * apply returns_past_total. intros w0. now eexists.
      * now apply same_clock_silent.
  - apply while_now_returns_past; [exact Hq| |]; intros t s.
    + apply returns_past_total. intros w0. now eexists.
    + now apply same_clock_silent.
  - apply while_now_returns_past; [exact Hq| |]; intros t s.
    + apply returns_past_bind;
        [apply returns_past_mwc|apply same_clock_mwc|].
      intros a. apply returns_past_ret.
    + apply (preserves_bind _ same_clock_trans); [apply same_clock_mwc|].
      intros a. now apply same_clock_silent.
  - apply while_now_returns_past; [exact Hq| |]; intros t s.
    + now apply mixed_step_returns_past.
    + apply same_clock_mixed_step.
Qed.

Lemma returns_bind_fuel {A B : Type} (m : nat -> M A) (k : nat -> A -> M B)
    (w : world) :
  (forall F F', (F <= F')%nat -> extends (m F) (m F')) ->
  (forall a F F', (F <= F')%nat -> extends (k F a) (k F' a)) ->
  forall (F1 : nat) (a : A) (w1 : world),
    m F1 w = (Some a, w1) ->
    (exists F2 b, fst (k F2 a w1) = Some b) ->
    exists F b, fst (bind (m F) (k F) w) = Some b.
Proof.
  intros Hm Hk F1 a w1 E (F2 & b & Hb). exists (Nat.max F1 F2), b.
  unfold bind.
  rewrite (Hm F1 (Nat.max F1 F2) ltac:(lia) w a) by (now rewrite E).
  rewrite E.
  now rewrite (Hk a F2 (Nat.max F1 F2) ltac:(lia) w1 b Hb).
Qed.

Ltac extends_tac :=
  repeat first
    [ apply extends_refl
    | apply extends_waste_time; assumption
    | apply extends_quanta_loop; assumption
    | apply extends_if
    | apply extends_bind; [|intros ?] ].

(** One step of a sequence whose head needs no fuel. *)
Ltac returns_step :=
  eapply returns_bind_fuel with (F1 := 0%nat);
    [intros; extends_tac|intros; extends_tac|reflexivity|].

Lemma quanta_loop_returns (t_begin run_duration_sec : Q)
    (workload : list stress_workload_t) (buffer_len : Z) (count : nat) :
  forall (i : nat) (b : stress_workload_bucket_t) (buffer : list Z)
         (w : world),
    clock_passes (w_clock w) ->
    exists fuel r,
      fst (quanta_loop fuel count i t_begin run_duration_sec workload b
             buffer buffer_len w) = Some r.
Proof.
  induction count as [|count IH]; intros i b buffer w Hpass; cbn [quanta_loop].
  - exists 0%nat, (b, buffer). reflexivity.
  - (* the poll before the sleep, and the sleep *)
    returns_step.
    match goal with
    | |- context [if ?c then shim_nanosleep_uint64 _ else _] => destruct c
    end;
      (returns_step;
       (* the poll that is accounted *)
       returns_step;
       match goal with
       | |- context [stress_workload_bucket_account b ?v] =>
           generalize (stress_workload_bucket_account b v); intros b'
       end;
       match goal with
       | |- exists F2 r, fst (bind _ _ ?w0) = Some r =>
           assert (Hpass3 : clock_passes (w_clock w0)) by exact Hpass;
           revert Hpass3; generalize w0; intros w3 Hpass3
       end;
       (* the kernel, when there is time to waste *)
       destruct (Qlt_bool 0 run_duration_sec);
       [ destruct (waste_time_returns run_duration_sec buffer buffer_len w3
                     Hpass3) as (F1 & buffer' & Hwt);
         pose proof (same_clock_waste_time F1 run_duration_sec buffer
                       buffer_len w3) as [Hc4 _];
         destruct (stress_workload_waste_time F1 run_duration_sec buffer
                     buffer_len w3) as [[x|] w4] eqn:E;
         simpl in Hwt, Hc4; [|discriminate];
         eapply returns_bind_fuel with (F1 := F1);
           [intros; extends_tac|intros; extends_tac|exact E|]
       | returns_step ];
       (* the operation signal, and the quanta that are left *)
       returns_step;
       apply IH; first [exact Hpass3|simpl; rewrite Hc4; exact Hpass3]).
Qed.

(** *** What one slice signals and records *)

Lemma quanta_loop_counts (fuel : nat) (t_begin run_duration_sec : Q)
    (workload : list stress_workload_t) (buffer_len : Z) (count : nat) :
  forall (i : nat) (b : stress_workload_bucket_t) (buffer : list Z)
         (w w' : world) (r : stress_workload_bucket_t * list Z),
    quanta_loop fuel count i t_begin run_duration_sec workload b buffer
      buffer_len w = (Some r, w') ->
    w_bogo w' = w_bogo w + Z.of_nat count
    /\ exists values : list Q,
         length values = count
         /\ fst r = fold_left stress_workload_bucket_account values b.
Proof.
  induction count as [|count IH]; intros i b buffer w w' r H;
    cbn [quanta_loop] in H.
  - injection H as <- <-. split; [simpl; lia|].
    exists []. split; reflexivity.
  - bind_inv H as now1 w1 E1. world_of E1.
    bind_inv H as u2 w2 E2.
    assert (Hb2 : w_bogo w2 = w_bogo w1).
    { match type of E2 with
      | (if ?c then _ else _) _ = _ => destruct c
      end; world_of E2; now rewrite <- E2. }
    bind_inv H as now3 w3 E3. world_of E3.
    bind_inv H as buffer4 w4 E4.
    assert (Hb4 : w_bogo w4 = w_bogo w3).
    { destruct (Qlt_bool 0 run_duration_sec).
      - pose proof (same_bogo_waste_time fuel run_duration_sec buffer
                      buffer_len w3) as Hs.
        now rewrite E4 in Hs.
      - world_of E4. now rewrite <- E4. }
    bind_inv H as u5 w5 E5. world_of E5.
    apply IH in H. destruct H as (Hbogo & values & Hlen & Hfold).
    split.
    + rewrite Hbogo, <- E5. simpl. rewrite Hb4, <- E3. simpl.
      rewrite Hb2, <- E1. simpl. lia.
    + eexists (_ :: values). split; [simpl; now rewrite Hlen|].
      simpl. exact Hfold.
Qed.

Lemma exercise_counts (fuel : nat) (args : stress_args_t)
    (workload_load workload_slice_us workload_quanta_us max_quanta
       workload_dist : Z) (mem : memory) (buffer_len : Z) (w w' : world)
    (r : exit_status * memory) :
  stress_workload_exercise fuel args workload_load workload_slice_us
    workload_quanta_us max_quanta workload_dist mem buffer_len w
  = (Some r, w') ->
  fst r = EXIT_SUCCESS
  /\ w_bogo w' = w_bogo w + Z.of_nat (trips 0 max_quanta)
  /\ exists values : list Q,
       length values = trips 0 max_quanta
       /\ m_bucket (snd r)
          = fold_left stress_workload_bucket_account values (m_bucket mem).
Proof.
  intros H. unfold stress_workload_exercise in H.
  bind_inv H as t0 w1 E1. world_of E1.
  bind_inv H as workload w2 E2.
  assert (Hb2 : w_bogo w2 = w_bogo w1).
  { unfold mwc in E2.
    match type of E2 with
    | (let (_, _) := ?f in _) = _ => destruct f
    end. world_of E2. now rewrite <- E2. }
  bind_inv H as t_begin w3 E3. world_of E3.
  bind_inv H as r4 w4 E4. apply quanta_loop_counts in E4.
  destruct E4 as (Hbogo & values & Hlen & Hfold).
  bind_inv H as now5 w5 E5. world_of E5.
  bind_inv H as u6 w6 E6.
  assert (Hb6 : w_bogo w6 = w_bogo w5).
  { match type of E6 with
    | (if ?c then _ else _) _ = _ => destruct c
    end; world_of E6; now rewrite <- E6. }
  injection H as <- <-. simpl.
  split; [reflexivity|]. split.
  - rewrite Hb6, <- E5. simpl. rewrite Hbogo, <- E3. simpl.
    rewrite Hb2, <- E1. simpl. lia.
  - exists values. now split.
Qed.

Lemma exercise_returns (args : stress_args_t)
    (workload_load workload_slice_us workload_quanta_us max_quanta
       workload_dist : Z) (mem : memory) (buffer_len : Z) (w : world) :
  clock_passes (w_clock w) ->
  exists fuel r,
    fst (stress_workload_exercise fuel args workload_load workload_slice_us
           workload_quanta_us max_quanta workload_dist mem buffer_len w)
    = Some r.
Proof.
  intros Hpass. unfold stress_workload_exercise.
  returns_step.
  match goal with
  | |- exists F2 r, fst (bind (mwc ?f) _ ?w0) = Some r =>
      assert (Hm : exists a w1,
                 mwc f w0 = (Some a, w1) /\ w_clock w1 = w_clock w)
        by (unfold mwc; destruct (f (w_mwc w0)); eauto);
      destruct Hm as (workload & w1 & Em & Hc1)
  end.
  eapply returns_bind_fuel with (F1 := 0%nat);
    [intros; extends_tac|intros; extends_tac|exact Em|].
  returns_step.
  match goal with
  | |- exists F2 r, fst (bind (quanta_loop _ ?n ?i ?t ?d ?wl ?b ?bf ?len) _ ?w0)
                    = Some r =>
      destruct (quanta_loop_returns t d wl len n i b bf w0) as (F1 & r1 & Hr);
        [simpl; now rewrite Hc1|];
      destruct (quanta_loop F1 n i t d wl b bf len w0) as [[r1'|] w3] eqn:E;
        [|discriminate]
  end.
  eapply returns_bind_fuel with (F1 := F1);
    [intros; extends_tac|intros; extends_tac|exact E|].
  returns_step.
  exists 0%nat.
  match goal with
  | |- context [if ?c then shim_nanosleep_uint64 _ else _] => destruct c
  end; eexists; reflexivity.
Qed.

(** C9: one execution of a slice of [max_quanta] quanta, on a clock that
    gets past every deadline, returns; it signals [max_quanta] operations
    and records [max_quanta] samples in the histogram, one of each for
    every quantum.  With [slice_us = 100000] and [quanta_us = 1000] the
    stressor runs its slices with 100 quanta. *)
Theorem slice_signals_and_records (args : stress_args_t)
    (workload_load workload_slice_us workload_quanta_us max_quanta
       workload_dist : Z) (mem : memory) (buffer_len : Z) (w : world) :
  clock_passes (w_clock w) ->
  0 <= max_quanta ->
  cells_ok (m_bucket mem) ->
  bucket_samples (m_bucket mem) + max_quanta < 2 ^ 64 ->
  quanta_count 100000 1000 = 100
  /\ exists fuel0 : nat,
       forall fuel : nat, (fuel0 <= fuel)%nat ->
         exists (mem' : memory) (w' : world),
           stress_workload_exercise fuel args workload_load
             workload_slice_us workload_quanta_us max_quanta workload_dist
             mem buffer_len w = (Some (EXIT_SUCCESS, mem'), w')
           /\ w_bogo w' = w_bogo w + max_quanta
           /\ bucket_samples (m_bucket mem')
              = bucket_samples (m_bucket mem) + max_quanta.
Proof.
  intros Hpass Hn Hok Hroom. split; [reflexivity|].
  destruct (exercise_returns args workload_load workload_slice_us
              workload_quanta_us max_quanta workload_dist mem buffer_len w
              Hpass) as (fuel0 & r & Hr).
  exists fuel0. intros fuel Hfuel.
  rewrite (extends_exercise fuel0 fuel args workload_load workload_slice_us
             workload_quanta_us max_quanta workload_dist mem buffer_len
             Hfuel w r Hr).
  destruct (stress_workload_exercise fuel0 args workload_load
              workload_slice_us workload_quanta_us max_quanta workload_dist
              mem buffer_len w) as [[[st mem']|] w'] eqn:E; [|discriminate].
  destruct (exercise_counts _ _ _ _ _ _ _ _ _ _ _ _ E)
    as (Hst & Hbogo & values & Hlen & Hfold).
  simpl in Hst, Hfold. subst st.
  assert (Htrips : Z.of_nat (trips 0 max_quanta) = max_quanta)
    by (unfold trips; lia).
  exists mem', w'. split; [reflexivity|]. split; [lia|].
  rewrite Hfold.
  destruct (account_all_samples values (m_bucket mem) Hok) as [_ Hs];
    [rewrite Hlen; lia|].
  rewrite Hs, Hlen. lia.
Qed.

Lemma example_clock_passes : clock_passes example_clock.
Proof.
  intros T. exists (Z.to_nat (Qceiling (T * 1000000))). intros r Hr.
  unfold example_clock. apply Qle_shift_div_l; [reflexivity|].
  eapply Qle_trans; [apply Qle_ceiling|].
  rewrite <- Zle_Qle. lia.
Qed.

Lemma bucket_init_ok (b : stress_workload_bucket_t) (w : Q) :
  length (bucket b) = 20%nat ->
  cells_ok (stress_workload_bucket_init b w)
  /\ bucket_samples (stress_workload_bucket_init b w) = 0.
Proof.
  intros Hlen. destruct (bucket_init_cells b w Hlen) as (Hc & Ho & _).
  unfold cells_ok, bucket_samples. rewrite Hc, Ho. split; [|reflexivity].
  split; [reflexivity|]. split; [|lia].
  apply Forall_forall. intros c Hin. apply elem_of_replicate in Hin. lia.
Qed.

Lemma slice_signals_and_records_witness :
  let w := example_world example_clock example_tape
             (MkSettings None None None None) in
  let mem := MkMemory (replicate 100 (MkWorkload 0))
               (stress_workload_bucket_init
                  (MkBucket 0 (replicate 20 0) 0) 100000)
               (replicate 16 0) in
  exists fuel0 : nat,
    forall fuel : nat, (fuel0 <= fuel)%nat ->
      exists (mem' : memory) (w' : world),
        stress_workload_exercise fuel (MkArgs 0) 30 100000 1000 100
          STRESS_WORKLOAD_DIST_RANDOM1 mem 16 w
        = (Some (EXIT_SUCCESS, mem'), w')
        /\ w_bogo w' = w_bogo w + 100
        /\ bucket_samples (m_bucket mem')
           = bucket_samples (m_bucket mem) + 100.
Proof.
  intros w mem.
  refine (proj2 (slice_signals_and_records (MkArgs 0) 30 100000 1000 100
                   STRESS_WORKLOAD_DIST_RANDOM1 mem 16 w
                   example_clock_passes _ _ _)).
  - lia.
  - exact (proj1 (bucket_init_ok (MkBucket 0 (replicate 20 0) 0) 100000
                    eq_refl)).
  - reflexivity.
Defined.

(** The do-while loop of the stressor executes a slice or more; each adds
    [max_quanta] samples to the histogram. *)
Lemma exercise_loop_samples (fuel : nat) (args : stress_args_t)
    (workload_load workload_slice_us workload_quanta_us max_quanta
       workload_dist : Z) (buffer_len : Z) (rounds : nat) :
  forall (mem mem' : memory) (w w' : world),
    exercise_loop fuel rounds args workload_load workload_slice_us
      workload_quanta_us max_quanta workload_dist mem buffer_len w
    = (Some mem', w') ->
    cells_ok (m_bucket mem) ->
    0 <= max_quanta ->
    bucket_samples (m_bucket mem) + Z.of_nat rounds * max_quanta < 2 ^ 64 ->
    cells_ok (m_bucket mem')
    /\ bucket_samples (m_bucket mem) + max_quanta
       <= bucket_samples (m_bucket mem')
    /\ bucket_samples (m_bucket mem')
       <= bucket_samples (m_bucket mem) + Z.of_nat rounds * max_quanta.
Proof.
  induction rounds as [|rounds IH]; intros mem mem' w w' H Hok Hn Hroom;
    cbn [exercise_loop] in H; [discriminate|].
  bind_inv H as r w1 E1.
  destruct (exercise_counts _ _ _ _ _ _ _ _ _ _ _ _ E1)
    as (_ & _ & values & Hlen & Hfold).
  assert (Htrips : Z.of_nat (trips 0 max_quanta) = max_quanta)
    by (unfold trips; lia).
  destruct (account_all_samples values (m_bucket mem) Hok) as [Hok1 Hs1];
    [rewrite Hlen; nia|].
  rewrite <- Hfold, Hlen, Htrips in Hs1. rewrite <- Hfold in Hok1.
  bind_inv H as c w2 E2.
  destruct c.
  - apply IH in H; [|exact Hok1|exact Hn|nia].
    destruct H as (Hok' & Hlo & Hhi). split; [exact Hok'|]. nia.
  - injection H as <- _. split; [exact Hok1|]. nia.
Qed.

(** ** The report of the stressor *)

(** C2, as stated, fails: the report of a histogram that was initialized
    and never accounted to has a zero total and still prints its 21 lines,
    each with the NaN of 0 / 0. *)
Lemma report_zero_total_counterexample :
  let b := stress_workload_bucket_init (MkBucket 0 (replicate 20 0) 0)
                                       100000 in
  bucket_total b = 0
  /\ length (stress_workload_bucket_report b) = 21%nat
  /\ Forall (fun r => row_percent r = FpNaN) (stress_workload_bucket_report b)
  /\ ~ report_guards_zero_total b.
Proof.
  intros b.
  assert (Hnan : Forall (fun r => row_percent r = FpNaN)
                        (stress_workload_bucket_report b)).
  { vm_compute. repeat constructor. }
  split; [reflexivity|]. split; [reflexivity|]. split; [exact Hnan|].
  intros Hg. specialize (Hg eq_refl).
  change (stress_workload_bucket_report b)
    with (hd (MkRow 0 None 0 FpNaN) (stress_workload_bucket_report b)
          :: tl (stress_workload_bucket_report b)) in Hg.
  apply Forall_inv in Hg. vm_compute in Hg. discriminate.
Qed.

(** C2, amended: the report has no guard for a zero total.  It prints its
    21 lines whatever the total; with a total other than zero every
    percentage is the finite [100 * count / total], and with a zero total
    every percentage is the result of a division by zero.  The stressor
    asks for the report of the histogram its do-while loop leaves, and
    that loop has executed a slice or more: the total it leaves is not
    zero. *)
Theorem report_percentages (b : stress_workload_bucket_t) :
  length (stress_workload_bucket_report b) = 21%nat
  /\ (bucket_total b <> 0 ->
      Forall (fun r => row_percent r
                       = FpFinite (100 * inject_Z (row_count r)
                                   / inject_Z (bucket_total b)))
             (stress_workload_bucket_report b))
  /\ (bucket_total b = 0 ->
      Forall (fun r => fp_is_finite (row_percent r) = false)
             (stress_workload_bucket_report b))
  /\ (forall (fuel rounds : nat) (args : stress_args_t)
             (workload_load workload_slice_us workload_quanta_us max_quanta
                workload_dist : Z) (mem mem' : memory) (buffer_len : Z)
             (w w' : world),
        exercise_loop fuel rounds args workload_load workload_slice_us
          workload_quanta_us max_quanta workload_dist mem buffer_len w
        = (Some mem', w') ->
        cells_ok (m_bucket mem) ->
        1 <= max_quanta ->
        bucket_samples (m_bucket mem) + Z.of_nat rounds * max_quanta < 2 ^ 64 ->
        bucket_total (m_bucket mem') <> 0).
Proof.
  destruct (report_rows b) as [Hl Hf]. split; [exact Hl|].
  split; [|split].
  - intros Ht. eapply Forall_impl; [exact Hf|].
    intros r Hr. rewrite Hr. now apply percent_finite.
  - intros Ht. eapply Forall_impl; [exact Hf|].
    intros r Hr. rewrite Hr, Ht. apply percent_zero_total.
  - intros fuel rounds args workload_load workload_slice_us
      workload_quanta_us max_quanta workload_dist mem mem' buffer_len w w'
      Hrun Hok Hn Hroom.
    destruct (exercise_loop_samples _ _ _ _ _ _ _ _ _ _ _ _ _ Hrun Hok)
      as (Hok' & Hlo & Hhi); [lia|exact Hroom|].
    rewrite bucket_total_samples; [|exact Hok'|nia].
    destruct Hok as (_ & Hcells & Hov).
    pose proof (sum_lookup_le (bucket (m_bucket mem)) 0 Hcells) as H0.
    unfold bucket_samples in *. lia.
Qed.

Lemma report_percentages_witness :
  let b := MkBucket 5 (<[3%nat := 4]> (replicate 20 0)) 1 in
  let mem := MkMemory (replicate 2 (MkWorkload 0))
               (stress_workload_bucket_init (MkBucket 0 (replicate 20 0) 0)
                  100)
               (replicate 4 0) in
  let w := example_world example_clock example_tape
             (MkSettings None (Some 100) (Some 50) None) in
  (bucket_total b <> 0
   /\ Forall (fun r => row_percent r
                       = FpFinite (100 * inject_Z (row_count r) / inject_Z 5))
        (stress_workload_bucket_report b))
  /\ exists (mem' : memory) (w' : world),
       exercise_loop 40 1 (MkArgs 0) 30 100 50 2
         STRESS_WORKLOAD_DIST_CLUSTER mem 4 w = (Some mem', w')
       /\ bucket_total (m_bucket mem') <> 0.
Proof.
  intros b mem w. split.
  - assert (Ht : bucket_total b <> 0) by (vm_compute; discriminate).
    split; [exact Ht|].
    exact (proj1 (proj2 (report_percentages b)) Ht).
  - destruct (exercise_loop 40 1 (MkArgs 0) 30 100 50 2
                STRESS_WORKLOAD_DIST_CLUSTER mem 4 w) as [[mem'|] w'] eqn:E;
      [|vm_compute in E; discriminate].
    exists mem', w'. split; [reflexivity|].
    refine (proj2 (proj2 (proj2 (report_percentages b)))
              40%nat 1%nat (MkArgs 0) 30 100 50 2
              STRESS_WORKLOAD_DIST_CLUSTER mem mem' 4 w w' E _ _ _).
    + exact (proj1 (bucket_init_ok (MkBucket 0 (replicate 20 0) 0) 100
                      eq_refl)).
    + lia.
    + reflexivity.
Defined.

(** * Further properties *)

(** ** The option setter of the distribution *)

Lemma dist_search_none (opt : string) (table : list (string * Z)) :
  (forall type, ~ In (opt, type) table) -> dist_search opt table = None.
Proof.
  induction table as [|[name type] table IH]; intros Hnot; simpl.
  - reflexivity.
  - destruct (String.eqb_spec opt name) as [->|Hne].
    + exfalso. apply (Hnot type). now left.
    + apply IH. intros t Hin. apply (Hnot t). now right.
Qed.

(** [stress_set_workload_dist] accepts the four names of its table and
    nothing else, letter case included: for one of them it returns 0 with
    the type of that name stored and nothing printed; for any other
    string it returns -1, leaves the settings as they were and prints the
    four names.  A type it stores is one of 1, 2, 3, 4. *)
Theorem set_workload_dist_accepts_table (opt : string) (s : settings) :
  (forall type : Z,
      In (opt, type) workload_dist ->
      stress_set_workload_dist opt s
      = ((0, MkSettings (set_workload_load s) (set_workload_slice_us s)
               (set_workload_quanta_us s) (Some type)), [])
      /\ 1 <= type <= 4)
  /\ ((forall type : Z, ~ In (opt, type) workload_dist) ->
      stress_set_workload_dist opt s
      = ((-1, s),
         ["workload-dist must be one of:"; " random1"; " random2";
          " random3"; " cluster"; newline]))
  /\ (stress_set_workload_dist "Random1" s).1.1 = -1.
Proof.
  split; [|split].
  - intros type Hin. unfold workload_dist in Hin. simpl in Hin.
    destruct Hin as [H|[H|[H|[H|[]]]]]; injection H as <- <-;
      (split; [reflexivity|]);
      unfold STRESS_WORKLOAD_DIST_RANDOM1, STRESS_WORKLOAD_DIST_RANDOM2,
        STRESS_WORKLOAD_DIST_RANDOM3, STRESS_WORKLOAD_DIST_CLUSTER; lia.
  - intros Hnot. unfold stress_set_workload_dist.
    now rewrite (dist_search_none opt workload_dist Hnot).
  - reflexivity.
Qed.

Lemma set_workload_dist_accepts_table_witness :
  In ("cluster", 4) workload_dist
  /\ stress_set_workload_dist "cluster"
       (MkSettings (Some 50) None None (Some 1))
     = ((0, MkSettings (Some 50) None None (Some 4)), []).
Proof.
  assert (Hin : In ("cluster", 4) workload_dist)
    by (right; right; right; left; reflexivity).
  split; [exact Hin|].
  exact (proj1 (proj1 (set_workload_dist_accepts_table "cluster"
                         (MkSettings (Some 50) None None (Some 1)))
                  4 Hin)).
Defined.

(** ** The sampler and the array it fills *)

(** The array a slice starts with does not matter to the sampler: with a
    distribution of the table every one of the [n] cells is overwritten,
    so two arrays of [n] cells are filled alike and the generator is left
    alike.  With any other value of [workload_dist] the switch has no
    case and the array and the generator are left as they were. *)
Theorem fill_overwrites_array (workload_dist slice_us quanta_us n : Z)
    (workload1 workload2 : list stress_workload_t) (g : mwc_t) :
  0 <= n <= 10000000 ->
  length workload1 = Z.to_nat n ->
  length workload2 = Z.to_nat n ->
  (1 <= workload_dist <= 4 ->
   stress_workload_fill workload_dist slice_us quanta_us n workload1 g
   = stress_workload_fill workload_dist slice_us quanta_us n workload2 g
   /\ length (fst (stress_workload_fill workload_dist slice_us quanta_us n
                     workload1 g)) = Z.to_nat n)
  /\ (~ 1 <= workload_dist <= 4 ->
      stress_workload_fill workload_dist slice_us quanta_us n workload1 g
      = (workload1, g)).
Proof.
  intros Hn Hl1 Hl2. destruct (burst_count_bound n Hn) as [Hb Hb'].
  assert (Ht : trips 0 n = Z.to_nat n) by (unfold trips; lia).
  split.
  - intros Hd.
    assert (Hcases : workload_dist = 1 \/ workload_dist = 2
                     \/ workload_dist = 3 \/ workload_dist = 4) by lia.
    unfold stress_workload_fill.
    destruct Hcases as [->|[->|[->| ->]]]; simpl.
    1-3: rewrite Ht; rewrite <- Hl1 at 1 3; rewrite <- Hl2 at 1;
         rewrite !fill_loop_whole_draws, Hl1, Hl2;
         split; [reflexivity|apply draws_length].
    destruct (stress_mwc32modn (slice_us / 2) g) as [offset g0].
    rewrite Hb. unfold trips. rewrite Nat.sub_0_r.
    rewrite !fill_loop_draws_0 by lia.
    pose proof (draws_length (cluster_when quanta_us offset)
                  (Z.to_nat (n * 2 / 3)) g0) as Hlb.
    destruct (draws (cluster_when quanta_us offset) (Z.to_nat (n * 2 / 3)) g0)
      as [burst g1]. simpl in Hlb |- *.
    assert (Hfill : forall wl : list stress_workload_t,
               length wl = Z.to_nat n ->
               fill_loop (random1_when slice_us quanta_us)
                 (Z.to_nat n - Z.to_nat (n * 2 / 3)) (Z.to_nat (n * 2 / 3))
                 (burst ++ drop (Z.to_nat (n * 2 / 3)) wl) g1
               = (burst
                  ++ fst (draws (random1_when slice_us quanta_us)
                            (Z.to_nat n - Z.to_nat (n * 2 / 3)) g1),
                  snd (draws (random1_when slice_us quanta_us)
                         (Z.to_nat n - Z.to_nat (n * 2 / 3)) g1))).
    { intros wl Hwl.
      pose proof (fill_loop_draws (random1_when slice_us quanta_us)
                    (Z.to_nat n - Z.to_nat (n * 2 / 3)) burst
                    (drop (Z.to_nat (n * 2 / 3)) wl) g1) as E.
      rewrite Hlb in E. rewrite E by (rewrite length_drop; lia).
      rewrite (drop_ge (drop _ wl)) by (rewrite length_drop; lia).
      now rewrite app_nil_r. }
    rewrite (Hfill workload1 Hl1), (Hfill workload2 Hl2).
    split; [reflexivity|]. simpl.
    rewrite length_app, Hlb, draws_length. lia.
  - intros Hd. unfold stress_workload_fill,
      STRESS_WORKLOAD_DIST_RANDOM1, STRESS_WORKLOAD_DIST_RANDOM2,
      STRESS_WORKLOAD_DIST_RANDOM3, STRESS_WORKLOAD_DIST_CLUSTER.
    destruct (Z.eqb_spec workload_dist 1); [lia|].
    destruct (Z.eqb_spec workload_dist 2); [lia|].
    destruct (Z.eqb_spec workload_dist 3); [lia|].
    destruct (Z.eqb_spec workload_dist 4); [lia|]. reflexivity.
Qed.

Lemma fill_overwrites_array_witness :
  stress_workload_fill STRESS_WORKLOAD_DIST_RANDOM2 1000 100 3
    [MkWorkload 7; MkWorkload 8; MkWorkload 9] example_tape
  = stress_workload_fill STRESS_WORKLOAD_DIST_RANDOM2 1000 100 3
      (replicate 3 (MkWorkload 0)) example_tape.
Proof.
  refine (proj1 (proj1 (fill_overwrites_array STRESS_WORKLOAD_DIST_RANDOM2
                          1000 100 3
                          [MkWorkload 7; MkWorkload 8; MkWorkload 9]
                          (replicate 3 (MkWorkload 0)) example_tape
                          _ _ _) _)).
  - lia.
  - reflexivity.
  - reflexivity.
  - unfold STRESS_WORKLOAD_DIST_RANDOM2. lia.
Defined.

Lemma quanta_count_valid (slice_us quanta_us : Z) :
  valid_config slice_us quanta_us ->
  quanta_count slice_us quanta_us = slice_us / quanta_us
  /\ 1 <= slice_us / quanta_us <= 10000000
  /\ slice_us / quanta_us * quanta_us <= slice_us
  /\ slice_us < (slice_us / quanta_us + 1) * quanta_us.
Proof.
  intros (H1 & H2 & H3). unfold quanta_count.
  assert (Hlo : 1 <= slice_us / quanta_us)
    by (apply Z.div_le_lower_bound; lia).
  assert (Hhi : slice_us / quanta_us <= slice_us)
    by (apply Z.div_le_upper_bound; nia).
  destruct (Z.ltb_spec (slice_us / quanta_us) 1); [lia|].
  split; [reflexivity|]. split; [lia|].
  pose proof (Z.mul_div_le slice_us quanta_us ltac:(lia)).
  pose proof (Z.mul_succ_div_gt slice_us quanta_us ltac:(lia)).
  split; nia.
Qed.

Lemma mwc_range_within (slice_us quanta_us x : Z) :
  valid_config slice_us quanta_us ->
  mwc_range (slice_us - quanta_us) x -> 0 <= x < slice_us.
Proof. unfold valid_config, mwc_range. lia. Qed.

Lemma fill_within_slice (workload_dist slice_us quanta_us : Z)
    (workload : list stress_workload_t) (g : mwc_t) :
  valid_config slice_us quanta_us ->
  1 <= workload_dist <= 4 ->
  length workload = Z.to_nat (quanta_count slice_us quanta_us) ->
  Forall (fun q => 0 <= when_us q < slice_us)
    (fst (stress_workload_fill workload_dist slice_us quanta_us
            (quanta_count slice_us quanta_us) workload g)).
Proof.
  intros Hv Hd Hlen.
  destruct (quanta_count_valid _ _ Hv) as (Hq & Hn & Hfit & _).
  rewrite Hq in *. set (n := slice_us / quanta_us) in *.
  assert (Hcases : workload_dist = 1 \/ workload_dist = 2
                   \/ workload_dist = 3 \/ workload_dist = 4) by lia.
  destruct Hcases as [->|[->|[->| ->]]].
  1-3: unfold stress_workload_fill; simpl;
       replace (trips 0 n) with (length workload) by (unfold trips; lia);
       (eapply Forall_impl; [apply fill_loop_whole|]);
       intros q [g0 Hq0]; rewrite Hq0;
       apply (mwc_range_within slice_us quanta_us); [assumption|].
  - now apply random1_when_range.
  - now apply random2_when_range.
  - now apply random3_when_range.
  - destruct (stress_workload_fill_cluster slice_us quanta_us n workload g
                ltac:(lia) Hlen) as (burst & noise & E & Lb & Ln & Fb & Fn).
    change 4 with STRESS_WORKLOAD_DIST_CLUSTER. rewrite E.
    apply Forall_app. split.
    + destruct (Z.eq_dec (n * 2 / 3) 0) as [Hz|Hnz].
      { rewrite Hz in Lb. destruct burst; [constructor|discriminate]. }
      assert (Hn2 : 2 <= n).
      { destruct (Z.le_gt_cases 2 n) as [H|H]; [exact H|].
        exfalso. apply Hnz. replace n with 1 by lia. reflexivity. }
      assert (Hhalf : 1 <= slice_us / 2 /\ 2 * (slice_us / 2) <= slice_us
                      /\ quanta_us <= slice_us / 2).
      { destruct Hv as (H1 & H2 & H3).
        pose proof (Z.mul_div_le slice_us 2 ltac:(lia)).
        assert (quanta_us <= slice_us / 2)
          by (apply Z.div_le_lower_bound; nia).
        lia. }
      eapply Forall_impl; [exact Fb|]. intros q [g0 Hq0]. rewrite Hq0.
      pose proof (cluster_when_range slice_us quanta_us g g0 Hv) as Hr.
      simpl in Hr.
      pose proof (stress_mwc32modn_range (slice_us / 2) g ltac:(lia)) as R0.
      unfold mwc_range in R0. lia.
    + eapply Forall_impl; [exact Fn|]. intros q [g0 Hq0]. rewrite Hq0.
      apply (mwc_range_within slice_us quanta_us); [assumption|].
      now apply random1_when_range.
Qed.

(** As the stressor runs it, with [max_quanta] derived from the
    configuration, every quantum of every distribution starts inside the
    slice: its offset is in [[0, slice_us)].  A burst of Cluster only
    exists with two quanta or more, that is with
    [quanta_us <= slice_us / 2]. *)
Theorem offsets_within_slice (workload_dist slice_us quanta_us : Z)
    (workload : list stress_workload_t) (g : mwc_t) :
  valid_config slice_us quanta_us ->
  1 <= workload_dist <= 4 ->
  length workload = Z.to_nat (quanta_count slice_us quanta_us) ->
  Forall (fun q => 0 <= when_us q < slice_us)
    (fst (stress_workload_fill workload_dist slice_us quanta_us
            (quanta_count slice_us quanta_us) workload g)).
Proof. apply fill_within_slice. Qed.

Lemma offsets_within_slice_witness :
  valid_config 100 50
  /\ Forall (fun q => 0 <= when_us q < 100)
       (fst (stress_workload_fill STRESS_WORKLOAD_DIST_CLUSTER 100 50
               (quanta_count 100 50) (replicate 2 (MkWorkload 0))
               (MkMwc (fun _ => 49) 0))).
Proof.
  assert (Hv : valid_config 100 50) by (unfold valid_config; lia).
  split; [exact Hv|].
  refine (offsets_within_slice STRESS_WORKLOAD_DIST_CLUSTER 100 50
            (replicate 2 (MkWorkload 0)) (MkMwc (fun _ => 49) 0) Hv _ _).
  - unfold STRESS_WORKLOAD_DIST_CLUSTER. lia.
  - reflexivity.
Defined.

(** ** The comparison function *)

(** [stress_workload_cmp] is the comparison function [qsort] asks for: it
    returns -1, 0 or 1, swapping its arguments negates the result, equal
    offsets compare as equal, and "not after" is transitive. *)
Theorem stress_workload_cmp_consistent (w1 w2 w3 : stress_workload_t) :
  (stress_workload_cmp w1 w2 = -1 \/ stress_workload_cmp w1 w2 = 0
   \/ stress_workload_cmp w1 w2 = 1)
  /\ stress_workload_cmp w2 w1 = - stress_workload_cmp w1 w2
  /\ stress_workload_cmp w1 w1 = 0
  /\ (stress_workload_cmp w1 w2 <= 0 -> stress_workload_cmp w2 w3 <= 0 ->
      stress_workload_cmp w1 w3 <= 0)
  /\ (stress_workload_cmp w1 w2 = 0 -> stress_workload_cmp w2 w3 = 0 ->
      stress_workload_cmp w1 w3 = 0).
Proof.
  unfold stress_workload_cmp.
  repeat match goal with
         | |- context [?a <? ?b] => destruct (Z.ltb_spec a b)
         | |- context [?a >? ?b] => destruct (Z.gtb_spec a b)
         end; lia.
Qed.

Lemma stress_workload_cmp_consistent_witness :
  stress_workload_cmp (MkWorkload 10) (MkWorkload 250) <= 0
  /\ stress_workload_cmp (MkWorkload 250) (MkWorkload 4000) <= 0
  /\ stress_workload_cmp (MkWorkload 10) (MkWorkload 4000) <= 0.
Proof.
  destruct (stress_workload_cmp_consistent (MkWorkload 10) (MkWorkload 250)
              (MkWorkload 4000)) as (_ & _ & _ & H & _).
  assert (H1 : stress_workload_cmp (MkWorkload 10) (MkWorkload 250) <= 0)
    by (vm_compute; discriminate).
  assert (H2 : stress_workload_cmp (MkWorkload 250) (MkWorkload 4000) <= 0)
    by (vm_compute; discriminate).
  split; [exact H1|]. split; [exact H2|]. exact (H H1 H2).
Defined.

(** ** The histogram *)

(** Whatever the structure held, [stress_workload_bucket_init] leaves the
    same histogram: 20 cells at zero, no overflow, a total of zero, and
    as width the double nearest to a twentieth of the basis.  That double
    is the twentieth itself when the basis is a whole number of
    microseconds that 5 divides, up to the largest slice (the default
    100000 is one); it is not for a slice of 1002 microseconds. *)
Theorem bucket_init_resets (b1 b2 : stress_workload_bucket_t) (w : Q) :
  length (bucket b1) = 20%nat ->
  length (bucket b2) = 20%nat ->
  stress_workload_bucket_init b1 w = stress_workload_bucket_init b2 w
  /\ stress_workload_bucket_init b1 w
     = MkBucket (fl (w / 20)) (replicate 20 0) 0
  /\ bucket_total (stress_workload_bucket_init b1 w) = 0
  /\ ((0 <= w)%Q -> (0 <= width (stress_workload_bucket_init b1 w))%Q)
  /\ (forall slice_us : Z,
        0 <= slice_us <= 10000000 -> slice_us mod 5 = 0 ->
        (w == inject_Z slice_us)%Q ->
        (width (stress_workload_bucket_init b1 w) == inject_Z slice_us / 20)%Q)
  /\ ~ (width (stress_workload_bucket_init b1 1002) == 1002 / 20)%Q.
Proof.
  intros H1 H2.
  assert (Hinit : forall b w', length (bucket b) = 20%nat ->
            stress_workload_bucket_init b w'
            = MkBucket (fl (w' / 20)) (replicate 20 0) 0).
  { intros b w' Hb. destruct (bucket_init_cells b w' Hb) as (Hc & Ho & Hw).
    destruct (stress_workload_bucket_init b w') as [wd cells ov].
    simpl in Hc, Ho, Hw. now subst. }
  rewrite !(Hinit b1) by exact H1. rewrite (Hinit b2 w H2).
  split; [reflexivity|]. split; [reflexivity|]. split; [reflexivity|].
  cbn [width]. split; [|split].
  - intros Hw. apply fl_nonneg. apply Qle_shift_div_l; [reflexivity|].
    now rewrite Qmult_0_l.
  - intros slice_us Hs H5 Hw.
    assert (Ht : slice_us = 5 * (slice_us / 5))
      by (pose proof (Z.div_mod slice_us 5 ltac:(lia)); lia).
    set (t := slice_us / 5) in *.
    assert (Heq : (w / 20 == inject_Z t * 2 ^ (-2))%Q).
    { rewrite Hw, Ht, inject_Z_mult. change (2 ^ (-2))%Q with (1 # 4)%Q.
      field. }
    rewrite (fl_comp _ _ Heq), fl_double by lia.
    rewrite Ht, inject_Z_mult. change (2 ^ (-2))%Q with (1 # 4)%Q. field.
  - vm_compute. discriminate.
Qed.

Lemma bucket_init_resets_witness :
  let b1 := MkBucket 3 (replicate 20 17) 9 in
  let b2 := MkBucket 0 (replicate 20 0) 0 in
  stress_workload_bucket_init b1 100000 = stress_workload_bucket_init b2 100000
  /\ (width (stress_workload_bucket_init b1 100000) == 5000)%Q.
Proof.
  intros b1 b2.
  destruct (bucket_init_resets b1 b2 100000 eq_refl eq_refl)
    as (H1 & _ & _ & _ & H5 & _).
  split; [exact H1|].
  rewrite (H5 100000); [reflexivity|lia|reflexivity|reflexivity].
Defined.

Lemma account_comm (b : stress_workload_bucket_t) (v1 v2 : Q) :
  stress_workload_bucket_account (stress_workload_bucket_account b v1) v2
  = stress_workload_bucket_account (stress_workload_bucket_account b v2) v1.
Proof.
  assert (Hw : forall b' v, width (stress_workload_bucket_account b' v)
                            = width b').
  { intros b' v. unfold stress_workload_bucket_account.
    now destruct (_ <? NUM_BUCKETS). }
  unfold stress_workload_bucket_account at 1 3. rewrite !Hw.
  set (i1 := if double_to_int (fl (v1 / width b)) <? 0 then 0
             else double_to_int (fl (v1 / width b))).
  set (i2 := if double_to_int (fl (v2 / width b)) <? 0 then 0
             else double_to_int (fl (v2 / width b))).
  unfold stress_workload_bucket_account. fold i1 i2.
  destruct (i1 <? NUM_BUCKETS) eqn:E1; destruct (i2 <? NUM_BUCKETS) eqn:E2;
    simpl; try reflexivity.
  f_equal. destruct (Nat.eq_dec (Z.to_nat i1) (Z.to_nat i2)) as [Heq|Hne].
  - now rewrite Heq.
  - rewrite !list_lookup_insert_ne by congruence.
    now apply list_insert_insert_ne.
Qed.

(** The histogram depends on the samples accounted, not on their order:
    two sequences with the same samples, each as many times, leave the
    same histogram. *)
Theorem account_order_irrelevant (values1 values2 : list Q) :
  Permutation values1 values2 ->
  forall b : stress_workload_bucket_t,
    fold_left stress_workload_bucket_account values1 b
    = fold_left stress_workload_bucket_account values2 b.
Proof.
  induction 1 as [|v l1 l2 Hp IH|v1 v2 l|l1 l2 l3 Hp1 IH1 Hp2 IH2];
    intros b; simpl.
  - reflexivity.
  - apply IH.
  - now rewrite account_comm.
  - now rewrite IH1.
Qed.

Lemma account_order_irrelevant_witness :
  fold_left stress_workload_bucket_account [12345%Q; 99%Q; 2500000%Q]
    (stress_workload_bucket_init (MkBucket 0 (replicate 20 0) 0) 100000)
  = fold_left stress_workload_bucket_account [2500000%Q; 12345%Q; 99%Q]
      (stress_workload_bucket_init (MkBucket 0 (replicate 20 0) 0) 100000).
Proof.
  apply account_order_irrelevant.
  symmetry. apply (Permutation_cons_append [12345%Q; 99%Q] 2500000%Q).
Defined.

(** A quotient below 20 selects a bucket. *)
Lemma account_quotient_below (b : stress_workload_bucket_t) (v : Q) :
  (fl (v / width b) < 20)%Q ->
  exists k : Z,
    0 <= k < 20 /\ stress_workload_bucket_account b v = bump_bucket b k.
Proof.
  intros Hq. rewrite account_at_floor. cbv zeta.
  assert (H : Qfloor (fl (v / width b)) < 20).
  { rewrite Zlt_Qlt. eapply Qle_lt_trans; [apply Qfloor_le|exact Hq]. }
  destruct (Z.ltb_spec (Qfloor (fl (v / width b))) 0).
  - exists 0. split; [lia|reflexivity].
  - exists (Qfloor (fl (v / width b))). split; [lia|].
    destruct (Z.ltb_spec (Qfloor (fl (v / width b))) 20); [reflexivity|lia].
Qed.

Lemma account_inside (b : stress_workload_bucket_t) (v : Q) :
  (0 < width b)%Q -> (0 <= v)%Q -> (v < 20 * width b)%Q ->
  exists k : Z,
    0 <= k < 20
    /\ (inject_Z k * width b <= v)%Q
    /\ (v < inject_Z (k + 1) * width b)%Q
    /\ (stress_workload_bucket_account b v = bump_bucket b k
        \/ (fl (v / width b) == inject_Z (k + 1))%Q
           /\ stress_workload_bucket_account b v
              = if k + 1 <? 20 then bump_bucket b (k + 1)
                else bump_overflow b).
Proof.
  intros Hw Hlo Hhi. set (k := Qfloor (v / width b)).
  assert (Hq : (v / width b * width b == v)%Q)
    by (field; intros E; rewrite E in Hw; discriminate).
  assert (Hk1 : (inject_Z k * width b <= v)%Q).
  { apply Qle_trans with (v / width b * width b)%Q.
    - apply Qmult_le_compat_r; [apply Qfloor_le|]. now apply Qlt_le_weak.
    - rewrite Hq. apply Qle_refl. }
  assert (Hk2 : (v < inject_Z (k + 1) * width b)%Q).
  { apply Qle_lt_trans with (v / width b * width b)%Q.
    - rewrite Hq. apply Qle_refl.
    - apply Qmult_lt_r; [exact Hw|]. apply Qlt_floor. }
  assert (Hk0 : 0 <= k).
  { unfold k. rewrite <- (Qfloor_Z 0). apply Qfloor_resp_le.
    apply Qle_shift_div_l; [exact Hw|]. now rewrite Qmult_0_l. }
  assert (Hk20 : k < 20).
  { rewrite Zlt_Qlt. eapply Qle_lt_trans; [apply Qfloor_le|].
    now apply Qlt_shift_div_r. }
  exists k. split; [lia|]. split; [exact Hk1|]. split; [exact Hk2|].
  destruct (account_in_bucket b v k Hw ltac:(lia) Hk1 Hk2)
    as (_ & Hle & Hin & Hnext).
  destruct (Qle_lt_or_eq _ _ Hle) as [Hlt|Heq].
  - left. now apply Hin.
  - right. split; [exact Heq|now apply Hnext].
Qed.

(** A start time is counted by where it falls in the slice of 20 widths.
    Before the start of the slice it is counted in the first bucket; at
    or past the end of the slice, as overflow; inside the slice, in the
    bucket of its twentieth or, when the double division rounds its
    quotient up to the next integer, in the cell after it.  The overflow
    counter only counts the start times that are past the end of the
    slice less [2 ^ (-48)] widths, the last place of a double below
    20. *)
Theorem account_by_slice (b : stress_workload_bucket_t) (v : Q) :
  (0 < width b)%Q ->
  in_ssize_t (fl (v / width b)) ->
  ((v < 0)%Q -> stress_workload_bucket_account b v = bump_bucket b 0)
  /\ ((0 <= v)%Q -> (v < 20 * width b)%Q ->
      exists k : Z,
        0 <= k < 20
        /\ (inject_Z k * width b <= v)%Q
        /\ (v < inject_Z (k + 1) * width b)%Q
        /\ (stress_workload_bucket_account b v = bump_bucket b k
            \/ (fl (v / width b) == inject_Z (k + 1))%Q
               /\ stress_workload_bucket_account b v
                  = if k + 1 <? 20 then bump_bucket b (k + 1)
                    else bump_overflow b))
  /\ ((20 * width b <= v)%Q ->
      stress_workload_bucket_account b v = bump_overflow b)
  /\ (stress_workload_bucket_account b v = bump_overflow b ->
      ((20 - 2 ^ (-48)) * width b < v)%Q).
Proof.
  intros Hw _. split; [now apply account_negative|].
  split; [now apply account_inside|].
  split; [now apply account_in_overflow|].
  intros Hov. apply Qnot_le_lt. intros Hle.
  assert (Hq : (fl (v / width b)
                <= inject_Z (20 * 2 ^ 48 - 1) * 2 ^ (-48))%Q).
  { apply fl_le_double; [lia|lia|].
    apply Qle_shift_div_r; [exact Hw|].
    eapply Qle_trans; [exact Hle|]. apply Qmult_le_compat_r;
      [|now apply Qlt_le_weak].
    apply Qle_lteq. right. vm_compute. reflexivity. }
  destruct (account_quotient_below b v) as (k & _ & Hk).
  - eapply Qle_lt_trans; [exact Hq|]. vm_compute. reflexivity.
  - rewrite Hk in Hov. now apply bump_bucket_not_overflow in Hov.
Qed.

Lemma account_by_slice_witness :
  let b := stress_workload_bucket_init (MkBucket 0 (replicate 20 0) 0) 1002 in
  (0 < width b)%Q
  /\ in_ssize_t (fl (1002 / width b))
  /\ (exists k : Z,
        0 <= k < 20
        /\ (inject_Z k * width b <= 1002)%Q
        /\ (1002 < inject_Z (k + 1) * width b)%Q
        /\ (stress_workload_bucket_account b 1002 = bump_bucket b k
            \/ (fl (1002 / width b) == inject_Z (k + 1))%Q
               /\ stress_workload_bucket_account b 1002
                  = if k + 1 <? 20 then bump_bucket b (k + 1)
                    else bump_overflow b))
  /\ stress_workload_bucket_account b (-7) = bump_bucket b 0.
Proof.
  intros b.
  assert (Hw : (0 < width b)%Q) by (vm_compute; reflexivity).
  assert (Hr : forall v : Q,
             - 2 ^ 63 <= double_to_int (fl (v / width b)) < 2 ^ 63 ->
             in_ssize_t (fl (v / width b))) by (intros v H; exact H).
  assert (Hr1 : in_ssize_t (fl (1002 / width b))).
  { apply Hr.
    assert (E : double_to_int (fl (1002 / width b)) = 20)
      by (vm_compute; reflexivity).
    rewrite E. lia. }
  assert (Hr2 : in_ssize_t (fl (-7 / width b))).
  { apply Hr.
    assert (E : double_to_int (fl (-7 / width b)) = 0)
      by (vm_compute; reflexivity).
    rewrite E. lia. }
  split; [exact Hw|]. split; [exact Hr1|]. split.
  - refine (proj1 (proj2 (account_by_slice b 1002 Hw Hr1)) _ _).
    + vm_compute. discriminate.
    + vm_compute. reflexivity.
  - exact (proj1 (account_by_slice b (-7) Hw Hr2) eq_refl).
Defined.

(** ** The lines of the report *)

Lemma rows_loop_rows (b : stress_workload_bucket_t) (total : Z)
    (count : nat) :
  forall i : nat,
    rows_loop count i b total = map (bucket_row b total) (seq i count).
Proof.
  induction count as [|count IH]; intros i; simpl.
  - reflexivity.
  - now rewrite IH.
Qed.

Lemma report_lookup (b : stress_workload_bucket_t) :
  (forall j : nat, (j < 20)%nat ->
     stress_workload_bucket_report b !! j
     = Some (bucket_row b (bucket_total b) j))
  /\ stress_workload_bucket_report b !! 20%nat
     = Some (MkRow (wrap64 (line_start b NUM_BUCKETS))
               None (overflow b) (percent (overflow b) (bucket_total b))).
Proof.
  unfold stress_workload_bucket_report. rewrite rows_loop_rows.
  change (trips 0 NUM_BUCKETS) with 20%nat. split.
  - intros j Hj. rewrite lookup_app_l by (rewrite length_map, length_seq; lia).
    rewrite list_lookup_fmap, lookup_seq_lt by lia. reflexivity.
  - rewrite lookup_app_r by (rewrite length_map, length_seq; lia).
    rewrite length_map, length_seq. reflexivity.
Qed.

Lemma map_lookup_seq (cells : list Z) :
  map (fun j => default 0 (cells !! j)) (seq 0 (length cells)) = cells.
Proof.
  induction cells as [|c cells IH] using rev_ind.
  - reflexivity.
  - rewrite length_app. simpl length. rewrite Nat.add_1_r, seq_S, map_app.
    cbn [map Nat.add]. rewrite lookup_app_r, Nat.sub_diag by lia.
    f_equal. rewrite <- IH at 2. apply map_ext_in. intros j Hj.
    apply in_seq in Hj. now rewrite lookup_app_l by lia.
Qed.

Lemma report_counts (b : stress_workload_bucket_t) :
  length (bucket b) = 20%nat ->
  map row_count (stress_workload_bucket_report b)
  = bucket b ++ [overflow b].
Proof.
  intros Hlen. unfold stress_workload_bucket_report.
  rewrite rows_loop_rows, map_app, map_map.
  change (trips 0 NUM_BUCKETS) with 20%nat. rewrite <- Hlen.
  f_equal. apply (map_lookup_seq (bucket b)).
Qed.

Lemma double_to_int_Z (x : Q) (z : Z) :
  0 <= z -> (x == inject_Z z)%Q -> double_to_int x = z.
Proof.
  intros Hz Hx. rewrite double_to_int_nonneg.
  - rewrite Hx. apply Qfloor_Z.
  - rewrite Hx. change 0%Q with (inject_Z 0). now rewrite <- Zle_Qle.
Qed.

(** The starts of the lines do not decrease. *)
Lemma line_start_mono (b : stress_workload_bucket_t) (i j : Z) :
  (0 <= width b)%Q -> 0 <= i <= j ->
  0 <= line_start b i <= line_start b j.
Proof.
  intros Hw Hij. unfold line_start.
  assert (H0 : forall k : Z, 0 <= k -> (0 <= inject_Z k * width b)%Q).
  { intros k Hk. apply Qmult_le_0_compat; [|exact Hw].
    change 0%Q with (inject_Z 0). now rewrite <- Zle_Qle. }
  rewrite !double_to_int_nonneg by (apply fl_nonneg, H0; lia).
  split.
  - rewrite <- (Qfloor_Z 0). apply Qfloor_resp_le, fl_nonneg, H0. lia.
  - apply Qfloor_resp_le, fl_mono; [apply H0; lia|].
    apply Qmult_le_compat_r; [|exact Hw]. rewrite <- Zle_Qle. lia.
Qed.

Lemma line_start_exact (b : stress_workload_bucket_t) (t i : Z) :
  0 <= t <= 500000 -> (width b == inject_Z t)%Q -> 0 <= i <= 20 ->
  line_start b i = i * t.
Proof.
  intros Ht Hw Hi. unfold line_start. apply double_to_int_Z; [nia|].
  assert (E : (inject_Z i * width b == inject_Z (i * t))%Q)
    by (rewrite Hw, inject_Z_mult; reflexivity).
  rewrite (fl_comp _ _ E). apply fl_Z. nia.
Qed.

(** The ranges the report prints, for a histogram whose width is not
    negative and small enough for the conversions to 64 bits.  Line [j]
    starts at the truncated double product [j * width]; it ends one
    before the start of the next line, in 64 bits, the overflow line
    being the next line of bucket 19; the overflow line has no end.  The
    first line starts at 0 and the starts do not decrease, so a line
    whose successor starts at 0 ends at [2 ^ 64 - 1].  When the width is
    a whole number [t] of microseconds, as for a slice of [20 * t], the
    products are exact and line [j] is [j * t .. (j + 1) * t - 1]; with
    the width stored for a slice of 164 microseconds line 15 starts at
    122, not at [15 * 164 / 20 = 123]. *)
Theorem report_ranges (b : stress_workload_bucket_t) :
  (0 <= width b)%Q ->
  in_uint64_t (fl (inject_Z 20 * width b)) ->
  (forall (j : nat) (r : report_row),
      (j < 20)%nat ->
      stress_workload_bucket_report b !! j = Some r ->
      row_low r = line_start b (Z.of_nat j)
      /\ row_high r = Some (wrap64 (line_start b (Z.of_nat j + 1) - 1))
      /\ (1 <= line_start b (Z.of_nat j + 1) ->
          row_high r = Some (line_start b (Z.of_nat j + 1) - 1))
      /\ (line_start b (Z.of_nat j + 1) = 0 ->
          row_low r = 0 /\ row_high r = Some (2 ^ 64 - 1)))
  /\ (forall (j : nat) (r r' : report_row),
        (j < 20)%nat ->
        stress_workload_bucket_report b !! j = Some r ->
        stress_workload_bucket_report b !! S j = Some r' ->
        row_high r = Some (wrap64 (row_low r' - 1)))
  /\ (forall r : report_row,
        stress_workload_bucket_report b !! 0%nat = Some r -> row_low r = 0)
  /\ (forall r : report_row,
        stress_workload_bucket_report b !! 20%nat = Some r ->
        row_low r = line_start b 20 /\ row_high r = None)
  /\ (forall i j : Z,
        0 <= i <= j -> j <= 20 ->
        0 <= line_start b i <= line_start b j /\ line_start b j < 2 ^ 64)
  /\ (forall t : Z,
        0 <= t <= 500000 -> (width b == inject_Z t)%Q ->
        forall i : Z, 0 <= i <= 20 -> line_start b i = i * t)
  /\ (line_start (stress_workload_bucket_init b 164) 15 = 122
      /\ 15 * 164 / 20 = 123).
Proof.
  intros Hw Hr. destruct (report_lookup b) as [Hrows Hlast].
  assert (Hstart : forall i j : Z,
             0 <= i <= j -> j <= 20 ->
             0 <= line_start b i <= line_start b j
             /\ line_start b j < 2 ^ 64).
  { intros i j Hij Hj. split; [now apply line_start_mono|].
    destruct (line_start_mono b j 20 Hw ltac:(lia)) as [_ H].
    unfold in_uint64_t in Hr. fold (line_start b 20) in Hr. lia. }
  assert (Hzero : line_start b 0 = 0).
  { unfold line_start. apply double_to_int_Z; [lia|].
    rewrite fl_zero; [reflexivity|]. apply Qmult_0_l. }
  assert (Hmain : forall (j : nat) (r : report_row),
             (j < 20)%nat ->
             stress_workload_bucket_report b !! j = Some r ->
             row_low r = line_start b (Z.of_nat j)
             /\ row_high r
                = Some (wrap64 (line_start b (Z.of_nat j + 1) - 1))).
  { intros j r Hj Hrow. rewrite (Hrows j Hj) in Hrow. injection Hrow as <-.
    unfold bucket_row. cbn [row_low row_high].
    fold (line_start b (Z.of_nat j)). fold (line_start b (Z.of_nat j + 1)).
    destruct (Hstart (Z.of_nat j) (Z.of_nat j + 1) ltac:(lia) ltac:(lia))
      as [B1 B2].
    rewrite (wrap64_small (line_start b (Z.of_nat j))),
      (wrap64_small (line_start b (Z.of_nat j + 1))) by lia.
    now split. }
  split; [|split; [|split; [|split; [|split; [|split]]]]].
  - intros j r Hj Hrow. destruct (Hmain j r Hj Hrow) as [E1 E2].
    destruct (Hstart (Z.of_nat j) (Z.of_nat j + 1) ltac:(lia) ltac:(lia))
      as [B1 B2].
    split; [exact E1|]. split; [exact E2|]. split.
    + intros H1. rewrite E2, wrap64_small by lia. reflexivity.
    + intros H0. rewrite E1, E2, H0. split; [lia|reflexivity].
  - intros j r r' Hj Hrow Hrow'. destruct (Hmain j r Hj Hrow) as [_ E2].
    rewrite E2. f_equal. f_equal. f_equal.
    destruct (Nat.eq_dec (S j) 20%nat) as [E|E].
    + rewrite E, Hlast in Hrow'. injection Hrow' as <-. cbn [row_low].
      destruct (Hstart 20 20 ltac:(lia) ltac:(lia)) as [B1 B2].
      unfold NUM_BUCKETS. rewrite wrap64_small by lia. f_equal. lia.
    + destruct (Hmain (S j) r' ltac:(lia) Hrow') as [E1 _].
      rewrite E1. f_equal. lia.
  - intros r Hrow. destruct (Hmain 0%nat r ltac:(lia) Hrow) as [E1 _].
    rewrite E1. exact Hzero.
  - intros r Hrow. rewrite Hlast in Hrow. injection Hrow as <-.
    cbn [row_low row_high]. split; [|reflexivity].
    destruct (Hstart 20 20 ltac:(lia) ltac:(lia)) as [B1 B2].
    unfold NUM_BUCKETS. apply wrap64_small. lia.
  - exact Hstart.
  - intros t Ht Hwt i Hi. now apply line_start_exact.
  - split; [vm_compute; reflexivity|reflexivity].
Qed.

Lemma report_ranges_witness :
  let b := stress_workload_bucket_account
             (stress_workload_bucket_init (MkBucket 0 (replicate 20 0) 0)
                100000) 12345 in
  (0 <= width b)%Q
  /\ in_uint64_t (fl (inject_Z 20 * width b))
  /\ forall r : report_row,
       stress_workload_bucket_report b !! 20%nat = Some r ->
       row_low r = 100000 /\ row_high r = None.
Proof.
  intros b.
  assert (Hw : (0 <= width b)%Q) by (vm_compute; discriminate).
  assert (Hr : in_uint64_t (fl (inject_Z 20 * width b))).
  { assert (E : double_to_int (fl (inject_Z 20 * width b)) = 100000)
      by (vm_compute; reflexivity).
    unfold in_uint64_t. rewrite E. lia. }
  split; [exact Hw|]. split; [exact Hr|].
  destruct (report_ranges b Hw Hr) as (_ & _ & _ & H20 & _ & Hexact & _).
  intros r Hrow. destruct (H20 r Hrow) as [E1 E2].
  split; [|exact E2].
  rewrite E1. apply (Hexact 5000); [lia|vm_compute; reflexivity|lia].
Defined.

Lemma Qsum_scaled (t : Q) (cells : list Z) :
  ~ (t == 0)%Q ->
  (Qsum (map (fun c => 100 * inject_Z c / t) cells)
   == 100 * inject_Z (foldr Z.add 0%Z cells) / t)%Q.
Proof.
  intros Ht. induction cells as [|c cells IH]; simpl.
  - field. exact Ht.
  - fold (Qsum (map (fun c => 100 * inject_Z c / t) cells))%Q.
    rewrite IH, inject_Z_plus. field. exact Ht.
Qed.

Lemma sum_app (l1 l2 : list Z) :
  foldr Z.add 0 (l1 ++ l2) = foldr Z.add 0 l1 + foldr Z.add 0 l2.
Proof. induction l1 as [|a l1 IH]; simpl; lia. Qed.

(** The report of a histogram that holds samples prints, line by line, the
    20 bucket counters and the overflow counter; every percentage is
    finite, and the 21 percentages add up to 100. *)
Theorem report_percentages_total (b : stress_workload_bucket_t) :
  cells_ok b ->
  0 < bucket_samples b < 2 ^ 64 ->
  map row_count (stress_workload_bucket_report b) = bucket b ++ [overflow b]
  /\ Forall (fun r => fp_is_finite (row_percent r) = true)
       (stress_workload_bucket_report b)
  /\ (Qsum (map (fun r => fp_value (row_percent r))
              (stress_workload_bucket_report b)) == 100)%Q.
Proof.
  intros Hok Hs. pose proof Hok as (Hlen & _ & _).
  pose proof (bucket_total_samples b Hok ltac:(lia)) as Ht.
  destruct (report_rows b) as [_ Hf].
  assert (Hfin : Forall (fun r => row_percent r
                           = FpFinite (100 * inject_Z (row_count r)
                                       / inject_Z (bucket_total b)))
                   (stress_workload_bucket_report b)).
  { eapply Forall_impl; [exact Hf|]. intros r Hr. rewrite Hr.
    apply percent_finite. lia. }
  split; [now apply report_counts|]. split.
  - eapply Forall_impl; [exact Hfin|]. intros r Hr. now rewrite Hr.
  - assert (E : map (fun r => fp_value (row_percent r))
                  (stress_workload_bucket_report b)
                = map (fun c => (100 * inject_Z c
                                 / inject_Z (bucket_total b))%Q)
                    (map row_count (stress_workload_bucket_report b))).
    { rewrite map_map. apply map_ext_Forall.
      eapply Forall_impl; [exact Hfin|]. intros r Hr. now rewrite Hr. }
    assert (Hnz : ~ (inject_Z (bucket_total b) == 0)%Q).
    { unfold Qeq. simpl. lia. }
    rewrite E, report_counts, Qsum_scaled by assumption.
    rewrite sum_app. simpl foldr. rewrite Z.add_0_r.
    fold (bucket_samples b). rewrite <- Ht. field. exact Hnz.
Qed.

Lemma report_percentages_total_witness :
  let b := fold_left stress_workload_bucket_account
             [12345%Q; 99999%Q; 100000%Q]
             (stress_workload_bucket_init (MkBucket 0 (replicate 20 0) 0)
                100000) in
  cells_ok b
  /\ (Qsum (map (fun r => fp_value (row_percent r))
              (stress_workload_bucket_report b)) == 100)%Q.
Proof.
  intros b.
  assert (Hok : cells_ok b).
  { split; [reflexivity|]. split; [|vm_compute; discriminate].
    vm_compute. repeat constructor; discriminate. }
  split; [exact Hok|].
  refine (proj2 (proj2 (report_percentages_total b Hok _))).
  split; reflexivity.
Defined.

(** ** The busy-work kernels and their deadline *)

Lemma Qlt_bool_false (t t_end : Q) :
  Qlt_bool t t_end = false -> (t_end <= t)%Q.
Proof.
  unfold Qlt_bool. intros H. apply Qle_bool_iff.
  now destruct (Qle_bool t_end t).
Qed.

(** A loop on the clock that returns has polled the clock, and its last
    poll read the deadline or later. *)
Lemma while_now_past {St : Type} (t_end : Q) (body : Q -> St -> M St) :
  (forall t s, preserves same_clock (body t s)) ->
  forall (fuel : nat) (s s' : St) (w w' : world),
    while_now fuel t_end body s w = (Some s', w') ->
    w_clock w' = w_clock w
    /\ (w_polls w < w_polls w')%nat
    /\ (t_end <= w_clock w (w_polls w' - 1))%Q.
Proof.
  intros Hp. induction fuel as [|fuel IH]; intros s s' w w' H;
    [discriminate|].
  rewrite while_now_S in H. bind_inv H as t w1 E1.
  unfold stress_time_now in E1. injection E1 as <- <-.
  destruct (Qlt_bool (w_clock w (w_polls w)) t_end) eqn:E.
  - bind_inv H as s1 w2 E2.
    match type of E2 with
    | body ?t ?s ?w0 = _ =>
        pose proof (Hp t s w0) as [Hc Hpl]; rewrite E2 in Hc, Hpl
    end.
    simpl in Hc, Hpl. apply IH in H. destruct H as (Hc' & Hpl' & Hend).
    rewrite Hc in Hc', Hend. split; [exact Hc'|]. split; [lia|exact Hend].
  - injection H as <- <-. simpl. rewrite Nat.sub_0_r.
    split; [reflexivity|]. split; [lia|]. now apply Qlt_bool_false.
Qed.

Lemma same_log_waste_time (fuel : nat) (run_duration_sec : Q)
    (buffer : list Z) (buffer_len : Z) :
  preserves same_log
    (stress_workload_waste_time fuel run_duration_sec buffer buffer_len).
Proof.
  apply preserves_waste_time; unfold same_log.
  - intros w. reflexivity.
  - intros a b c H1 H2. congruence.
  - intros w. reflexivity.
  - intros A f w. unfold mwc. now destruct (f (w_mwc w)).
  - intros w. reflexivity.
  - intros w. reflexivity.
Qed.

Ltac same_clock_body :=
  first
    [ apply same_clock_mixed_step
    | now apply same_clock_silent
    | apply (preserves_bind _ same_clock_trans);
        [apply same_clock_mwc|intros ?; now apply same_clock_silent] ].

Lemma waste_time_past (fuel : nat) (run_duration_sec : Q) (buffer : list Z)
    (buffer_len : Z) (buffer' : list Z) (w w' : world) :
  stress_workload_waste_time fuel run_duration_sec buffer buffer_len w
  = (Some buffer', w') ->
  w_clock w' = w_clock w
  /\ (w_polls w + 2 <= w_polls w')%nat
  /\ (fl (w_clock w (w_polls w) + run_duration_sec)
      <= w_clock w (w_polls w' - 1))%Q.
Proof.
  intros H. unfold stress_workload_waste_time in H.
  bind_inv H as now w1 E1. unfold stress_time_now in E1.
  injection E1 as <- <-.
  bind_inv H as k w2 E2.
  assert (Hw2 : w_clock w2 = w_clock w /\ w_polls w2 = S (w_polls w)).
  { unfold mwc in E2. simpl in E2.
    destruct (stress_mwc8modn 8 (w_mwc w)) as [k0 g].
    injection E2 as _ <-. now split. }
  destruct Hw2 as [Hc2 Hp2].
  assert (Hloop : forall (body : Q -> list Z -> M (list Z)) (b0 b1 : list Z)
                         (w0 w3 : world),
             (forall t s, preserves same_clock (body t s)) ->
             w_clock w0 = w_clock w -> (S (w_polls w) <= w_polls w0)%nat ->
             while_now fuel (fl (w_clock w (w_polls w) + run_duration_sec))
               body b0 w0 = (Some b1, w3) ->
             w_clock w3 = w_clock w
             /\ (w_polls w + 2 <= w_polls w3)%nat
             /\ (fl (w_clock w (w_polls w) + run_duration_sec)
                 <= w_clock w (w_polls w3 - 1))%Q).
  { intros body b0 b1 w0 w3 Hb Hc0 Hp0 Hrun.
    destruct (while_now_past _ body Hb _ _ _ _ _ Hrun) as (Hc & Hp & He).
    rewrite Hc0 in Hc, He. split; [exact Hc|]. split; [lia|exact He]. }
  repeat match type of H with
         | (if ?c then _ else _) _ = _ => destruct c
         end;
    try (eapply Hloop; [| | |exact H];
         [intros t s; same_clock_body|exact Hc2|lia]).
  bind_inv H as b1 w3 E3.
  eapply Hloop in E3; [|intros t s; same_clock_body|exact Hc2|lia].
  destruct E3 as (Hc3 & Hp3 & _).
  eapply Hloop; [| | |exact H];
    [intros t s; same_clock_body|exact Hc3|lia].
Qed.

(** A busy-work kernel does not return before the deadline it computed:
    when [stress_workload_waste_time] returns, the last reading it took
    of the clock is not before [t_end], the double sum of its first
    reading and [run_duration_sec].  It polls the clock twice or more,
    signals no operation and prints nothing.  For a first reading that is
    a double and a duration that is not negative the deadline is not
    before the first reading; the rounding of the sum can make it the
    first reading itself (a duration of [1e-8] seconds at a reading of
    [1761840000.0]), and the kernel then returns at its next poll.  On a
    clock that gets past every deadline the kernel returns, with any fuel
    from some amount on. *)
Theorem waste_time_until_deadline (run_duration_sec : Q) (buffer : list Z)
    (buffer_len : Z) (w : world) :
  (forall (fuel : nat) (buffer' : list Z) (w' : world),
      stress_workload_waste_time fuel run_duration_sec buffer buffer_len w
      = (Some buffer', w') ->
      (w_polls w + 2 <= w_polls w')%nat
      /\ (fl (w_clock w (w_polls w) + run_duration_sec)
          <= w_clock w (w_polls w' - 1))%Q
      /\ w_clock w' = w_clock w
      /\ w_bogo w' = w_bogo w
      /\ w_log w' = w_log w)
  /\ (is_double (w_clock w (w_polls w)) -> (0 <= run_duration_sec)%Q ->
      (w_clock w (w_polls w)
       <= fl (w_clock w (w_polls w) + run_duration_sec))%Q)
  /\ (clock_passes (w_clock w) ->
      exists fuel0 : nat,
        forall fuel : nat, (fuel0 <= fuel)%nat ->
          exists (buffer' : list Z) (w' : world),
            stress_workload_waste_time fuel run_duration_sec buffer
              buffer_len w = (Some buffer', w'))
  /\ (fl (1761840000 + fl (1 / 100000000)) == 1761840000)%Q.
Proof.
  split; [|split; [|split]].
  - intros fuel buffer' w' H.
    destruct (waste_time_past _ _ _ _ _ _ _ H) as (Hc & Hp & He).
    pose proof (same_bogo_waste_time fuel run_duration_sec buffer buffer_len
                  w) as Hb.
    pose proof (same_log_waste_time fuel run_duration_sec buffer buffer_len
                  w) as Hl.
    rewrite H in Hb, Hl. now repeat split.
  - intros (m & g & Hm & Hg & E) Hd. rewrite E at 1.
    apply fl_ge_double; [exact Hm|lia|]. rewrite <- E.
    rewrite <- (Qplus_0_r (w_clock w (w_polls w))) at 1.
    now apply Qplus_le_r.
  - intros Hpass.
    destruct (waste_time_returns run_duration_sec buffer buffer_len w Hpass)
      as (fuel0 & b0 & H0).
    exists fuel0. intros fuel Hfuel.
    rewrite (extends_waste_time fuel0 fuel run_duration_sec buffer
               buffer_len Hfuel w b0 H0).
    destruct (stress_workload_waste_time fuel0 run_duration_sec buffer
                buffer_len w) as [[b1|] w1]; [|discriminate].
    now exists b1, w1.
  - vm_compute. reflexivity.
Qed.

Lemma waste_time_until_deadline_witness :
  let w := example_world example_clock example_tape
             (MkSettings None None None None) in
  is_double (w_clock w (w_polls w))
  /\ clock_passes (w_clock w)
  /\ (w_clock w (w_polls w) <= fl (w_clock w (w_polls w) + (3 # 10000)))%Q
  /\ exists fuel0 : nat,
       forall fuel : nat, (fuel0 <= fuel)%nat ->
         exists (buffer' : list Z) (w' : world),
           stress_workload_waste_time fuel (3 # 10000) [0; 0] 2 w
           = (Some buffer', w').
Proof.
  intros w.
  assert (Hd : is_double (w_clock w (w_polls w))).
  { exists 0, 0. split; [lia|]. split; [lia|]. reflexivity. }
  split; [exact Hd|]. split; [exact example_clock_passes|].
  destruct (waste_time_until_deadline (3 # 10000) [0; 0] 2 w)
    as (_ & H2 & H3 & _).
  split.
  - apply (H2 Hd). discriminate.
  - exact (H3 example_clock_passes).
Defined.

(** ** What a slice leaves behind *)

Lemma quanta_loop_log (fuel : nat) (t_begin run_duration_sec : Q)
    (workload : list stress_workload_t) (buffer_len : Z) (count : nat) :
  forall (i : nat) (b : stress_workload_bucket_t) (buffer : list Z)
         (w w' : world) (r : stress_workload_bucket_t * list Z),
    quanta_loop fuel count i t_begin run_duration_sec workload b buffer
      buffer_len w = (Some r, w') ->
    exists evs : list event,
      w_log w' = evs ++ w_log w
      /\ Forall (fun e => is_nanosleep e = true) evs
      /\ (length evs <= count)%nat.
Proof.
  induction count as [|count IH]; intros i b buffer w w' r H;
    cbn [quanta_loop] in H.
  - injection H as _ <-. exists [].
    split; [reflexivity|split; [constructor|simpl; lia]].
  - bind_inv H as now1 w1 E1. world_of E1.
    bind_inv H as u2 w2 E2.
    assert (Hl2 : exists e2, w_log w2 = e2 ++ w_log w
                             /\ Forall (fun e => is_nanosleep e = true) e2
                             /\ (length e2 <= 1)%nat).
    { match type of E2 with
      | (if ?c then _ else _) _ = _ => destruct c
      end; world_of E2; rewrite <- E2, <- E1; simpl.
      - eexists [_].
        split; [reflexivity|split; [repeat constructor|simpl; lia]].
      - exists []. split; [reflexivity|split; [constructor|simpl; lia]]. }
    destruct Hl2 as (e2 & Hl2 & Hf2 & Hn2).
    bind_inv H as now3 w3 E3. world_of E3.
    bind_inv H as buffer4 w4 E4.
    assert (Hl4 : w_log w4 = w_log w3).
    { destruct (Qlt_bool 0 run_duration_sec).
      - pose proof (same_log_waste_time fuel run_duration_sec buffer
                      buffer_len w3) as Hs.
        now rewrite E4 in Hs.
      - world_of E4. now rewrite <- E4. }
    bind_inv H as u5 w5 E5. world_of E5.
    apply IH in H. destruct H as (evs & Hlog & Hf & Hn).
    exists (evs ++ e2). split; [|split].
    + rewrite Hlog, <- E5. simpl. rewrite Hl4, <- E3. simpl.
      rewrite Hl2. now rewrite app_assoc.
    + apply Forall_app. now split.
    + rewrite length_app. lia.
Qed.

(** A slice that returns has printed nothing and asked the host for
    nothing but sleeps, one per quantum at most and one more at its end;
    it has not asked whether to keep running. *)
Theorem exercise_only_sleeps (fuel : nat) (args : stress_args_t)
    (workload_load workload_slice_us workload_quanta_us max_quanta
       workload_dist : Z) (mem : memory) (buffer_len : Z) (w w' : world)
    (r : exit_status * memory) :
  stress_workload_exercise fuel args workload_load workload_slice_us
    workload_quanta_us max_quanta workload_dist mem buffer_len w
  = (Some r, w') ->
  (exists evs : list event,
      w_log w' = evs ++ w_log w
      /\ Forall (fun e => is_nanosleep e = true) evs
      /\ (length evs <= trips 0 max_quanta + 1)%nat)
  /\ w_asked w' = w_asked w
  /\ w_settings w' = w_settings w.
Proof.
  intros H. split.
  - unfold stress_workload_exercise in H.
    bind_inv H as t0 w1 E1. world_of E1.
    bind_inv H as workload w2 E2.
    assert (Hl2 : w_log w2 = w_log w1).
    { unfold mwc in E2.
      match type of E2 with
      | (let (_, _) := ?f in _) = _ => destruct f
      end. world_of E2. now rewrite <- E2. }
    bind_inv H as t_begin w3 E3. world_of E3.
    bind_inv H as r4 w4 E4. apply quanta_loop_log in E4.
    destruct E4 as (evs & Hlog & Hf & Hn).
    bind_inv H as now5 w5 E5. world_of E5.
    bind_inv H as u6 w6 E6.
    injection H as _ <-.
    assert (Hbase : w_log w4 = evs ++ w_log w).
    { rewrite Hlog, <- E3. simpl. rewrite Hl2, <- E1. reflexivity. }
    match type of E6 with
    | (if ?c then _ else _) _ = _ => destruct c
    end; world_of E6; rewrite <- E6, <- E5; simpl; rewrite Hbase.
    + eexists (_ :: evs). split; [reflexivity|].
      split; [constructor; [reflexivity|exact Hf]|simpl; lia].
    + exists evs. split; [reflexivity|]. split; [exact Hf|lia].
  - pose proof (preserves_exercise
                  (fun a b => w_asked b = w_asked a
                              /\ w_settings b = w_settings a)) as Hp.
    specialize (Hp ltac:(intros; split; reflexivity)
                   ltac:(intros a b c [? ?] [? ?]; split; congruence)
                   ltac:(intros w0; split; reflexivity)).
    specialize (Hp ltac:(intros A f w0; unfold mwc;
                         destruct (f (w_mwc w0)); split; reflexivity)
                   ltac:(intros w0; split; reflexivity)
                   ltac:(intros w0; split; reflexivity)
                   ltac:(intros ns w0; split; reflexivity)
                   ltac:(intros w0; split; reflexivity)).
    specialize (Hp fuel args workload_load workload_slice_us
                  workload_quanta_us max_quanta workload_dist mem buffer_len
                  w).
    rewrite H in Hp. exact Hp.
Qed.

Lemma exercise_only_sleeps_witness :
  let w := example_world example_clock example_tape
             (MkSettings None (Some 100) (Some 50) None) in
  let mem := MkMemory (replicate 2 (MkWorkload 0))
               (stress_workload_bucket_init (MkBucket 0 (replicate 20 0) 0)
                  100)
               (replicate 4 0) in
  exists (r : exit_status * memory) (w' : world),
    stress_workload_exercise 40 (MkArgs 0) 30 100 50 2
      STRESS_WORKLOAD_DIST_CLUSTER mem 4 w = (Some r, w')
    /\ w_asked w' = w_asked w.
Proof.
  intros w mem.
  destruct (stress_workload_exercise 40 (MkArgs 0) 30 100 50 2
              STRESS_WORKLOAD_DIST_CLUSTER mem 4 w) as [[r|] w'] eqn:E;
    [|vm_compute in E; discriminate].
  exists r, w'. split; [reflexivity|].
  exact (proj1 (proj2 (exercise_only_sleeps _ _ _ _ _ _ _ _ _ _ _ _ E))).
Defined.

Lemma fill_loop_length (draw : mwc_t -> Z * mwc_t) (count : nat) :
  forall (i : nat) (workload : list stress_workload_t) (g : mwc_t),
    length (fst (fill_loop draw count i workload g)) = length workload.
Proof.
  induction count as [|count IH]; intros i workload g; simpl.
  - reflexivity.
  - destruct (draw g) as [v g']. rewrite IH. apply length_insert.
Qed.

Lemma stress_workload_fill_length (workload_dist slice_us quanta_us n : Z)
    (workload : list stress_workload_t) (g : mwc_t) :
  length (fst (stress_workload_fill workload_dist slice_us quanta_us n
                 workload g)) = length workload.
Proof.
  unfold stress_workload_fill.
  repeat match goal with
         | |- context [if ?c then _ else _] => destruct c
         end; try apply fill_loop_length; [|reflexivity].
  destruct (stress_mwc32modn (slice_us / 2) g) as [offset g0].
  pose proof (fill_loop_length (cluster_when quanta_us offset)
                (trips 0 (wrap32 (n * 2) / 3)) 0 workload g0) as H1.
  destruct (fill_loop (cluster_when quanta_us offset) _ 0 workload g0)
    as [workload1 g1]. simpl in H1.
  now rewrite fill_loop_length.
Qed.

(** The array a slice leaves is the array the sampler filled, sorted: it
    has the cells it had, it is ascending by offset, and with a
    configuration the stressor accepts and a distribution of the table
    every offset in it is inside the slice. *)
Theorem exercise_leaves_sorted_array (fuel : nat) (args : stress_args_t)
    (workload_load workload_slice_us workload_quanta_us max_quanta
       workload_dist : Z) (mem : memory) (buffer_len : Z) (w w' : world)
    (r : exit_status * memory) :
  stress_workload_exercise fuel args workload_load workload_slice_us
    workload_quanta_us max_quanta workload_dist mem buffer_len w
  = (Some r, w') ->
  length (m_workload mem) = Z.to_nat max_quanta ->
  Permutation
    (fst (stress_workload_fill workload_dist workload_slice_us
            workload_quanta_us max_quanta (m_workload mem) (w_mwc w)))
    (m_workload (snd r))
  /\ length (m_workload (snd r)) = length (m_workload mem)
  /\ (forall (i : nat) (q1 q2 : stress_workload_t),
        m_workload (snd r) !! i = Some q1 ->
        m_workload (snd r) !! S i = Some q2 ->
        when_us q1 <= when_us q2)
  /\ (valid_config workload_slice_us workload_quanta_us ->
      max_quanta = quanta_count workload_slice_us workload_quanta_us ->
      1 <= workload_dist <= 4 ->
      Forall (fun q => 0 <= when_us q < workload_slice_us)
        (m_workload (snd r))).
Proof.
  intros H Hlen. unfold stress_workload_exercise in H.
  bind_inv H as t0 w1 E1. world_of E1.
  bind_inv H as workload w2 E2.
  assert (Hwl : workload
                = fst (stress_workload_fill workload_dist workload_slice_us
                         workload_quanta_us max_quanta (m_workload mem)
                         (w_mwc w))).
  { unfold mwc in E2. rewrite <- E1 in E2. simpl in E2.
    destruct (stress_workload_fill _ _ _ _ _ _) as [wl g].
    now injection E2 as <- _. }
  bind_inv H as t_begin w3 E3. bind_inv H as r4 w4 E4.
  bind_inv H as now5 w5 E5. bind_inv H as u6 w6 E6.
  injection H as <- _. cbn [snd m_workload].
  assert (Hl : length workload = Z.to_nat max_quanta)
    by (rewrite Hwl, stress_workload_fill_length; exact Hlen).
  assert (Hq : qsort workload max_quanta stress_workload_cmp
               = qsort_all stress_workload_cmp workload).
  { unfold qsort. now rewrite take_ge, drop_ge, app_nil_r by lia. }
  rewrite Hq.
  pose proof (qsort_all_perm stress_workload_cmp workload) as Hperm.
  split; [now rewrite <- Hwl|]. split; [|split].
  - rewrite <- (Permutation_length Hperm). lia.
  - intros i q1 q2 H1 H2. apply stress_workload_cmp_le.
    revert i q1 q2 H1 H2.
    apply (Sorted_adjacent (compar_le stress_workload_cmp)).
    apply qsort_all_sorted. intros x y.
    rewrite !stress_workload_cmp_le. lia.
  - intros Hv Hn Hd. eapply Permutation_Forall; [exact Hperm|].
    rewrite Hwl, Hn. apply fill_within_slice; [assumption|assumption|].
    now rewrite <- Hn.
Qed.

Lemma exercise_leaves_sorted_array_witness :
  let w := example_world example_clock example_tape
             (MkSettings None (Some 100) (Some 50) None) in
  let mem := MkMemory (replicate 2 (MkWorkload 0))
               (stress_workload_bucket_init (MkBucket 0 (replicate 20 0) 0)
                  100)
               (replicate 4 0) in
  exists (r : exit_status * memory) (w' : world),
    stress_workload_exercise 40 (MkArgs 0) 30 100 50 2
      STRESS_WORKLOAD_DIST_CLUSTER mem 4 w = (Some r, w')
    /\ length (m_workload (snd r)) = length (m_workload mem).
Proof.
  intros w mem.
  destruct (stress_workload_exercise 40 (MkArgs 0) 30 100 50 2
              STRESS_WORKLOAD_DIST_CLUSTER mem 4 w) as [[r|] w'] eqn:E;
    [|vm_compute in E; discriminate].
  exists r, w'. split; [reflexivity|].
  exact (proj1 (proj2 (exercise_leaves_sorted_array _ _ _ _ _ _ _ _ _ _ _ _
                         E eq_refl))).
Defined.

(** ** The stressor from its first slice to its report *)

Lemma extends_exercise_loop (fuel fuel' : nat) (args : stress_args_t)
    (workload_load workload_slice_us workload_quanta_us max_quanta
       workload_dist : Z) (buffer_len : Z) (rounds : nat) :
  (fuel <= fuel')%nat ->
  forall (rounds' : nat) (mem : memory),
    (rounds <= rounds')%nat ->
    extends
      (exercise_loop fuel rounds args workload_load workload_slice_us
         workload_quanta_us max_quanta workload_dist mem buffer_len)
      (exercise_loop fuel' rounds' args workload_load workload_slice_us
         workload_quanta_us max_quanta workload_dist mem buffer_len).
Proof.
  intros Hfuel. induction rounds as [|rounds IH]; intros rounds' mem Hle.
  - intros w a H. discriminate.
  - destruct rounds' as [|rounds']; [lia|]. cbn [exercise_loop].
    apply extends_bind; [now apply extends_exercise|]. intros r.
    apply extends_bind; [apply extends_refl|]. intros c.
    apply extends_if; [|apply extends_refl]. apply IH. lia.
Qed.

Lemma same_clock_exercise (fuel : nat) (args : stress_args_t)
    (workload_load workload_slice_us workload_quanta_us max_quanta
       workload_dist : Z) (mem : memory) (buffer_len : Z) :
  preserves same_clock
    (stress_workload_exercise fuel args workload_load workload_slice_us
       workload_quanta_us max_quanta workload_dist mem buffer_len).
Proof.
  apply preserves_exercise.
  - exact same_clock_refl.
  - exact same_clock_trans.
  - exact same_clock_now.
  - intros A f. apply same_clock_mwc.
  - now apply same_clock_silent.
  - now apply same_clock_silent.
  - intros ns. now apply same_clock_silent.
  - now apply same_clock_silent.
Qed.

Lemma same_asked_exercise (fuel : nat) (args : stress_args_t)
    (workload_load workload_slice_us workload_quanta_us max_quanta
       workload_dist : Z) (mem : memory) (buffer_len : Z) :
  preserves same_asked
    (stress_workload_exercise fuel args workload_load workload_slice_us
       workload_quanta_us max_quanta workload_dist mem buffer_len).
Proof.
  apply preserves_exercise; unfold same_asked.
  - intros w. now split.
  - intros a b c [H1 H2] [H3 H4]. split; congruence.
  - intros w. now split.
  - intros A f w. unfold mwc. destruct (f (w_mwc w)). now split.
  - intros w. now split.
  - intros w. now split.
  - intros ns w. now split.
  - intros w. now split.
Qed.

Lemma only_sleeps_refl (w : world) : only_sleeps w w.
Proof. exists []. split; [reflexivity|constructor]. Qed.

Lemma only_sleeps_trans (a b c : world) :
  only_sleeps a b -> only_sleeps b c -> only_sleeps a c.
Proof.
  intros (e1 & H1 & F1) (e2 & H2 & F2). exists (e2 ++ e1). split.
  - rewrite H2, H1. now rewrite app_assoc.
  - apply Forall_app. now split.
Qed.

Lemma only_sleeps_silent {A : Type} (m : M A) :
  (forall w, w_log (snd (m w)) = w_log w) -> preserves only_sleeps m.
Proof.
  intros H w. exists []. split; [now rewrite H|constructor].
Qed.

Lemma only_sleeps_exercise_loop (fuel rounds : nat) (args : stress_args_t)
    (workload_load workload_slice_us workload_quanta_us max_quanta
       workload_dist : Z) (mem : memory) (buffer_len : Z) :
  preserves only_sleeps
    (exercise_loop fuel rounds args workload_load workload_slice_us
       workload_quanta_us max_quanta workload_dist mem buffer_len).
Proof.
  apply preserves_exercise_loop.
  - exact only_sleeps_refl.
  - exact only_sleeps_trans.
  - now apply only_sleeps_silent.
  - intros A f. apply only_sleeps_silent. intros w. unfold mwc.
    now destruct (f (w_mwc w)).
  - now apply only_sleeps_silent.
  - now apply only_sleeps_silent.
  - intros ns w. exists [EvNanosleep ns]. split; [reflexivity|].
    now repeat constructor.
  - now apply only_sleeps_silent.
  - now apply only_sleeps_silent.
Qed.

(** The do-while loop returns when the clock gets past every deadline and
    the keep-running predicate answers no at its call [k]. *)
Lemma exercise_loop_returns (args : stress_args_t)
    (workload_load workload_slice_us workload_quanta_us max_quanta
       workload_dist : Z) (buffer_len : Z) (k : nat) :
  forall (mem : memory) (w : world),
    clock_passes (w_clock w) ->
    (forall j : nat, (j < k)%nat -> w_continue w (w_asked w + j) = true) ->
    w_continue w (w_asked w + k) = false ->
    exists (fuel rounds : nat) (mem' : memory),
      fst (exercise_loop fuel rounds args workload_load workload_slice_us
             workload_quanta_us max_quanta workload_dist mem buffer_len w)
      = Some mem'.
Proof.
  induction k as [|k IH]; intros mem w Hpass Htrue Hfalse;
    destruct (exercise_returns args workload_load workload_slice_us
                workload_quanta_us max_quanta workload_dist mem buffer_len w
                Hpass) as (F1 & r & Hr);
    pose proof (same_clock_exercise F1 args workload_load workload_slice_us
                  workload_quanta_us max_quanta workload_dist mem buffer_len
                  w) as [Hc _];
    pose proof (same_asked_exercise F1 args workload_load workload_slice_us
                  workload_quanta_us max_quanta workload_dist mem buffer_len
                  w) as [Ho Ha];
    destruct (stress_workload_exercise F1 args workload_load
                workload_slice_us workload_quanta_us max_quanta
                workload_dist mem buffer_len w) as [[r1|] w1] eqn:E;
    try discriminate; simpl in Hc, Ho, Ha.
  - exists F1, 1%nat, (snd r1). cbn [exercise_loop].
    rewrite (bind_eq _ _ _ _ _ E).
    unfold bind at 1. unfold stress_continue at 1. cbv beta iota.
    assert (Hcnd : w_continue w1 (w_asked w1) = false)
      by (rewrite Ho, Ha; now rewrite Nat.add_0_r in Hfalse).
    now rewrite Hcnd.
  - destruct (IH (snd r1) (snd (stress_continue w1))) as (F2 & R2 & m2 & H2).
    + simpl. now rewrite Hc.
    + intros j Hj. simpl. rewrite Ho, Ha.
      match goal with
      | |- w_continue w ?x = _ =>
          replace x with (w_asked w + S j)%nat by lia
      end.
      apply Htrue. lia.
    + simpl. rewrite Ho, Ha.
      match goal with
      | |- w_continue w ?x = _ =>
          now replace x with (w_asked w + S k)%nat by lia
      end.
    + exists (Nat.max F1 F2), (S R2), m2. cbn [exercise_loop].
      rewrite (bind_eq _ _ _ _ r1
                 (eq_trans
                    (extends_exercise F1 (Nat.max F1 F2) args workload_load
                       workload_slice_us workload_quanta_us max_quanta
                       workload_dist mem buffer_len ltac:(lia) w r1
                       ltac:(now rewrite E)) E)).
      unfold bind at 1. unfold stress_continue at 1. cbv beta iota.
      assert (Hcnd : w_continue w1 (w_asked w1) = true).
      { rewrite Ho, Ha. rewrite <- (Nat.add_0_r (w_asked w)).
        apply Htrue. lia. }
      rewrite Hcnd.
      exact (eq_trans
               (f_equal fst
                  (extends_exercise_loop F2 (Nat.max F1 F2) args
                     workload_load workload_slice_us workload_quanta_us
                     max_quanta workload_dist buffer_len R2 ltac:(lia) R2
                     (snd r1) ltac:(lia) _ m2 H2)) H2).
Qed.

Lemma exercise_loop_counts (fuel : nat) (args : stress_args_t)
    (workload_load workload_slice_us workload_quanta_us max_quanta
       workload_dist : Z) (buffer_len : Z) (k : nat) :
  forall (rounds : nat) (mem mem' : memory) (w w' : world),
    exercise_loop fuel rounds args workload_load workload_slice_us
      workload_quanta_us max_quanta workload_dist mem buffer_len w
    = (Some mem', w') ->
    (forall j : nat, (j < k)%nat -> w_continue w (w_asked w + j) = true) ->
    w_continue w (w_asked w + k) = false ->
    0 <= max_quanta ->
    cells_ok (m_bucket mem) ->
    bucket_samples (m_bucket mem) + (Z.of_nat k + 1) * max_quanta < 2 ^ 64 ->
    w_bogo w' = w_bogo w + (Z.of_nat k + 1) * max_quanta
    /\ w_asked w' = (w_asked w + k + 1)%nat
    /\ cells_ok (m_bucket mem')
    /\ bucket_samples (m_bucket mem')
       = bucket_samples (m_bucket mem) + (Z.of_nat k + 1) * max_quanta.
Proof.
  induction k as [|k IH];
    intros rounds mem mem' w w' H Htrue Hfalse Hn Hok Hroom;
    (destruct rounds as [|rounds]; [discriminate|]);
    cbn [exercise_loop] in H;
    bind_inv H as r w1 E1;
    pose proof (same_asked_exercise fuel args workload_load
                  workload_slice_us workload_quanta_us max_quanta
                  workload_dist mem buffer_len w) as [Ho Ha];
    rewrite E1 in Ho, Ha; simpl in Ho, Ha;
    destruct (exercise_counts _ _ _ _ _ _ _ _ _ _ _ _ E1)
      as (_ & Hbogo & values & Hlen & Hfold);
    assert (Htrips : Z.of_nat (trips 0 max_quanta) = max_quanta)
      by (unfold trips; lia);
    (destruct (account_all_samples values (m_bucket mem) Hok)
       as [Hok1 Hs1]; [rewrite Hlen; nia|]);
    rewrite <- Hfold, Hlen, Htrips in Hs1; rewrite <- Hfold in Hok1;
    bind_inv H as c w2 E2;
    unfold stress_continue in E2; injection E2 as <- <-.
  - assert (Hcnd : w_continue w1 (w_asked w1) = false)
      by (rewrite Ho, Ha; now rewrite Nat.add_0_r in Hfalse).
    rewrite Hcnd in H. injection H as <- <-. simpl.
    split; [lia|]. split; [lia|]. split; [exact Hok1|lia].
  - assert (Hcnd : w_continue w1 (w_asked w1) = true).
    { rewrite Ho, Ha. rewrite <- (Nat.add_0_r (w_asked w)).
      apply Htrue. lia. }
    rewrite Hcnd in H. apply IH in H; try assumption.
    + simpl in H. destruct H as (H1 & H2 & H3 & H4).
      split; [lia|]. split; [lia|]. split; [exact H3|lia].
    + intros j Hj. simpl. rewrite Ho, Ha.
      match goal with
      | |- w_continue w ?x = _ =>
          replace x with (w_asked w + S j)%nat by lia
      end.
      apply Htrue. lia.
    + simpl. rewrite Ho, Ha.
      match goal with
      | |- w_continue w ?x = _ =>
          now replace x with (w_asked w + S k)%nat by lia
      end.
    + lia.
Qed.

(** When the host has no memory for the stressor, it says so and returns
    the status that lets the host skip it: without the quantum array it
    stops there, and without the scratch buffer it frees the quantum
    array first.  In neither case is a slice run, an operation signalled
    or the clock read.  With a configuration of the ranges the option
    setters check, the array it asks for has [slice_us / quanta_us] cells,
    one at least. *)
Theorem stress_workload_no_resource (fuel : nat) (args : stress_args_t)
    (w : world) :
  let slice_us := default 100000 (set_workload_slice_us (w_settings w)) in
  let quanta_us := default 1000 (set_workload_quanta_us (w_settings w)) in
  valid_config slice_us quanta_us ->
  (w_calloc_ok w = false ->
   fst (stress_workload fuel args w) = Some EXIT_NO_RESOURCE
   /\ w_log (snd (stress_workload fuel args w))
      = [EvPrInfSkip; EvCalloc (quanta_count slice_us quanta_us)] ++ w_log w
   /\ w_bogo (snd (stress_workload fuel args w)) = w_bogo w
   /\ w_polls (snd (stress_workload fuel args w)) = w_polls w)
  /\ (w_calloc_ok w = true -> w_mmap_ok w = false ->
      fst (stress_workload fuel args w) = Some EXIT_NO_RESOURCE
      /\ w_log (snd (stress_workload fuel args w))
         = [EvFree; EvPrInfSkip; EvMmap MB;
            EvCalloc (quanta_count slice_us quanta_us)] ++ w_log w
      /\ w_bogo (snd (stress_workload fuel args w)) = w_bogo w
      /\ w_polls (snd (stress_workload fuel args w)) = w_polls w)
  /\ 1 <= quanta_count slice_us quanta_us
  /\ quanta_count slice_us quanta_us = slice_us / quanta_us.
Proof.
  intros slice_us quanta_us Hvalid.
  destruct (quanta_count_valid slice_us quanta_us Hvalid) as (Hn & Hn1 & _).
  destruct Hvalid as (Hq & Hle & Hs).
  assert (Hrun : stress_workload fuel args w
                 = bind (emit (EvCalloc (quanta_count slice_us quanta_us)))
                     (fun _ =>
                        calloc_ok <- ask w_calloc_ok ;;
                        if negb calloc_ok then
                          emit EvPrInfSkip ;;; ret EXIT_NO_RESOURCE
                        else
                          emit (EvMmap MB) ;;;
                          mmap_ok <- ask w_mmap_ok ;;
                          if negb mmap_ok then
                            emit EvPrInfSkip ;;; emit EvFree ;;;
                            ret EXIT_NO_RESOURCE
                          else
                            (stress_workload fuel args ;;;
                             ret EXIT_SUCCESS)) w
                 \/ w_calloc_ok w = true /\ w_mmap_ok w = true).
  { destruct (w_calloc_ok w) eqn:Hc; destruct (w_mmap_ok w) eqn:Hm;
      [now right|left..];
      unfold stress_workload; unfold bind at 1; unfold ask at 1;
      fold slice_us quanta_us;
      (destruct (Z.gtb_spec quanta_us slice_us); [lia|]);
      unfold bind, ask, emit, ret; cbn [w_calloc_ok w_mmap_ok];
      rewrite ?Hc, ?Hm; reflexivity. }
  split; [|split; [|split]].
  - intros Hc. destruct Hrun as [Hrun|[Hc' _]]; [|congruence].
    rewrite Hrun. unfold bind, ask, emit, ret. cbn [w_calloc_ok].
    rewrite Hc. now repeat split.
  - intros Hc Hm. destruct Hrun as [Hrun|[_ Hm']]; [|congruence].
    rewrite Hrun. unfold bind, ask, emit, ret. cbn [w_calloc_ok w_mmap_ok].
    rewrite Hc, Hm. now repeat split.
  - rewrite Hn. lia.
  - exact Hn.
Qed.

Lemma stress_workload_no_resource_witness :
  let w := MkWorld example_clock 0 example_tape 0 0 0 (fun _ => true) 0
             true false (MkSettings None (Some 5000) (Some 500) None) [] in
  fst (stress_workload 0 (MkArgs 0) w) = Some EXIT_NO_RESOURCE
  /\ w_log (snd (stress_workload 0 (MkArgs 0) w))
     = [EvFree; EvPrInfSkip; EvMmap MB; EvCalloc 10].
Proof.
  intros w.
  destruct (stress_workload_no_resource 0 (MkArgs 0) w) as (_ & H & _).
  - unfold valid_config. simpl. lia.
  - destruct (H eq_refl eq_refl) as (H1 & H2 & _).
    split; [exact H1|exact H2].
Defined.

Lemma stress_workload_run_eq (fuel : nat) (args : stress_args_t) (w : world) :
  let s := w_settings w in
  let load := default 30 (set_workload_load s) in
  let slice_us := default 100000 (set_workload_slice_us s) in
  let quanta_us := default 1000 (set_workload_quanta_us s) in
  let dist := default STRESS_WORKLOAD_DIST_CLUSTER (set_workload_dist s) in
  let n := quanta_count slice_us quanta_us in
  quanta_us <= slice_us ->
  w_calloc_ok w = true ->
  w_mmap_ok w = true ->
  stress_workload fuel args w
  = bind (exercise_loop fuel fuel args load slice_us quanta_us n dist
            (MkMemory
               (replicate (Z.to_nat n) (MkWorkload 0))
               (stress_workload_bucket_init
                  (MkBucket 0 (replicate (Z.to_nat NUM_BUCKETS) 0) 0)
                  (inject_Z slice_us))
               (replicate (Z.to_nat MB) 0))
            MB)
         (fun mem =>
            emit (EvProcState STRESS_STATE_DEINIT) ;;;
            (if instance args =? 0
             then emit (EvReport (stress_workload_bucket_report (m_bucket mem)))
             else ret tt) ;;;
            emit (EvMunmap MB) ;;;
            emit EvFree ;;;
            ret EXIT_SUCCESS)
         (snd (emit (EvProcState STRESS_STATE_RUN)
                 (snd (emit (EvMmap MB) (snd (emit (EvCalloc n) w)))))).
Proof.
  intros s load slice_us quanta_us dist n Hle Hc Hm.
  unfold stress_workload. unfold bind at 1. unfold ask at 1.
  fold s. fold slice_us quanta_us.
  destruct (Z.gtb_spec quanta_us slice_us); [lia|].
  unfold bind, ask, emit, ret. cbn [w_calloc_ok w_mmap_ok snd].
  rewrite Hc, Hm. reflexivity.
Qed.

(** A whole run of the stressor.  With a configuration of the ranges the
    option setters check, both allocations granted, a clock that gets
    past every deadline and a keep-running predicate that answers no for
    the first time at its call [k], the stressor returns success after
    [k + 1] slices: it has
    signalled [(k + 1) * max_quanta] operations and asked the predicate
    [k + 1] times; between the run state and the deinit state the host saw
    sleeps only; the report is printed by instance 0 alone, over a
    histogram of [(k + 1) * max_quanta] samples; and the buffer is
    unmapped, then the quantum array freed, last. *)
Theorem stress_workload_runs_to_report (args : stress_args_t) (w : world)
    (k : nat) :
  let slice_us := default 100000 (set_workload_slice_us (w_settings w)) in
  let quanta_us := default 1000 (set_workload_quanta_us (w_settings w)) in
  let n := quanta_count slice_us quanta_us in
  valid_config slice_us quanta_us ->
  w_calloc_ok w = true ->
  w_mmap_ok w = true ->
  clock_passes (w_clock w) ->
  (forall j : nat, (j < k)%nat -> w_continue w (w_asked w + j) = true) ->
  w_continue w (w_asked w + k) = false ->
  (Z.of_nat k + 1) * n < 2 ^ 64 ->
  exists fuel0 : nat,
    forall fuel : nat, (fuel0 <= fuel)%nat ->
      exists (w' : world) (sleeps report : list event),
        stress_workload fuel args w = (Some EXIT_SUCCESS, w')
        /\ w_bogo w' = w_bogo w + (Z.of_nat k + 1) * n
        /\ w_asked w' = (w_asked w + k + 1)%nat
        /\ w_log w'
           = [EvFree; EvMunmap MB] ++ report
             ++ [EvProcState STRESS_STATE_DEINIT] ++ sleeps
             ++ [EvProcState STRESS_STATE_RUN; EvMmap MB; EvCalloc n]
             ++ w_log w
        /\ Forall (fun e => is_nanosleep e = true) sleeps
        /\ (instance args <> 0 -> report = [])
        /\ (instance args = 0 ->
            exists b : stress_workload_bucket_t,
              report = [EvReport (stress_workload_bucket_report b)]
              /\ bucket_total b = (Z.of_nat k + 1) * n).
Proof.
  intros slice_us quanta_us n Hvalid Hc Hm Hpass Htrue Hfalse Hroom.
  assert (Hle : quanta_us <= slice_us) by (unfold valid_config in Hvalid; lia).
  set (load := default 30 (set_workload_load (w_settings w))).
  set (dist := default STRESS_WORKLOAD_DIST_CLUSTER
                 (set_workload_dist (w_settings w))).
  set (w0 := snd (emit (EvProcState STRESS_STATE_RUN)
                    (snd (emit (EvMmap MB) (snd (emit (EvCalloc n) w)))))).
  set (b0 := stress_workload_bucket_init
               (MkBucket 0 (replicate (Z.to_nat NUM_BUCKETS) 0) 0)
               (inject_Z slice_us)).
  set (mem0 := MkMemory (replicate (Z.to_nat n) (MkWorkload 0)) b0
                 (replicate (Z.to_nat MB) 0)).
  assert (Hn : 1 <= n).
  { unfold n. destruct (quanta_count_valid slice_us quanta_us Hvalid); lia. }
  destruct (bucket_init_ok (MkBucket 0 (replicate (Z.to_nat NUM_BUCKETS) 0) 0)
              (inject_Z slice_us) eq_refl) as [Hok0 Hs0].
  fold b0 in Hok0, Hs0.
  destruct (exercise_loop_returns args load slice_us quanta_us n dist MB k
              mem0 w0 Hpass Htrue Hfalse) as (F & R & mem' & Hret).
  exists (Nat.max F R). intros fuel Hfuel.
  destruct (exercise_loop F R args load slice_us quanta_us n dist mem0 MB w0)
    as [[m|] w1] eqn:E; [|discriminate].
  clear mem' Hret.
  assert (E' : exercise_loop fuel fuel args load slice_us quanta_us n dist
                 mem0 MB w0 = (Some m, w1)).
  { rewrite <- E.
    apply (extends_exercise_loop F fuel args load slice_us quanta_us n dist
             MB R ltac:(lia) fuel mem0 ltac:(lia) w0 m).
    now rewrite E. }
  destruct (exercise_loop_counts F args load slice_us quanta_us n dist MB k R
              mem0 m w0 w1 E Htrue Hfalse ltac:(lia) Hok0)
    as (Hb & Ha & Hok & Hs).
  { change (m_bucket mem0) with b0. rewrite Hs0. lia. }
  change (m_bucket mem0) with b0 in Hs. rewrite Hs0, Z.add_0_l in Hs.
  change (w_bogo w0) with (w_bogo w) in Hb.
  change (w_asked w0) with (w_asked w) in Ha.
  pose proof (only_sleeps_exercise_loop F R args load slice_us quanta_us n
                dist mem0 MB w0) as Hlog.
  rewrite E in Hlog. destruct Hlog as (sleeps & Hl & Hf).
  cbn [snd] in Hl.
  change (w_log w0)
    with ([EvProcState STRESS_STATE_RUN; EvMmap MB; EvCalloc n] ++ w_log w)
    in Hl.
  assert (Hrun : stress_workload fuel args w
                 = (emit (EvProcState STRESS_STATE_DEINIT) ;;;
                    (if instance args =? 0
                     then emit (EvReport
                                  (stress_workload_bucket_report (m_bucket m)))
                     else ret tt) ;;;
                    emit (EvMunmap MB) ;;;
                    emit EvFree ;;;
                    ret EXIT_SUCCESS) w1).
  { etransitivity; [exact (stress_workload_run_eq fuel args w Hle Hc Hm)|].
    exact (bind_eq _ _ _ _ _ E'). }
  rewrite Hrun. unfold bind, emit, ret.
  destruct (Z.eqb_spec (instance args) 0) as [Hi|Hi]; cbn [snd].
  - eexists. exists sleeps.
    exists [EvReport (stress_workload_bucket_report (m_bucket m))].
    split; [reflexivity|]. cbn [w_bogo w_asked w_log].
    split; [exact Hb|]. split; [exact Ha|].
    split; [now rewrite Hl|]. split; [exact Hf|].
    split; [intros H; contradiction|]. intros _.
    exists (m_bucket m). split; [reflexivity|].
    rewrite bucket_total_samples; [exact Hs|exact Hok|lia].
  - eexists. exists sleeps. exists [].
    split; [reflexivity|]. cbn [w_bogo w_asked w_log].
    split; [exact Hb|]. split; [exact Ha|].
    split; [now rewrite Hl|]. split; [exact Hf|].
    split; [reflexivity|]. intros H; contradiction.
Qed.

Lemma stress_workload_runs_to_report_witness :
  let w := MkWorld example_clock 0 example_tape 0 0 0
             (fun i => (i <? 2)%nat) 0 true true
             (MkSettings None (Some 5000) (Some 500) None) [] in
  exists fuel0 : nat,
    forall fuel : nat, (fuel0 <= fuel)%nat ->
      exists (w' : world) (sleeps report : list event),
        stress_workload fuel (MkArgs 0) w = (Some EXIT_SUCCESS, w')
        /\ w_bogo w' = 30
        /\ w_asked w' = 3%nat
        /\ w_log w'
           = [EvFree; EvMunmap MB] ++ report
             ++ [EvProcState STRESS_STATE_DEINIT] ++ sleeps
             ++ [EvProcState STRESS_STATE_RUN; EvMmap MB; EvCalloc 10]
        /\ Forall (fun e => is_nanosleep e = true) sleeps
        /\ (instance (MkArgs 0) <> 0 -> report = [])
        /\ (instance (MkArgs 0) = 0 ->
            exists b : stress_workload_bucket_t,
              report = [EvReport (stress_workload_bucket_report b)]
              /\ bucket_total b = 30).
Proof.
  intros w.
  refine (stress_workload_runs_to_report (MkArgs 0) w 2 _ eq_refl eq_refl
            example_clock_passes _ eq_refl _).
  - unfold valid_config. simpl. lia.
  - intros j Hj. simpl. apply Nat.ltb_lt. exact Hj.
  - reflexivity.
Defined.
